(** * Article summarization pipeline: text cleaning, prompting, JSON recovery

    A shallow embedding of [01_Article_Summarizer.py].  Python strings are
    lists of Unicode code points, regular expressions are a small syntax
    tree interpreted by a backtracking matcher that lists the outcomes in
    the order in which Python's [re] tries them, and the calls to the model
    server, the clock and the file system are threaded through an explicit
    world. *)

From Stdlib Require Import String Ascii.
From Stdlib Require Import List NArith ZArith Bool Arith Lia.
Import ListNotations.

Set Implicit Arguments.
Set Warnings "-abstract-large-number".

(** ** Code points and text *)

(** A Python [str] is a sequence of code points. *)
Definition cp := N.
Bind Scope N_scope with cp.
Definition text := list cp.

Definition cp_eqb (a b : cp) : bool := N.eqb a b.

Fixpoint text_eqb (a b : text) : bool :=
  match a, b with
  | [], [] => true
  | x :: a', y :: b' => cp_eqb x y && text_eqb a' b'
  | _, _ => false
  end.

(** *** Literals

    [py "..."] reads a literal the way Python reads a (non-raw) string
    literal: the bytes are decoded as UTF-8 and the escapes [\n], [\t],
    [\\] and [\xHH] are interpreted.  A double quote is written [\x22]. *)

Definition bytes_of (s : string) : list N :=
  map N_of_ascii (list_ascii_of_string s).

Definition cont (b : N) : N := N.land b 63.

Fixpoint utf8_decode (l : list N) : text :=
  match l with
  | [] => []
  | b0 :: r0 =>
    if N.ltb b0 128 then b0 :: utf8_decode r0
    else match r0 with
    | [] => [b0]
    | b1 :: r1 =>
      if N.ltb b0 224 then (N.land b0 31 * 64 + cont b1)%N :: utf8_decode r1
      else match r1 with
      | [] => [b0; b1]
      | b2 :: r2 =>
        if N.ltb b0 240
        then (N.land b0 15 * 4096 + cont b1 * 64 + cont b2)%N :: utf8_decode r2
        else match r2 with
        | [] => [b0; b1; b2]
        | b3 :: r3 =>
          (N.land b0 7 * 262144 + cont b1 * 4096 + cont b2 * 64 + cont b3)%N
            :: utf8_decode r3
        end
      end
    end
  end.

Definition hex_digit (c : cp) : N :=
  if N.leb 48 c && N.leb c 57 then (c - 48)%N
  else if N.leb 97 c && N.leb c 102 then (c - 87)%N
  else if N.leb 65 c && N.leb c 70 then (c - 55)%N
  else 0%N.

Fixpoint unescape (l : text) : text :=
  match l with
  | [] => []
  | c :: r =>
    if negb (cp_eqb c 92) then c :: unescape r
    else match r with
    | [] => [c]
    | e :: r1 =>
      if cp_eqb e 110 then 10%N :: unescape r1
      else if cp_eqb e 116 then 9%N :: unescape r1
      else if cp_eqb e 92 then 92%N :: unescape r1
      else if cp_eqb e 120 then
        match r1 with
        | h :: l0 :: r2 => (hex_digit h * 16 + hex_digit l0)%N :: unescape r2
        | _ => c :: e :: unescape r1
        end
      else c :: e :: unescape r1
    end
  end.

Definition py (s : string) : text := unescape (utf8_decode (bytes_of s)).
Arguments py s%_string.

Definition nl : cp := 10%N.
Definition tab : cp := 9%N.
Definition space : cp := 32%N.

(** ** The Unicode database

    [str.isspace], which [str.strip] and the class [\s] consult, holds of
    twenty-five code points, listed here in full. *)
Definition between (lo hi c : cp) : bool := N.leb lo c && N.leb c hi.

Definition isspace (c : cp) : bool :=
  between 9 13 c || between 28 32 c || cp_eqb c 133 || cp_eqb c 160
  || cp_eqb c 5760 || between 8192 8202 c || between 8232 8233 c
  || cp_eqb c 8239 || cp_eqb c 8287 || cp_eqb c 12288.

(** The other tables of the interpreter's Unicode database are large; the
    program reaches them through [\w] ([isalnum] or an underscore), [\d]
    ([isdecimal]), [str.lower] and case-insensitive matching. *)
Class Unicode := {
  isalnum : cp -> bool;
  isdecimal : cp -> bool;
  str_lower : text -> text;
  ci_eq : cp -> cp -> bool;
  (** among the ASCII characters the decimal digits are [0] to [9] *)
  isdecimal_ascii : forall c, (c < 128)%N -> isdecimal c = between 48 57 c
}.

(** The database on the Basic Latin and Latin-1 blocks; a code point above
    U+00FF counts as a caseless symbol. *)
Definition latin1_isalnum (c : cp) : bool :=
  between 48 57 c || between 65 90 c || between 97 122 c || cp_eqb c 170
  || between 178 179 c || cp_eqb c 181 || between 185 186 c
  || between 188 190 c || between 192 214 c || between 216 246 c
  || between 248 255 c.

Definition latin1_lower (c : cp) : cp :=
  if between 65 90 c || between 192 214 c || between 216 222 c
  then (c + 32)%N else c.

#[export] Instance latin1 : Unicode := {
  isalnum := latin1_isalnum;
  isdecimal := between 48 57;
  str_lower := map latin1_lower;
  ci_eq := fun a b => cp_eqb (latin1_lower a) (latin1_lower b);
  isdecimal_ascii := fun c _ => eq_refl
}.

(** ** String methods *)

Fixpoint lstrip (t : text) : text :=
  match t with
  | [] => []
  | c :: t' => if isspace c then lstrip t' else t
  end.

Fixpoint rstrip (t : text) : text :=
  match t with
  | [] => []
  | c :: t' =>
    match rstrip t' with
    | [] => if isspace c then [] else [c]
    | r => c :: r
    end
  end.

(** [s.strip()] *)
Definition strip (t : text) : text := rstrip (lstrip t).

(** [s.split('\n')]: never the empty list. *)
Fixpoint split_nl (t : text) : list text :=
  match t with
  | [] => [[]]
  | c :: t' =>
    if cp_eqb c nl then [] :: split_nl t'
    else match split_nl t' with
         | l :: ls => (c :: l) :: ls
         | [] => [[c]]
         end
  end.

(** ['\n'.join(ls)] *)
Fixpoint join_nl (ls : list text) : text :=
  match ls with
  | [] => []
  | [l] => l
  | l :: ls' => l ++ nl :: join_nl ls'
  end.

Definition is_empty_text (t : text) : bool :=
  match t with [] => true | _ => false end.

Fixpoint starts_with (p t : text) : bool :=
  match p, t with
  | [], _ => true
  | a :: p', b :: t' => cp_eqb a b && starts_with p' t'
  | _ :: _, [] => false
  end.

(** [s.replace(old, new)] for a non-empty [old]: the occurrences are taken
    from the left and do not overlap.  [skip] counts the characters of the
    occurrence still to pass over. *)
Fixpoint replace_from (old new : text) (skip : nat) (t : text) : text :=
  match t with
  | [] => []
  | c :: t' =>
    match skip with
    | S n => replace_from old new n t'
    | O =>
      if starts_with old t
      then new ++ replace_from old new (pred (length old)) t'
      else c :: replace_from old new 0 t'
    end
  end.

Definition str_replace (s old new : text) : text := replace_from old new 0 s.

(** [s.find(c)] and [s.rfind(c)] for a one-character needle: the lowest
    and the highest index, or -1. *)
Fixpoint find (c : cp) (t : text) : Z :=
  match t with
  | [] => (-1)%Z
  | x :: t' =>
    if cp_eqb x c then 0%Z
    else let i := find c t' in if (i <? 0)%Z then (-1)%Z else (i + 1)%Z
  end.

Fixpoint rfind (c : cp) (t : text) : Z :=
  match t with
  | [] => (-1)%Z
  | x :: t' =>
    let i := rfind c t' in
    if (0 <=? i)%Z then (i + 1)%Z
    else if cp_eqb x c then 0%Z else (-1)%Z
  end.

(** [s[a:b]]: a negative bound counts from the end, and both bounds are
    clipped to the string. *)
Definition clip (len i : Z) : Z :=
  if (i <? 0)%Z then Z.max 0 (i + len) else Z.min i len.

Definition slice (t : text) (a b : Z) : text :=
  let len := Z.of_nat (length t) in
  let a' := clip len a in
  let b' := clip len b in
  firstn (Z.to_nat (b' - a')) (skipn (Z.to_nat a') t).

(** ** Regular expressions *)

Definition charset := cp -> bool.

Inductive greed := Greedy | Lazy.

Inductive regex :=
| Eps
| Chr (p : charset)
| Seq (r1 r2 : regex)
| Alt (r1 r2 : regex)
| Rep (g : greed) (lo : nat) (hi : option nat) (r : regex)
| Grp (n : nat) (r : regex)
| Bol
| Eol
| NotBehind (p : charset)
| NotAhead (p : charset).

(** A position of the matcher: the character just before it (for [^] and
    look-behind), the text still ahead, and the groups captured so far. *)
Record mstate := MState {
  m_prev : option cp;
  m_rest : text;
  m_caps : list (nat * text)
}.

Definition holds_opt (p : charset) (o : option cp) : bool :=
  match o with Some c => p c | None => false end.

Definition is_nl : charset := fun c => cp_eqb c nl.

Definition at_bol (st : mstate) : bool :=
  match m_prev st with None => true | Some c => is_nl c end.

Definition at_eol (st : mstate) : bool :=
  match m_rest st with [] => true | c :: _ => is_nl c end.

Definition consumed (st st' : mstate) : text :=
  firstn (length (m_rest st) - length (m_rest st')) (m_rest st).

Definition set_cap (n : nat) (st st' : mstate) : mstate :=
  MState (m_prev st') (m_rest st') ((n, consumed st st') :: m_caps st').

Definition bound_pred (hi : option nat) : option nat :=
  match hi with Some h => Some (pred h) | None => None end.

Definition bound_open (hi : option nat) : bool :=
  match hi with Some O => false | _ => true end.

Section Repetition.
Variable step : mstate -> list mstate.

(** [r{lo,hi}]: the greedy form tries one more round before stopping, the
    lazy form the other way round.  A round has to consume something;
    [fuel] is one more than the number of characters ahead. *)
Fixpoint rep (g : greed) (fuel lo : nat) (hi : option nat) (st : mstate)
  : list mstate :=
  match fuel with
  | O => if Nat.eqb lo 0 then [st] else []
  | S f =>
    let more :=
      if bound_open hi then
        flat_map (fun st' =>
                    if Nat.ltb (length (m_rest st')) (length (m_rest st))
                    then rep g f (pred lo) (bound_pred hi) st'
                    else [])
                 (step st)
      else [] in
    let stop := if Nat.eqb lo 0 then [st] else [] in
    match g with
    | Greedy => more ++ stop
    | Lazy => stop ++ more
    end
  end.
End Repetition.

(** All the ways [r] matches at [st], in the order in which a backtracking
    matcher reaches them; the match Python reports is the first. *)
Fixpoint run (r : regex) (st : mstate) : list mstate :=
  match r with
  | Eps => [st]
  | Chr p =>
    match m_rest st with
    | c :: s => if p c then [MState (Some c) s (m_caps st)] else []
    | [] => []
    end
  | Seq r1 r2 => flat_map (run r2) (run r1 st)
  | Alt r1 r2 => run r1 st ++ run r2 st
  | Rep g lo hi r1 => rep (run r1) g (S (length (m_rest st))) lo hi st
  | Grp n r1 => map (set_cap n st) (run r1 st)
  | Bol => if at_bol st then [st] else []
  | Eol => if at_eol st then [st] else []
  | NotBehind p => if holds_opt p (m_prev st) then [] else [st]
  | NotAhead p => if holds_opt p (hd_error (m_rest st)) then [] else [st]
  end.

(** [pattern.match] at a position: the first outcome, if any.  None of the
    program's patterns matches the empty string; an empty match counts as
    no match here. *)
Definition match_here (r : regex) (prev : option cp) (t : text)
  : option mstate :=
  match run r (MState prev t []) with
  | st' :: _ =>
    if Nat.ltb (length (m_rest st')) (length t) then Some st' else None
  | [] => None
  end.

(** A replacement template: literal text and group references. *)
Inductive repl_item := Lit (s : text) | Ref (n : nat).

Fixpoint lookup_cap (n : nat) (caps : list (nat * text)) : text :=
  match caps with
  | [] => []
  | (k, s) :: caps' => if Nat.eqb k n then s else lookup_cap n caps'
  end.

Fixpoint expand (repl : list repl_item) (caps : list (nat * text)) : text :=
  match repl with
  | [] => []
  | Lit s :: repl' => s ++ expand repl' caps
  | Ref n :: repl' => lookup_cap n caps ++ expand repl' caps
  end.

(** [re.sub(r, repl, t)]: scan from the left; where the pattern matches,
    emit the replacement and resume after the match; elsewhere copy the
    character.  [skip] counts the characters of the current match still to
    pass over. *)
Fixpoint sub_from (r : regex) (repl : list repl_item) (prev : option cp)
  (skip : nat) (t : text) : text :=
  match t with
  | [] => []
  | c :: t' =>
    match skip with
    | S n => sub_from r repl (Some c) n t'
    | O =>
      match match_here r prev t with
      | Some st' =>
        expand repl (m_caps st')
          ++ sub_from r repl (Some c)
               (pred (length t - length (m_rest st'))) t'
      | None => c :: sub_from r repl (Some c) 0 t'
      end
    end
  end.

Definition re_sub (r : regex) (repl : list repl_item) (t : text) : text :=
  sub_from r repl None 0 t.

(** [re.split(r, t)[0]]: the text before the leftmost match, the whole text
    when there is none. *)
Fixpoint before_match (r : regex) (prev : option cp) (t : text) : text :=
  match t with
  | [] => []
  | c :: t' =>
    match match_here r prev t with
    | Some _ => []
    | None => c :: before_match r (Some c) t'
    end
  end.

Definition re_split_0 (r : regex) (t : text) : text := before_match r None t.

(** *** Pattern syntax *)

Definition lit (c : cp) : charset := cp_eqb c.
Definition neg (p : charset) : charset := fun c => negb (p c).
Definition either (p q : charset) : charset := fun c => p c || q c.
Definition any : charset := fun _ => true.
Definition upper_AZ : charset := between 65 90.
(** [[ \t]] *)
Definition hspace : charset := either (lit space) (lit tab).

Definition star (r : regex) := Rep Greedy 0 None r.
Definition plus (r : regex) := Rep Greedy 1 None r.
Definition opt (r : regex) := Rep Greedy 0 (Some 1) r.
Definition lazy_star (r : regex) := Rep Lazy 0 None r.
Definition at_least (n : nat) (r : regex) := Rep Greedy n None r.
Definition exactly (n : nat) (r : regex) := Rep Greedy n (Some n) r.

(** A literal string, and the same under [re.IGNORECASE]. *)
Fixpoint word (s : text) : regex :=
  match s with
  | [] => Eps
  | [c] => Chr (lit c)
  | c :: s' => Seq (Chr (lit c)) (word s')
  end.

Section Patterns.
Context {U : Unicode}.

Definition cls_w : charset := fun c => isalnum c || cp_eqb c 95.
Definition cls_d : charset := isdecimal.
Definition cls_s : charset := isspace.
Definition cls_S : charset := neg isspace.

Fixpoint word_ci (s : text) : regex :=
  match s with
  | [] => Eps
  | [c] => Chr (ci_eq c)
  | c :: s' => Seq (Chr (ci_eq c)) (word_ci s')
  end.
End Patterns.

(** Concatenation of a sequence of sub-patterns. *)
Fixpoint cat (rs : list regex) : regex :=
  match rs with
  | [] => Eps
  | [r] => r
  | r :: rs' => Seq r (cat rs')
  end.

(** ** The program *)

Section Program.
Context {U : Unicode}.

(** *** [clean_pdf_text] *)

(** [(\w+)-\n(\w+)] *)
Definition re_hyphen_break : regex :=
  cat [Grp 1 (plus (Chr cls_w)); Chr (lit 45); Chr (lit nl);
       Grp 2 (plus (Chr cls_w))].

(** [(?<!\n)\n(?![\nA-Z])] *)
Definition re_soft_break : regex :=
  cat [NotBehind is_nl; Chr (lit nl); NotAhead (either is_nl upper_AZ)].

(** [^\s*\d{1,4}\s*$] with [re.MULTILINE] *)
Definition re_page_number : regex :=
  cat [Bol; star (Chr cls_s); Rep Greedy 1 (Some 4) (Chr cls_d);
       star (Chr cls_s); Eol].

(** [Page\s*\d+] with [re.IGNORECASE] *)
Definition re_page_label : regex :=
  cat [word_ci (py "Page"); star (Chr cls_s); plus (Chr cls_d)].

(** [\|\s*www\.\S+\s*\|?] *)
Definition re_www_footer : regex :=
  cat [Chr (lit 124); star (Chr cls_s); word (py "www."); plus (Chr cls_S);
       star (Chr cls_s); opt (Chr (lit 124))].

(** [https?://\S+] *)
Definition re_url : regex :=
  cat [word (py "http"); opt (Chr (lit 115)); word (py "://");
       plus (Chr cls_S)].

(** [[ \t]+], [\n[ \t]+], [[ \t]+\n], [\n{3,}], [[ \t]{2,}] *)
Definition re_hspaces : regex := plus (Chr hspace).
Definition re_lead_space : regex := cat [Chr (lit nl); plus (Chr hspace)].
Definition re_trail_space : regex := cat [plus (Chr hspace); Chr (lit nl)].
Definition re_blank_lines : regex := at_least 3 (Chr (lit nl)).
Definition re_hspaces2 : regex := at_least 2 (Chr hspace).

Definition mem (k : text) (seen : list text) : bool :=
  existsb (text_eqb k) seen.

(** The loop of step 4.  [seen] is the set of keys met so far. *)
Fixpoint dedup_from (seen : list text) (lines : list text) : list text :=
  match lines with
  | [] => []
  | line :: lines' =>
    let l := strip line in
    if negb (is_empty_text l) && negb (mem (str_lower l) seen)
    then line :: dedup_from (str_lower l :: seen) lines'
    else dedup_from seen lines'
  end.

Definition dedup (lines : list text) : list text := dedup_from [] lines.

(** Steps 1 to 3 and step 5 of the cleaner. *)
Definition unwrap_and_scrub (text0 : text) : text :=
  let text1 := re_sub re_hyphen_break [Ref 1; Ref 2] text0 in
  let text2 := re_sub re_soft_break [Lit [space]] text1 in
  let text3 := re_sub re_page_number [] text2 in
  let text4 := re_sub re_page_label [] text3 in
  let text5 := re_sub re_www_footer [] text4 in
  re_sub re_url [] text5.

Definition normalize_whitespace (text0 : text) : text :=
  let text1 := re_sub re_hspaces [Lit [space]] text0 in
  let text2 := re_sub re_lead_space [Lit [nl]] text1 in
  let text3 := re_sub re_trail_space [Lit [nl]] text2 in
  let text4 := re_sub re_blank_lines [Lit [nl; nl]] text3 in
  let text5 := re_sub re_hspaces2 [Lit [space]] text4 in
  strip text5.

Definition clean_pdf_text (text0 : text) : text :=
  let text1 := unwrap_and_scrub text0 in
  let lines := split_nl text1 in
  let deduped := dedup lines in
  normalize_whitespace (join_nl deduped).

(** *** [strip_citations_and_references] *)

Definition not_rparen : charset := neg (lit 41).

(** [\( ( [^)]* \d{4} [^)]* ) \)], written here with blanks between the parts *)
Definition re_paren_year : regex :=
  cat [Chr (lit 40);
       Grp 1 (cat [star (Chr not_rparen); exactly 4 (Chr cls_d);
                   star (Chr not_rparen)]);
       Chr (lit 41)].

(** [\[\d+(,\s*\d+)*\]] *)
Definition re_numeric_citation : regex :=
  cat [Chr (lit 91); plus (Chr cls_d);
       star (Grp 1 (cat [Chr (lit 44); star (Chr cls_s); plus (Chr cls_d)]));
       Chr (lit 93)].

Definition heading_words : list text :=
  [py "References"; py "Bibliography"; py "Works Cited"].

(** [\n\s*(References|Bibliography|Works Cited)\s*\n] with
    [re.IGNORECASE] *)
Definition re_references_heading : regex :=
  cat [Chr (lit nl); star (Chr cls_s);
       Grp 1 (Alt (word_ci (py "References"))
             (Alt (word_ci (py "Bibliography"))
                  (word_ci (py "Works Cited"))));
       star (Chr cls_s); Chr (lit nl)].

Definition remove_paren_citations (t : text) : text :=
  re_sub re_paren_year [] t.

Definition remove_numeric_citations (t : text) : text :=
  re_sub re_numeric_citation [] t.

Definition strip_citations_and_references (text0 : text) : text :=
  let text1 := remove_paren_citations text0 in
  let text2 := remove_numeric_citations text1 in
  let text3 := re_split_0 re_references_heading text2 in
  strip text3.

(** *** [strip_thoughts] *)

(** [<think>.*?</think>] with [re.DOTALL] *)
Definition re_think : regex :=
  cat [word (py "<think>"); lazy_star (Chr any); word (py "</think>")].

Definition strip_thoughts (t : text) : text :=
  strip (re_sub re_think [] t).

End Program.

(** ** JSON values

    A number is kept as its lexeme. *)

#[local] Unset Elimination Schemes.
Inductive json :=
| JNull
| JBool (b : bool)
| JNumber (is_float : bool) (lexeme : text)
| JString (s : text)
| JArray (items : list json)
| JObject (pairs : list (text * json)).
#[local] Set Elimination Schemes.

(** A Python [dict] keeps the keys in the order of their first insertion; a
    later value for a key replaces the earlier one in place. *)
Fixpoint dict_set (k : text) (v : json) (d : list (text * json))
  : list (text * json) :=
  match d with
  | [] => [(k, v)]
  | (k', v') :: d' =>
    if text_eqb k' k then (k', v) :: d' else (k', v') :: dict_set k v d'
  end.

(** ** The outside world

    The model server, the clock, the PDF reader and the file system are
    outside the program.  A run is recorded as the sequence of its
    interactions with them. *)

(** What one request to the server leads to: the [response] field of the
    reply, or an exception, of which only the message is kept. *)
Inductive outcome :=
| Answer (payload : text)
| Raised (message : text).

(** The request body; [stream], [num_ctx] and [temperature] are constants
    of the program. *)
Record request := Request {
  rq_model : text;
  rq_prompt : text;
  rq_num_predict : Z
}.

(** [Dump] is a result file written to the end.  [DumpFailed] is a write
    that raised: the file is then as it was before, or empty, or cut
    short.  Printing is taken to succeed. *)
Inductive event :=
| Post (rq : request)
| Sleep (seconds : nat)
| Dump (path : text) (content : json)
| DumpFailed (path : text)
| Print (message : text).

Definition history := list event.

(** The machine the program runs on.  The interpreter stops decoding, with
    a [ValueError], at an integer of more digits than
    [sys.get_int_max_str_digits()], which is 4300 unless it has been
    changed and 0 when there is no limit; and, with a [RecursionError],
    at an array or object nested deeper than the recursion limit leaves
    room for.  Then come the message of the exception that [json.loads]
    raises on a text; what opening and writing a result file does after a
    given history, [None] when nothing goes wrong and otherwise the
    message of the exception; and the message of the [UnicodeEncodeError]
    for a value that cannot be encoded. *)
Class Host := {
  int_max_str_digits : nat;
  max_nesting : nat;
  decode_error : text -> text;
  write_error : history -> text -> json -> option text;
  encode_error : json -> text
}.

(** A machine with the interpreter's default limits on which no write
    fails. *)
Definition quiet_host : Host := {|
  int_max_str_digits := 4300;
  max_nesting := 990;
  decode_error := fun _ => py "Expecting value: line 1 column 1 (char 0)";
  write_error := fun _ _ _ => None;
  encode_error := fun _ => py "surrogates not allowed"
|}.
#[export] Existing Instance quiet_host.

(** ** [json.loads]

    The decoder of the interpreter's [json] module in its default, strict
    configuration. *)

Definition json_ws (c : cp) : bool :=
  cp_eqb c 32 || cp_eqb c 9 || cp_eqb c 10 || cp_eqb c 13.

Fixpoint skip_ws (s : text) : text :=
  match s with
  | c :: s' => if json_ws c then skip_ws s' else s
  | [] => []
  end.

Definition is_hex (c : cp) : bool :=
  between 48 57 c || between 97 102 c || between 65 70 c.

Definition hex4 (a b c d : cp) : option N :=
  if is_hex a && is_hex b && is_hex c && is_hex d
  then Some (hex_digit a * 4096 + hex_digit b * 256 + hex_digit c * 16
             + hex_digit d)%N
  else None.

(** The single-character escapes of a JSON string. *)
Definition backslash (e : cp) : option cp :=
  if cp_eqb e 34 then Some 34%N
  else if cp_eqb e 92 then Some 92%N
  else if cp_eqb e 47 then Some 47%N
  else if cp_eqb e 98 then Some 8%N
  else if cp_eqb e 102 then Some 12%N
  else if cp_eqb e 110 then Some 10%N
  else if cp_eqb e 114 then Some 13%N
  else if cp_eqb e 116 then Some 9%N
  else None.

Definition push (c : cp) (r : option (text * text)) : option (text * text) :=
  match r with
  | Some (content, rest) => Some (c :: content, rest)
  | None => None
  end.

Definition is_high_surrogate (u : N) : bool := between 55296 56319 u.
Definition is_low_surrogate (u : N) : bool := between 56320 57343 u.

(** [scanstring], entered just after the opening quote: the decoded content
    and the text after the closing quote.  A raw control character, an
    unknown escape and a missing closing quote are errors. *)
Fixpoint scanstring (s : text) : option (text * text) :=
  match s with
  | [] => None
  | c :: s1 =>
    if cp_eqb c 34 then Some ([], s1)
    else if N.leb c 31 then None
    else if negb (cp_eqb c 92) then push c (scanstring s1)
    else match s1 with
    | [] => None
    | e :: s2 =>
      if negb (cp_eqb e 117) then
        match backslash e with
        | Some ch => push ch (scanstring s2)
        | None => None
        end
      else match s2 with
      | h1 :: h2 :: h3 :: h4 :: s3 =>
        match hex4 h1 h2 h3 h4 with
        | None => None
        | Some uni =>
          match s3 with
          | b :: u :: l1 :: l2 :: l3 :: l4 :: s4 =>
            if is_high_surrogate uni && cp_eqb b 92 && cp_eqb u 117 then
              match hex4 l1 l2 l3 l4 with
              | None => None
              | Some uni2 =>
                if is_low_surrogate uni2
                then push (65536 + (uni - 55296) * 1024 + (uni2 - 56320))%N
                          (scanstring s4)
                else push uni (scanstring s3)
              end
            else push uni (scanstring s3)
          | _ => push uni (scanstring s3)
          end
        end
      | _ => None
      end
    end
  end.

Definition is_digit (c : cp) : bool := between 48 57 c.

Fixpoint span (p : charset) (s : text) : text * text :=
  match s with
  | c :: s' =>
    if p c then let (a, b) := span p s' in (c :: a, b) else ([], s)
  | [] => ([], [])
  end.

(** The decoder's number pattern, matched as far as it goes: an optional
    minus sign and either a single zero or a run of digits that does not
    start with zero; then, optionally, a dot and digits; then, optionally,
    [e] or [E], a sign and digits. *)
Definition scan_int (s : text) : option (text * text) :=
  let (sign, s0) :=
    match s with
    | c :: s' => if cp_eqb c 45 then ([c], s') else ([], s)
    | [] => ([], s)
    end in
  match s0 with
  | d :: s1 =>
    if cp_eqb d 48 then Some (sign ++ [d], s1)
    else if is_digit d then
      let (ds, s2) := span is_digit s1 in Some (sign ++ d :: ds, s2)
    else None
  | [] => None
  end.

Definition scan_frac (s : text) : text * text :=
  match s with
  | dot :: s1 =>
    if cp_eqb dot 46 then
      match span is_digit s1 with
      | ([], _) => ([], s)
      | (ds, s2) => (dot :: ds, s2)
      end
    else ([], s)
  | [] => ([], s)
  end.

Definition scan_exp (s : text) : text * text :=
  match s with
  | e :: s1 =>
    if cp_eqb e 101 || cp_eqb e 69 then
      let (sign, s2) :=
        match s1 with
        | c :: s' =>
          if cp_eqb c 45 || cp_eqb c 43 then ([c], s') else ([], s1)
        | [] => ([], s1)
        end in
      match span is_digit s2 with
      | ([], _) => ([], s)
      | (ds, s3) => (e :: sign ++ ds, s3)
      end
    else ([], s)
  | [] => ([], s)
  end.

(** Is an integer with this lexeme too long for [int]?  The sign does
    not count. *)
Definition too_many_digits {M : Host} (i : text) : bool :=
  (0 <? int_max_str_digits)
  && (int_max_str_digits <? length (filter is_digit i)).

(** A number without fraction and exponent is handed to [int], which
    raises when it has too many digits; the others are handed to
    [float]. *)
Definition scan_number {M : Host} (s : text) : option (json * text) :=
  match scan_int s with
  | None => None
  | Some (i, s1) =>
    let (f, s2) := scan_frac s1 in
    let (e, s3) := scan_exp s2 in
    let is_float := negb (is_empty_text f && is_empty_text e) in
    if negb is_float && too_many_digits i then None
    else Some (JNumber is_float (i ++ f ++ e), s3)
  end.

Definition drop_prefix (p s : text) : option text :=
  if starts_with p s then Some (skipn (length p) s) else None.

Definition scan_constant (s : text) : option (json * text) :=
  match drop_prefix (py "NaN") s with
  | Some r => Some (JNumber true (py "NaN"), r)
  | None =>
  match drop_prefix (py "Infinity") s with
  | Some r => Some (JNumber true (py "Infinity"), r)
  | None =>
  match drop_prefix (py "-Infinity") s with
  | Some r => Some (JNumber true (py "-Infinity"), r)
  | None => None
  end end end.

(** [scan_once] with the loops of [JSONObject] and [JSONArray].  Every call
    is made after at least one character has been read, so a fuel of one
    more than the length of the text is never used up.  [depth] is the
    number of arrays and objects that can still be entered, one inside the
    other. *)
Fixpoint scan_once {M : Host} (fuel depth : nat) (s : text)
  : option (json * text) :=
  match fuel with
  | O => None
  | S f =>
    match s with
    | [] => None
    | c :: s1 =>
      if cp_eqb c 34 then
        match scanstring s1 with
        | Some (str, r) => Some (JString str, r)
        | None => None
        end
      else if cp_eqb c 123 then
        match depth with
        | O => None
        | S inner =>
          match skip_ws s1 with
          | c1 :: s2 =>
            if cp_eqb c1 125 then Some (JObject [], s2)
            else match object_items f inner [] (c1 :: s2) with
                 | Some (d, r) => Some (JObject d, r)
                 | None => None
                 end
          | [] => None
          end
        end
      else if cp_eqb c 91 then
        match depth with
        | O => None
        | S inner =>
          match skip_ws s1 with
          | c1 :: s2 =>
            if cp_eqb c1 93 then Some (JArray [], s2)
            else match array_items f inner (c1 :: s2) with
                 | Some (l, r) => Some (JArray l, r)
                 | None => None
                 end
          | [] => None
          end
        end
      else
        match drop_prefix (py "null") s with
        | Some r => Some (JNull, r)
        | None =>
        match drop_prefix (py "true") s with
        | Some r => Some (JBool true, r)
        | None =>
        match drop_prefix (py "false") s with
        | Some r => Some (JBool false, r)
        | None =>
        match scan_number s with
        | Some v => Some v
        | None => scan_constant s
        end end end end
    end
  end

(** At the opening quote of a key: [key : value], then [}] or [,] and the
    next pair. *)
with object_items {M : Host} (fuel depth : nat) (d : list (text * json))
                  (s : text)
  : option (list (text * json) * text) :=
  match fuel with
  | O => None
  | S f =>
    match s with
    | q :: s1 =>
      if negb (cp_eqb q 34) then None
      else match scanstring s1 with
      | None => None
      | Some (key, s2) =>
        match skip_ws s2 with
        | colon :: s3 =>
          if negb (cp_eqb colon 58) then None
          else match scan_once f depth (skip_ws s3) with
          | None => None
          | Some (value, s4) =>
            let d' := dict_set key value d in
            match skip_ws s4 with
            | c :: s5 =>
              if cp_eqb c 125 then Some (d', s5)
              else if cp_eqb c 44 then object_items f depth d' (skip_ws s5)
              else None
            | [] => None
            end
          end
        | [] => None
        end
      end
    | [] => None
    end
  end

(** At the first character of an element: the element, then []] or [,] and
    the next element. *)
with array_items {M : Host} (fuel depth : nat) (s : text)
  : option (list json * text) :=
  match fuel with
  | O => None
  | S f =>
    match scan_once f depth s with
    | None => None
    | Some (value, s1) =>
      match skip_ws s1 with
      | c :: s2 =>
        if cp_eqb c 93 then Some ([value], s2)
        else if cp_eqb c 44 then
          match array_items f depth (skip_ws s2) with
          | Some (l, r) => Some (value :: l, r)
          | None => None
          end
        else None
      | [] => None
      end
    end
  end.

(** [json.loads(s)] for a [str]: [None] stands for the exception, a
    [JSONDecodeError] or one of the two errors of the limits. *)
Definition json_loads {M : Host} (s : text) : option json :=
  if starts_with [65279%N] s then None
  else
    let s0 := skip_ws s in
    match scan_once (S (length s0)) max_nesting s0 with
    | Some (obj, r) => if is_empty_text (skip_ws r) then Some obj else None
    | None => None
    end.

(** ** Computations *)

(** A computation reads and extends the history. *)
Definition io (A : Type) := history -> A * history.

Definition ret {A : Type} (a : A) : io A := fun h => (a, h).

Definition bind {A B : Type} (m : io A) (k : A -> io B) : io B :=
  fun h => let (a, h') := m h in k a h'.

Notation "x <- m ;; k" := (bind m (fun x => k))
  (at level 61, m at next level, right associativity).

Definition emit (e : event) : io unit := fun h => (tt, h ++ [e]).

(** [None] is Python's [None]; [str(None)] is the text [None]. *)
Definition str_of (v : option text) : text :=
  match v with Some t => t | None => py "None" end.

(** A text that UTF-8 can encode holds no surrogate code point. *)
Definition utf8_ok (s : text) : bool :=
  forallb (fun c => negb (is_high_surrogate c || is_low_surrogate c)) s.

(** A value all of whose keys and strings can be encoded: with
    [ensure_ascii=False] they reach the file as they are. *)
Fixpoint encodable (v : json) : bool :=
  match v with
  | JString s => utf8_ok s
  | JArray items => forallb encodable items
  | JObject pairs =>
    forallb (fun kv => utf8_ok (fst kv) && encodable (snd kv)) pairs
  | JNull | JBool _ | JNumber _ _ => true
  end.


Section Pipeline.
Context {U : Unicode} {M : Host}.

(** The server's behaviour: what it does with a request after a given
    history. *)
Variable endpoint : history -> request -> outcome.

(** The PDF reader: for a path, an exception message or, page by page, the
    text extracted with the default tolerances and with tolerances 1. *)
Variable pdf_pages : text -> text + list (text * text).

Definition post (rq : request) : io outcome :=
  fun h => (endpoint h rq, h ++ [Post rq]).

(** *** [query_ollama] *)

(** The loop [for attempt in range(retries)], with [todo] rounds left. *)
Fixpoint attempts (todo : nat) (attempt retries : Z) (rq : request)
  : io (option text) :=
  match todo with
  | O => ret None
  | S todo' =>
    o <- post rq ;;
    match o with
    | Answer payload => ret (Some (strip payload))
    | Raised e =>
      if (attempt =? retries - 1)%Z
      then ret (Some (py "[ERROR] " ++ e))
      else _ <- emit (Sleep 1) ;;
           attempts todo' (attempt + 1)%Z retries rq
    end
  end.

Definition query_ollama (prompt model : text) (max_tokens retries : Z)
  : io (option text) :=
  attempts (Z.to_nat retries) 0%Z retries (Request model prompt max_tokens).

(** *** [summarize_structured] *)

Definition json_prompt_template : text :=
  concat [
    py "You are a research assistant. From the following academic article, extract a structured summary covering these fields.\n";
    py "- doi: The DOI of the article, if listed.\n";
    py "- title: The title of the academic article.\n";
    py "- authors: The authors of the article.\n";
    py "- abstract: The article abstract, almost always the first paragraph of the paper.\n";
    py "- research_questions: What research questions are the authors addressing?\n";
    py "- hypotheses: What hypotheses do they formally propose?\n";
    py "- data: Describe the data used in the analysis (years, geography, unit of analysis, dataset size, sources).\n";
    py "- methods: Describe the statistical methods used and design decisions such as control variables.\n";
    py "- findings: What did the authors find? What resuslts do they discuss?\n\n";
    py "When writing each field, ensure:\n";
    py "- doi is the exact doi of the article.\n";
    py "- title is the exact title of the article.\n";
    py "- abstract is the exact abstract of the artice.\n";
    py "- authors include only names, concatenated into a single string.\n";
    py "- research_questions contains exact or paraphrased questions from the introduction or abstract.\n";
    py "- hypotheses only includes explicit predictions or testable claims declared as hypotheses to be tested. If none are stated, return an empty string.\n";
    py "- data lists year(s), platform, dataset size, unit of analysis, and source, if stated.\n";
    py "- methods describes actual models and metrics used (e.g., linear regression, GAMLSS, support vector machines, diffusion trees, structural virality, depth).\n";
    py "- findings are only drawn from the Results or Discussion. Do not invent findings.\n\n";
    py "Each field should be written as a detailed, multi-sentence paragraph (at least 3-4 sentences), using the exact terminology and evidence provided in the text.\n";
    py "If there are multiple hypotheses, create a nested entry for each.";
    py "Be specific and include details such as time ranges, sample sizes, platforms, modeling techniques, and units of analysis.\n";
    py "Use actual outcomes, patterns, or numerical/statistical results; mirror the exact language used in the article.\n";
    py "If the article includes more than one hypothesis, data source, method, result, finding, or question, include each as a separate clearly delimited sentence or clause, rather than combining them into one vague statement.\n\n";
    py "DO NOT infer or fabricate information — only include what the article states.\n";
    py "DO NOT include commentary, preambles, reasoning, or planning steps.\n";
    py "DO NOT return any text before or after the JSON. Return only the JSON.\n\n";
    py "As a checklist, ensure:\n";
    py "- Names entities are named explicitly (e.g., Facebook, not 'social media').\n";
    py "- The dataset size, time range, and source are included.\n";
    py "- The method includes named statistical metrics (e.g., linear regression, logistic regression, structural virality, depth).\n";
    py "- Each answer is comprehensive and uses MULTIPLE SENTENCES in its answer.\n";
    py "- No findings are invented — all numbers must come from the article and use its language. Do NOT use outside knowledge or general assumptions; only use what is specifically stated or measured in the article.\n\n";
    py "=== ARTICLE TO PROCESS ===\n{text}\n=== END ARTICLE ===\n\n";
    py "DO NOT include any content from the example below in your final answer. It is only provided to show formatting style.\n";
    py "Return ONLY a valid JSON object like the example below. Do NOT include any prose, commentary, or explanation before or after it.\n\n";
    py "=== Example (for structure only, not content!) ===\n\n";
    py "{\x22doi\x22: \x22...\x22,";
    py "  \x22title\x22: \x22...\x22,";
    py "  \x22authors\x22: \x22...\x22,";
    py "  \x22abstract\x22: \x22...\x22,";
    py "  \x22research_questions\x22: \x22...\x22,";
    py "  \x22hypotheses\x22: [\x22hypothesis 1\x22, \x22hypothesis 2\x22, \x22...\x22],";
    py "  \x22data\x22: \x22...\x22,";
    py "  \x22methods\x22: \x22...\x22,";
    py "  \x22findings\x22: \x22...\x22}\n\n";
    py "=== End of Example ===\n\n"
  ].

Definition build_prompt (t : text) : text :=
  str_replace json_prompt_template (py "{text}") t.

Definition summarize_structured (t model : text) (max_tokens : Z)
  : io (option text) :=
  let prompt := build_prompt t in
  query_ollama prompt model max_tokens 3.

(** *** [clean_json] *)

(** Steps 1 and 2: the reply without its reasoning blocks, and with
    every backslash followed by [n] turned into a line break. *)
Definition tidy_reply (raw_text : text) : text :=
  let raw_text1 := strip_thoughts raw_text in
  strip (str_replace raw_text1 (py "\\n") (py "\n")).

(** Step 3: from the first opening brace to the last closing brace. *)
Definition json_block (raw_text : text) : text :=
  let json_start := find 123 raw_text in
  let json_end := (rfind 125 raw_text + 1)%Z in
  slice raw_text json_start json_end.

(** Step 4, inside the [try]: any failure gives the empty mapping. *)
Definition clean_json (raw_text : text) : json :=
  let json_str := json_block (tidy_reply raw_text) in
  match json_loads json_str with
  | Some parsed => parsed
  | None => JObject []
  end.

(** The call as the program makes it: the value is [clean_json]'s, and a
    failure is reported on the way. *)
Definition clean_json_run (raw_text : text) : io json :=
  let json_str := json_block (tidy_reply raw_text) in
  match json_loads json_str with
  | Some parsed => ret parsed
  | None =>
    _ <- emit (Print (py "[ERROR] Failed to parse JSON: "
                      ++ decode_error json_str)) ;;
    ret (JObject [])
  end.

(** *** The batch *)

Definition extract_pdf_text_clean (pdf : text) : text + text :=
  match pdf_pages pdf with
  | inl e => inl e
  | inr pages =>
    inr (join_nl (map snd
           (filter (fun pg => negb (is_empty_text (fst pg))) pages)))
  end.

(** [os.path.splitext(p)[0]]: the path up to the last dot, when that dot
    lies in the last component after a character that is not a dot. *)
Definition splitext_root (p : text) : text :=
  let sep_index := rfind 47 p in
  let dot_index := rfind 46 p in
  if (sep_index <? dot_index)%Z
     && existsb (fun c => negb (cp_eqb c 46))
                (slice p (sep_index + 1) dot_index)
  then slice p 0 dot_index
  else p.

(** Does writing [cleaned] to [json_path] raise?  It does when the
    machine says so, and whenever the value cannot be encoded. *)
Definition write_failure (h : history) (json_path : text) (cleaned : json)
  : option text :=
  match write_error h json_path cleaned with
  | Some e => Some e
  | None => if encodable cleaned then None else Some (encode_error cleaned)
  end.

(** [open(json_path, "w", encoding="utf-8")] and [json.dump] with
    [ensure_ascii=False]; the result is the message of the exception, if
    one is raised. *)
Definition json_dump (json_path : text) (cleaned : json) : io (option text) :=
  fun h =>
    match write_failure h json_path cleaned with
    | Some e => (Some e, h ++ [DumpFailed json_path])
    | None => (None, h ++ [Dump json_path cleaned])
    end.

(** The body of the loop over the files.  An exception while reading the
    PDF or while writing the result file is reported and the loop goes
    on; the reply is appended to the results before the write. *)
Definition process_pdf (pdf : text) (results : list (option text))
  : io (list (option text)) :=
  match extract_pdf_text_clean pdf with
  | inl e =>
    _ <- emit (Print (py "Error processing " ++ pdf ++ py ": " ++ e)) ;;
    ret results
  | inr pdf_text =>
    let clean_text := strip_citations_and_references pdf_text in
    raw_responses <-
      summarize_structured (slice clean_text 0 30000) (py "qwen3:8b")
                           32768 ;;
    let results' := results ++ [raw_responses] in
    cleaned <- clean_json_run (str_of raw_responses) ;;
    let json_path := splitext_root pdf ++ py ".json" in
    failure <- json_dump json_path cleaned ;;
    match failure with
    | None => ret results'
    | Some e =>
      _ <- emit (Print (py "Error processing " ++ pdf ++ py ": " ++ e)) ;;
      ret results'
    end
  end.

Fixpoint run_batch (pdfs : list text) (results : list (option text))
  : io (list (option text)) :=
  match pdfs with
  | [] => ret results
  | pdf :: pdfs' =>
    results' <- process_pdf pdf results ;;
    run_batch pdfs' results'
  end.

End Pipeline.

(** ** Vocabulary of the properties *)

(** [p] occurs in [t] *)
Definition Occurs (p t : text) : Prop := exists a b, t = a ++ p ++ b.

(** A line with something to read on it. *)
Definition nonblank (l : text) : bool := existsb (fun c => negb (isspace c)) l.

(** Does every line hold a character that is not white space?  [seen] tells
    whether the line being read already does. *)
Fixpoint lines_ok (seen : bool) (t : text) : bool :=
  match t with
  | [] => seen
  | c :: t' =>
    if cp_eqb c nl then seen && lines_ok false t'
    else lines_ok (seen || negb (isspace c)) t'
  end.

(** The strings a pattern matches, assertions left aside.  A round of a
    repetition has to consume something, as in [rep]. *)
Inductive Matches : regex -> text -> Prop :=
| MEps : Matches Eps []
| MChr p c : p c = true -> Matches (Chr p) [c]
| MSeq r1 r2 a b : Matches r1 a -> Matches r2 b -> Matches (Seq r1 r2) (a ++ b)
| MAltL r1 r2 a : Matches r1 a -> Matches (Alt r1 r2) a
| MAltR r1 r2 a : Matches r2 a -> Matches (Alt r1 r2) a
| MRepStop g hi r : Matches (Rep g 0 hi r) []
| MRepMore g lo hi r a b :
    bound_open hi = true -> a <> [] -> Matches r a ->
    Matches (Rep g (pred lo) (bound_pred hi) r) b ->
    Matches (Rep g lo hi r) (a ++ b)
| MGrp n r a : Matches r a -> Matches (Grp n r) a
| MBol : Matches Bol []
| MEol : Matches Eol []
| MNotBehind p : Matches (NotBehind p) []
| MNotAhead p : Matches (NotAhead p) [].

(** A pattern without assertions. *)
Fixpoint plain (r : regex) : bool :=
  match r with
  | Eps | Chr _ => true
  | Seq r1 r2 | Alt r1 r2 => plain r1 && plain r2
  | Rep _ _ _ r1 | Grp _ r1 => plain r1
  | Bol | Eol | NotBehind _ | NotAhead _ => false
  end.

Section Vocabulary.
Context {U : Unicode}.

(** The key under which step 4 remembers a line. *)
Definition line_key (line : text) : text := str_lower (strip line).

(** Four decimal digits in a row somewhere in [x]. *)
Definition has_year (x : text) : Prop :=
  exists p d q, x = p ++ d ++ q /\ length d = 4 /\ forallb isdecimal d = true.

(** A parenthesised span, up to the first closing parenthesis, that holds
    four digits in a row. *)
Definition year_group_in (t : text) : Prop :=
  exists a x b, t = a ++ 40%N :: x ++ 41%N :: b /\ ~ In 41%N x /\ has_year x.

(** A word read without regard to case. *)
Definition reads_as (w m : text) : Prop := Forall2 (fun c x => ci_eq c x = true) w m.

(** A line break, white space, one of the three headings in any case,
    white space, a line break. *)
Definition heading_line (m : text) : Prop :=
  exists ws1 w ws2 h,
    m = nl :: ws1 ++ w ++ ws2 ++ [nl]
    /\ forallb isspace ws1 = true /\ forallb isspace ws2 = true
    /\ In h heading_words /\ reads_as h w.

(** Such a heading starts at index [i] of [t]. *)
Definition heading_at (t : text) (i : nat) : Prop :=
  exists m rest, skipn i t = m ++ rest /\ heading_line m.

(** A character that none of the patterns of steps 1 to 3 needs: not a
    line break, not a decimal digit, not a vertical bar, not a slash. *)
Definition plain_char (c : cp) : bool :=
  negb (cp_eqb c nl) && negb (isdecimal c) && negb (cp_eqb c 124)
  && negb (cp_eqb c 47).

(** The request the batch sends for the text read from one PDF. *)
Definition request_for (raw : text) : request :=
  Request (py "qwen3:8b")
          (build_prompt (slice (strip_citations_and_references raw) 0 30000))
          32768.
End Vocabulary.

(** No tab, and no blank next to another blank or tab. *)
Fixpoint single_spaced (t : text) : bool :=
  match t with
  | [] => true
  | c :: t' =>
    if hspace c
    then cp_eqb c space && negb (holds_opt hspace (hd_error t'))
         && single_spaced t'
    else single_spaced t'
  end.

(** ** Further vocabulary and the remaining helpers *)

(** The events of [k] failed tries, each followed by the pause before the
    next try. *)
Fixpoint failed_rounds (rq : request) (k : nat) : history :=
  match k with
  | O => []
  | S k' => Post rq :: Sleep 1 :: failed_rounds rq k'
  end.

(** [a] is [b] with some of its characters deleted. *)
Inductive Subseq : text -> text -> Prop :=
| SubNil : Subseq [] []
| SubKeep c a b : Subseq a b -> Subseq (c :: a) (c :: b)
| SubDrop c a b : Subseq a b -> Subseq a (c :: b).

(** [s.endswith(suffix)] *)
Definition ends_with (s suffix : text) : bool :=
  starts_with (rev suffix) (rev s).

(** [os.path.join(a, b)] on POSIX paths. *)
Definition path_join (a b : text) : text :=
  if starts_with [47%N] b then b
  else if is_empty_text a || ends_with a [47%N] then a ++ b
  else a ++ 47%N :: b.

(** What [os.listdir] does: the names in the directory, or the exception
    it raises. *)
Inductive listing :=
| Names (files : list text)
| NotFound
| OtherError (message : text).

Section Listing.
Context {U : Unicode} {M : Host}.
Variable listdir : text -> listing.
Variable isfile : text -> bool.

(** [list_files_in_directory]: only [FileNotFoundError] is caught; [inl]
    stands for any other exception, which reaches the caller. *)
Definition list_files_in_directory (directory_path extension : text)
  : text + list text :=
  match listdir directory_path with
  | Names files =>
    inr (map (fun f => directory_path ++ py "/" ++ f)
             (filter (fun f => isfile (path_join directory_path f)
                               && ends_with (str_lower f) extension)
                     files))
  | NotFound => inr []
  | OtherError e => inl e
  end.

Variable endpoint : history -> request -> outcome.
Variable pdf_pages : text -> text + list (text * text).

(** The module body: list the PDF files, then run the loop.  [None] is
    an exception of the listing that ends the program. *)
Definition run_program (directory_path : text) (h : history)
  : option (list (option text) * history) :=
  match list_files_in_directory directory_path (py ".pdf") with
  | inr pdfs => Some (run_batch endpoint pdf_pages pdfs [] h)
  | inl _ => None
  end.
End Listing.

(** What [clean_json] prints for a reply: nothing when the block can be
    decoded, and otherwise the message of the failure. *)
Definition parse_report {M : Host} (raw_text : text) : history :=
  let json_str := json_block (tidy_reply raw_text) in
  match json_loads json_str with
  | Some _ => []
  | None =>
    [Print (py "[ERROR] Failed to parse JSON: " ++ decode_error json_str)]
  end.

(** Can the text of this PDF be read? *)
Definition readable (pdf_pages : text -> text + list (text * text))
  (pdf : text) : bool :=
  match extract_pdf_text_clean pdf_pages pdf with
  | inr _ => true
  | inl _ => false
  end.

(** *** [safe_get] of the enrichment script

    [d.get(key)] gives [None] for a missing key; Python's [None] and the
    JSON [null] are the same value. *)
Fixpoint dict_get (k : text) (d : list (text * json)) : json :=
  match d with
  | [] => JNull
  | (k', v) :: d' => if text_eqb k' k then v else dict_get k d'
  end.

Fixpoint safe_get (d : json) (path : list text) : json :=
  match path with
  | [] => d
  | key :: path' =>
    match d with
    | JObject pairs => safe_get (dict_get key pairs) path'
    | _ => JNull
    end
  end.

(** No two neighbours in [t] make a pair that [bad] holds of. *)
Fixpoint no_pair (bad : cp -> cp -> bool) (t : text) : bool :=
  match t with
  | [] => true
  | c :: t' => negb (holds_opt (bad c) (hd_error t')) && no_pair bad t'
  end.

(** A line break followed by a blank or a tab; a blank or a tab followed
    by a line break. *)
Definition nl_then_blank (c d : cp) : bool := is_nl c && hspace d.
Definition blank_then_nl (c d : cp) : bool := hspace c && is_nl d.
Definition edge_blank (c d : cp) : bool :=
  nl_then_blank c d || blank_then_nl c d.

(** The replacement of steps 5b to 5d: one line break, or two. *)
Definition breaks (two : bool) : text := if two then [nl; nl] else [nl].

(** *** Replies with one field

    A text that can stand between the quotes of a JSON string as it is,
    and that holds no [<]: no control character, no quote, no
    backslash. *)
Definition json_plain (s : text) : bool :=
  forallb (fun c => negb (N.leb c 31) && negb (cp_eqb c 34)
                    && negb (cp_eqb c 92) && negb (cp_eqb c 60)) s.

(** The reply [{"k": "v"}], with [v] as it is written in the reply. *)
Definition one_field (k v : text) : text :=
  py "{\x22" ++ k ++ py "\x22: \x22" ++ v ++ py "\x22}".

(** * Properties *)

(** ** The model client *)

Section QueryOllama.
Context {U : Unicode}.
Variable endpoint : history -> request -> outcome.

Lemma attempts_failed (rq : request) (h : history) (e : text)
      (todo : nat) (attempt retries : Z) :
  endpoint h rq = Raised e ->
  attempts endpoint (S todo) attempt retries rq h =
  if (attempt =? retries - 1)%Z
  then (Some (py "[ERROR] " ++ e), h ++ [Post rq])
  else attempts endpoint todo (attempt + 1)%Z retries rq
                ((h ++ [Post rq]) ++ [Sleep 1]).
Proof.
  intros He. cbn [attempts]. unfold bind, post. rewrite He.
  destruct (attempt =? retries - 1)%Z; reflexivity.
Qed.

(** C6.  When every request to the server fails, [query_ollama] with the
    default of three tries posts the request three times, sleeps one
    second after the first and after the second failure, and returns the
    text [[ERROR] ] followed by the message of the last failure; the
    failures do not reach the caller. *)
Theorem query_ollama_all_attempts_fail
        (message : history -> request -> text)
        (prompt model : text) (max_tokens : Z) (h : history) :
  (forall h' rq', endpoint h' rq' = Raised (message h' rq')) ->
  let rq := Request model prompt max_tokens in
  query_ollama endpoint prompt model max_tokens 3 h =
  (Some (py "[ERROR] " ++ message (h ++ [Post rq; Sleep 1; Post rq; Sleep 1]) rq),
   h ++ [Post rq; Sleep 1; Post rq; Sleep 1; Post rq]).
Proof.
  intros Hfail rq. unfold query_ollama.
  change (Z.to_nat 3) with 3%nat. fold rq.
  rewrite (attempts_failed _ _ _ (Hfail h rq)).
  change (0 =? 3 - 1)%Z with false. cbv iota.
  rewrite (attempts_failed _ _ _ (Hfail _ rq)).
  change (0 + 1 =? 3 - 1)%Z with false. cbv iota.
  rewrite (attempts_failed _ _ _ (Hfail _ rq)).
  change (0 + 1 + 1 =? 3 - 1)%Z with true. cbv iota.
  repeat rewrite <- app_assoc. reflexivity.
Qed.
End QueryOllama.

Lemma query_ollama_all_attempts_fail_witness :
  query_ollama (fun _ _ => Raised (py "timed out")) (py "Summarize.")
               (py "qwen3:8b") 32768 3 [] =
  (Some (py "[ERROR] timed out"),
   let rq := Request (py "qwen3:8b") (py "Summarize.") 32768 in
   [Post rq; Sleep 1; Post rq; Sleep 1; Post rq]).
Proof.
  apply (query_ollama_all_attempts_fail
           (fun _ _ => Raised (py "timed out"))
           (fun _ _ => py "timed out")).
  intros; reflexivity.
Defined.

(** ** Strings *)

Lemma cp_eqb_eq (a b : cp) : cp_eqb a b = true <-> a = b.
Proof. apply N.eqb_eq. Qed.

Lemma text_eqb_eq (a b : text) : text_eqb a b = true <-> a = b.
Proof.
  revert b; induction a as [|x a IH]; intros [|y b]; simpl; split;
    try congruence; try reflexivity.
  - intros H. apply andb_true_iff in H as [Hx Hab].
    apply cp_eqb_eq in Hx. apply IH in Hab. congruence.
  - intros H. injection H as -> ->. apply andb_true_iff. split.
    + now apply cp_eqb_eq.
    + now apply IH.
Qed.

Lemma slice_from_start (t : text) (n : Z) :
  (0 <= n)%Z -> slice t 0 n = firstn (Z.to_nat n) t.
Proof.
  intros Hn. unfold slice, clip.
  destruct (0 <? 0)%Z eqn:E0; [discriminate|].
  destruct (n <? 0)%Z eqn:En; [apply Z.ltb_lt in En; lia|].
  replace (Z.min 0 (Z.of_nat (length t))) with 0%Z by lia.
  rewrite Z.sub_0_r. simpl skipn.
  destruct (Z.min_spec n (Z.of_nat (length t))) as [[Hlt ->]|[Hge ->]].
  - reflexivity.
  - rewrite Nat2Z.id. rewrite firstn_all.
    symmetry. apply firstn_all2. lia.
Qed.

(** ** The prompt builder *)

Section Prompt.
Context {U : Unicode}.

(** The template holds the placeholder once; building a prompt puts the
    text in its place. *)
Lemma build_prompt_shape :
  json_prompt_template =
    firstn 3016 json_prompt_template ++ py "{text}"
      ++ skipn 3022 json_prompt_template
  /\ forall x, build_prompt x =
       firstn 3016 json_prompt_template ++ x
         ++ skipn 3022 json_prompt_template.
Proof.
  split.
  - vm_compute. reflexivity.
  - intros x. vm_compute. reflexivity.
Qed.

End Prompt.

(** ** The response recoverer *)

Lemma occurs_cons (p0 : cp) (p : text) (c : cp) (r : text) :
  Occurs (p0 :: p) (c :: r) ->
  (c = p0 /\ exists b, r = p ++ b) \/ Occurs (p0 :: p) r.
Proof.
  intros (a & b & H). destruct a as [|x a]; simpl in H.
  - injection H as -> ->. left. split; [reflexivity|]. now exists b.
  - injection H as -> ->. right. now exists a, b.
Qed.

Lemma occurs_nil (p0 : cp) (p : text) : ~ Occurs (p0 :: p) [].
Proof. intros (a & b & H). destruct a; discriminate. Qed.

Lemma lstrip_suffix (t : text) : exists a, t = a ++ lstrip t.
Proof.
  induction t as [|c t [a IH]]; simpl.
  - now exists [].
  - destruct (isspace c).
    + exists (c :: a). simpl. now f_equal.
    + now exists [].
Qed.

Lemma rstrip_prefix (t : text) : exists b, t = rstrip t ++ b.
Proof.
  induction t as [|c t [b IH]]; simpl.
  - now exists [].
  - destruct (rstrip t) as [|x r] eqn:E.
    + destruct (isspace c).
      * now exists (c :: t).
      * exists b. simpl. f_equal. exact IH.
    + exists b. simpl. f_equal. exact IH.
Qed.

Lemma occurs_strip (p t : text) : Occurs p (strip t) -> Occurs p t.
Proof.
  intros (a & b & H). unfold strip in H.
  destruct (lstrip_suffix t) as [a0 Ha].
  destruct (rstrip_prefix (lstrip t)) as [b0 Hb].
  exists (a0 ++ a), (b ++ b0).
  rewrite Ha at 1. rewrite Hb at 1. rewrite H.
  repeat rewrite <- app_assoc. reflexivity.
Qed.

(** Replacing backslash-n by a line break copies a leading [n] only from
    the input. *)
Lemma replace_escape_head (t : text) :
  hd_error (replace_from (py "\\n") (py "\n") 0 t) = Some 110%N ->
  hd_error t = Some 110%N.
Proof.
  destruct t as [|c t]; [discriminate|].
  cbn [replace_from].
  destruct (starts_with (py "\\n") (c :: t)); simpl; [discriminate|].
  intros H; exact H.
Qed.

Lemma replace_escape_clean (t : text) (skip : nat) :
  ~ Occurs (py "\\n") (replace_from (py "\\n") (py "\n") skip t).
Proof.
  revert skip. induction t as [|c t IH]; intros skip.
  - simpl. apply occurs_nil.
  - cbn [replace_from]. destruct skip as [|n]; [|apply IH].
    destruct (starts_with (py "\\n") (c :: t)) eqn:E.
    + change (py "\n" ++ replace_from (py "\\n") (py "\n")
                 (pred (length (py "\\n"))) t)
        with (10%N :: replace_from (py "\\n") (py "\n") 1 t).
      intros H. apply occurs_cons in H as [[H _]|H]; [discriminate|].
      exact (IH _ H).
    + intros H. apply occurs_cons in H as [[-> [b Hb]]|H]; [|exact (IH _ H)].
      assert (Hh : hd_error t = Some 110%N).
      { apply replace_escape_head. rewrite Hb. reflexivity. }
      destruct t as [|x t]; [discriminate|]. injection Hh as ->.
      discriminate E.
Qed.

Lemma find_spec (c : cp) (t : text) :
  (find c t = (-1)%Z /\ ~ In c t)
  \/ exists a b, t = a ++ c :: b /\ find c t = Z.of_nat (length a).
Proof.
  induction t as [|x t IH]; simpl.
  - left. split; [reflexivity|tauto].
  - destruct (cp_eqb x c) eqn:E.
    + apply cp_eqb_eq in E as ->. right. now exists [], t.
    + assert (x <> c) by (intros ->; unfold cp_eqb in E;
                          rewrite N.eqb_refl in E; discriminate).
      destruct IH as [[-> Hn]|(a & b & -> & ->)].
      * left. split; [reflexivity|]. intros [?|?]; tauto.
      * right. exists (x :: a), b. split; [reflexivity|].
        destruct (Z.of_nat (length a) <? 0)%Z eqn:L.
        -- apply Z.ltb_lt in L. lia.
        -- simpl length. lia.
Qed.

Lemma rfind_spec (c : cp) (t : text) :
  (rfind c t = (-1)%Z /\ ~ In c t)
  \/ exists a b, t = a ++ c :: b /\ rfind c t = Z.of_nat (length a).
Proof.
  induction t as [|x t IH]; simpl.
  - left. split; [reflexivity|tauto].
  - destruct IH as [[-> Hn]|(a & b & -> & ->)].
    + simpl. destruct (cp_eqb x c) eqn:E.
      * apply cp_eqb_eq in E as ->. right. now exists [], t.
      * left. split; [reflexivity|]. intros [->|?]; [|tauto].
        unfold cp_eqb in E. rewrite N.eqb_refl in E. discriminate.
    + right. exists (x :: a), b. split; [reflexivity|].
      destruct (0 <=? Z.of_nat (length a))%Z eqn:L.
      * simpl length. lia.
      * apply Z.leb_gt in L. lia.
Qed.

Lemma skipn_app_exact (a b : text) : skipn (length a) (a ++ b) = b.
Proof. induction a; simpl; auto. Qed.

(** The block handed to the decoder is empty, a lone closing brace, or
    starts with an opening brace. *)
Lemma json_block_shape (t : text) :
  json_block t = [] \/ json_block t = [125%N]
  \/ exists s, json_block t = 123%N :: s.
Proof.
  unfold json_block, slice, clip.
  destruct (find_spec 123 t) as [[-> _]|(a & b & Ht & ->)].
  - change (-1 <? 0)%Z with true. cbv iota.
    destruct (rfind_spec 125 t) as [[-> _]|(a & b & Ht & ->)].
    + left. change (-1 + 1)%Z with 0%Z. change (0 <? 0)%Z with false.
      cbv iota.
      replace (Z.to_nat (Z.min 0 (Z.of_nat (length t))
                         - Z.max 0 (-1 + Z.of_nat (length t)))) with 0%nat
        by lia.
      reflexivity.
    + destruct (Z.of_nat (length a) + 1 <? 0)%Z eqn:L;
        [apply Z.ltb_lt in L; lia|].
      subst t. rewrite length_app. simpl length.
      destruct b as [|y b].
      * right; left. simpl length.
        replace (Z.to_nat (Z.max 0 (-1 + Z.of_nat (length a + 1))))
          with (length a) by lia.
        replace (Z.to_nat (Z.min (Z.of_nat (length a) + 1)
                                 (Z.of_nat (length a + 1))
                           - Z.max 0 (-1 + Z.of_nat (length a + 1))))
          with 1%nat by lia.
        rewrite skipn_app_exact. reflexivity.
      * left. simpl length.
        replace (Z.to_nat (Z.min (Z.of_nat (length a) + 1)
                                 (Z.of_nat (length a + S (S (length b))))
                           - Z.max 0 (-1 + Z.of_nat (length a + S (S (length b))))))
          with 0%nat by lia.
        reflexivity.
  - destruct (Z.of_nat (length a) <? 0)%Z eqn:L;
      [apply Z.ltb_lt in L; lia|].
    subst t. rewrite length_app. simpl length.
    replace (Z.to_nat (Z.min (Z.of_nat (length a))
                             (Z.of_nat (length a + S (length b)))))
      with (length a) by lia.
    rewrite skipn_app_exact.
    match goal with |- context [firstn ?n _] => destruct n end.
    + left. reflexivity.
    + right; right. simpl. eauto.
Qed.

(** A text that starts with an opening brace decodes to a mapping or not
    at all. *)
Lemma json_loads_brace {M : Host} (s : text) (v : json) :
  json_loads (123%N :: s) = Some v -> exists d, v = JObject d.
Proof.
  unfold json_loads.
  change (starts_with [65279%N] (123%N :: s)) with false. cbv iota.
  change (skip_ws (123%N :: s)) with (123%N :: s).
  cbn [scan_once].
  change (cp_eqb 123 34) with false. change (cp_eqb 123 123) with true.
  cbv iota. simpl negb.
  destruct max_nesting as [|inner]; [discriminate|].
  destruct (skip_ws s) as [|c1 s2]; [discriminate|].
  destruct (cp_eqb c1 125).
  - destruct (is_empty_text (skip_ws s2)); [|discriminate].
    intros H; injection H as <-. eauto.
  - destruct (object_items _ _ _) as [[d r]|]; [|discriminate].
    destruct (is_empty_text (skip_ws r)); [|discriminate].
    intros H; injection H as <-. eauto.
Qed.

Section Recover.
Context {U : Unicode} {M : Host}.

(** C7.  [clean_json] returns a mapping for every reply, the parse errors
    being caught; when the block between the braces of the tidied reply
    does not parse, the mapping is empty; and a reply without any JSON
    gives the empty mapping. *)
Theorem clean_json_total (reply : text) :
  (exists d, clean_json reply = JObject d)
  /\ (json_loads (json_block (tidy_reply reply)) = None ->
      clean_json reply = JObject [])
  /\ clean_json (py "no json here") = JObject [].
Proof.
  split; [|split].
  - unfold clean_json.
    destruct (json_loads (json_block (tidy_reply reply))) as [v|] eqn:E;
      [|eauto].
    destruct (json_block_shape (tidy_reply reply)) as [H|[H|[s H]]];
      rewrite H in E.
    + discriminate E.
    + discriminate E.
    + exact (json_loads_brace _ E).
  - unfold clean_json. intros ->. reflexivity.
  - vm_compute. reflexivity.
Qed.

End Recover.

Lemma clean_json_total_witness :
  json_loads (json_block (tidy_reply (py "{oops}"))) = None
  /\ clean_json (py "{oops}") = JObject [].
Proof.
  split; [vm_compute; reflexivity|].
  destruct (clean_json_total (py "{oops}")) as (_ & Hfail & _).
  apply Hfail. vm_compute. reflexivity.
Defined.

(** ** The batch *)

Section Batch.
Context {U : Unicode} {M : Host}.
Variable endpoint : history -> request -> outcome.
Variable pdf_pages : text -> text + list (text * text).

(** What the loop body does once the reply is there: nothing is sent any
    more. *)
Lemma clean_json_run_grows (raw_text : text) (h : history) :
  exists h', snd (clean_json_run raw_text h) = h ++ h'
             /\ forall rq, ~ In (Post rq) h'.
Proof.
  unfold clean_json_run.
  destruct (json_loads (json_block (tidy_reply raw_text))).
  - exists []. cbn. rewrite app_nil_r. split; [reflexivity|]. intros rq [].
  - eexists. unfold bind, emit, ret. cbn [snd]. split; [reflexivity|].
    intros rq [H|[]]. discriminate H.
Qed.

Lemma json_dump_grows (json_path : text) (cleaned : json) (h : history) :
  exists h', snd (json_dump json_path cleaned h) = h ++ h'
             /\ forall rq, ~ In (Post rq) h'.
Proof.
  unfold json_dump.
  destruct (write_failure h json_path cleaned);
    eexists; cbn [snd]; (split; [reflexivity|]);
    intros rq [H|[]]; discriminate H.
Qed.

Lemma after_reply_grows (pdf : text) (results : list (option text))
      (reply : option text) (h : history) :
  exists h',
    snd ((cleaned <- clean_json_run (str_of reply) ;;
          failure <- json_dump (splitext_root pdf ++ py ".json") cleaned ;;
          match failure with
          | None => ret (results ++ [reply])
          | Some e =>
            _ <- emit (Print (py "Error processing " ++ pdf ++ py ": " ++ e)) ;;
            ret (results ++ [reply])
          end) h) = h ++ h'
    /\ forall rq, ~ In (Post rq) h'.
Proof.
  unfold bind.
  destruct (clean_json_run_grows (str_of reply) h) as (h1 & H1 & N1).
  destruct (clean_json_run (str_of reply) h) as [cleaned hc].
  cbn [snd] in H1. subst hc.
  destruct (json_dump_grows (splitext_root pdf ++ py ".json") cleaned (h ++ h1))
    as (h2 & H2 & N2).
  destruct (json_dump (splitext_root pdf ++ py ".json") cleaned (h ++ h1))
    as [failure hd].
  cbn [snd] in H2. subst hd.
  destruct failure as [e|].
  - exists (h1 ++ h2 ++ [Print (py "Error processing " ++ pdf ++ py ": " ++ e)]).
    unfold emit, ret. cbn [snd]. split.
    + now repeat rewrite <- app_assoc.
    + intros rq H. apply in_app_or in H as [H|H]; [exact (N1 rq H)|].
      apply in_app_or in H as [H|[H|[]]]; [exact (N2 rq H)|discriminate H].
  - exists (h1 ++ h2). unfold ret. cbn [snd]. split.
    + now rewrite <- app_assoc.
    + intros rq H. apply in_app_or in H as [H|H];
        [exact (N1 rq H)|exact (N2 rq H)].
Qed.

Lemma attempts_posts (todo : nat) (attempt retries : Z) (rq : request)
      (h : history) (e : event) :
  In e (snd (attempts endpoint todo attempt retries rq h)) ->
  In e h \/ e = Post rq \/ e = Sleep 1.
Proof.
  revert attempt h. induction todo as [|todo IH]; intros attempt h.
  - simpl. auto.
  - cbn [attempts]. unfold bind, post.
    destruct (endpoint h rq) as [payload|msg].
    + simpl. rewrite in_app_iff. simpl. intuition auto.
    + destruct (attempt =? retries - 1)%Z.
      * simpl. rewrite in_app_iff. simpl. intuition auto.
      * unfold emit. intros H. apply IH in H.
        repeat (rewrite in_app_iff in H; simpl in H). intuition auto.
Qed.

Lemma attempts_grows (todo : nat) (attempt retries : Z) (rq : request)
      (h : history) :
  exists h', snd (attempts endpoint todo attempt retries rq h) = h ++ h'.
Proof.
  revert attempt h. induction todo as [|todo IH]; intros attempt h.
  - exists []. simpl. now rewrite app_nil_r.
  - cbn [attempts]. unfold bind, post.
    destruct (endpoint h rq) as [payload|msg].
    + now exists [Post rq].
    + destruct (attempt =? retries - 1)%Z.
      * now exists [Post rq].
      * unfold emit.
        destruct (IH (attempt + 1)%Z ((h ++ [Post rq]) ++ [Sleep 1]))
          as [h' ->].
        exists ([Post rq] ++ [Sleep 1] ++ h').
        now repeat rewrite <- app_assoc.
Qed.

Lemma attempts_posts_once (todo : nat) (attempt retries : Z) (rq : request)
      (h : history) :
  In (Post rq) (snd (attempts endpoint (S todo) attempt retries rq h)).
Proof.
  cbn [attempts]. unfold bind, post.
  destruct (endpoint h rq) as [payload|msg].
  - simpl. apply in_or_app. right. now left.
  - destruct (attempt =? retries - 1)%Z.
    + simpl. apply in_or_app. right. now left.
    + unfold emit.
      destruct (attempts_grows todo (attempt + 1)%Z retries rq
                               ((h ++ [Post rq]) ++ [Sleep 1])) as [h' ->].
      repeat rewrite in_app_iff. left; left; right. now left.
Qed.

Lemma process_pdf_posts (pdf : text) (results : list (option text))
      (h : history) (rq : request) :
  In (Post rq) (snd (process_pdf endpoint pdf_pages pdf results h)) ->
  In (Post rq) h
  \/ exists raw, extract_pdf_text_clean pdf_pages pdf = inr raw
                 /\ rq = request_for raw.
Proof.
  unfold process_pdf.
  destruct (extract_pdf_text_clean pdf_pages pdf) as [e|raw].
  - unfold bind, emit, ret. simpl. rewrite in_app_iff. simpl.
    intros [H|[H|[]]]; [now left|discriminate].
  - unfold bind at 1. unfold summarize_structured, query_ollama.
    destruct (attempts _ _ _ _ _ h) as [reply h1] eqn:E.
    destruct (after_reply_grows pdf results reply h1) as (h2 & -> & N2).
    rewrite in_app_iff.
    intros [H|H]; [|destruct (N2 rq H)].
    assert (H1 : In (Post rq) (snd (attempts endpoint (Z.to_nat 3) 0 3
       (Request (py "qwen3:8b")
          (build_prompt (slice (strip_citations_and_references raw) 0 30000))
          32768) h))) by (rewrite E; exact H).
    apply attempts_posts in H1 as [H1|[H1|H1]].
    + now left.
    + right. exists raw. split; [reflexivity|]. now injection H1.
    + discriminate.
Qed.

Lemma process_pdf_grows (pdf : text) (results : list (option text))
      (h : history) :
  exists h', snd (process_pdf endpoint pdf_pages pdf results h) = h ++ h'.
Proof.
  unfold process_pdf.
  destruct (extract_pdf_text_clean pdf_pages pdf) as [e|raw].
  - unfold bind, emit, ret. simpl. eauto.
  - unfold bind at 1. unfold summarize_structured, query_ollama.
    match goal with |- context [attempts ?e ?n ?a ?r ?q h] =>
      destruct (attempts_grows n a r q h) as [h1 Hh];
      destruct (attempts e n a r q h) as [reply h2] end.
    simpl in Hh. subst h2.
    destruct (after_reply_grows pdf results reply (h ++ h1)) as (h2 & -> & _).
    rewrite <- app_assoc. eauto.
Qed.

Lemma process_pdf_sends (pdf raw : text) (results : list (option text))
      (h : history) :
  extract_pdf_text_clean pdf_pages pdf = inr raw ->
  In (Post (request_for raw))
     (snd (process_pdf endpoint pdf_pages pdf results h)).
Proof.
  intros Hraw. unfold process_pdf. rewrite Hraw.
  unfold bind at 1. unfold summarize_structured, query_ollama.
  match goal with |- context [attempts ?e ?n ?a ?r ?q h] =>
    pose proof (attempts_posts_once 2 a r q h) as Hp;
    change (S 2) with n in Hp;
    destruct (attempts e n a r q h) as [reply h2] end.
  cbn [snd] in Hp.
  destruct (after_reply_grows pdf results reply h2) as (h3 & -> & _).
  apply in_or_app. left. exact Hp.
Qed.

Lemma run_batch_grows (pdfs : list text) (results : list (option text))
      (h : history) :
  exists h', snd (run_batch endpoint pdf_pages pdfs results h) = h ++ h'.
Proof.
  revert results h. induction pdfs as [|pdf pdfs IH]; intros results h.
  - exists []. simpl. now rewrite app_nil_r.
  - cbn [run_batch]. unfold bind.
    destruct (process_pdf_grows pdf results h) as [h1 H1].
    destruct (process_pdf endpoint pdf_pages pdf results h) as [res h2].
    simpl in H1. subst h2.
    destruct (IH res (h ++ h1)) as [h2 ->].
    exists (h1 ++ h2). now rewrite app_assoc.
Qed.

(** The requests of a batch run. *)
Lemma run_batch_requests
      (pdfs : list text) (results : list (option text)) (h : history) :
  let h' := snd (run_batch endpoint pdf_pages pdfs results h) in
  (forall rq, In (Post rq) h' ->
     In (Post rq) h
     \/ exists pdf raw, In pdf pdfs
          /\ extract_pdf_text_clean pdf_pages pdf = inr raw
          /\ rq = request_for raw)
  /\ (forall pdf raw, In pdf pdfs ->
        extract_pdf_text_clean pdf_pages pdf = inr raw ->
        In (Post (request_for raw)) h').
Proof.
  revert results h. induction pdfs as [|pdf pdfs IH]; intros results h.
  - simpl. split; [intros rq H; now left|intros pdf raw []].
  - cbn [run_batch]. unfold bind.
    pose proof (@process_pdf_posts pdf results h) as Hposts.
    pose proof (fun raw => @process_pdf_sends pdf raw results h) as Hsends.
    destruct (process_pdf endpoint pdf_pages pdf results h) as [res h1].
    simpl in Hposts, Hsends.
    destruct (IH res h1) as [IH1 IH2]. split.
    + intros rq H. apply IH1 in H as [H|(pdf' & raw & Hin & Hraw & ->)].
      * apply Hposts in H as [H|(raw & Hraw & ->)]; [now left|].
        right. exists pdf, raw. split; [now left|]. split; [exact Hraw|].
        reflexivity.
      * right. exists pdf', raw. split; [now right|]. now split.
    + intros pdf' raw [<-|Hin] Hraw.
      * destruct (run_batch_grows pdfs res h1) as [h2 ->].
        apply in_or_app. left. exact (Hsends raw Hraw).
      * exact (IH2 pdf' raw Hin Hraw).
Qed.

(** C1, amended.  Every request of a batch run carries the prompt built
    from the text as the PDF reader delivered it, cut by the citation
    stripper and truncated: the normalizer takes no part.  And every PDF
    that could be read gives rise to such a request. *)
Theorem batch_prompts_from_extracted_text
        (pdfs : list text) (results : list (option text)) (h : history) :
  let h' := snd (run_batch endpoint pdf_pages pdfs results h) in
  (forall rq, In (Post rq) h' ->
     In (Post rq) h
     \/ exists pdf raw, In pdf pdfs
          /\ extract_pdf_text_clean pdf_pages pdf = inr raw
          /\ rq = Request (py "qwen3:8b")
                    (build_prompt
                       (slice (strip_citations_and_references raw) 0 30000))
                    32768)
  /\ (forall pdf raw, In pdf pdfs ->
        extract_pdf_text_clean pdf_pages pdf = inr raw ->
        In (Post (Request (py "qwen3:8b")
                    (build_prompt
                       (slice (strip_citations_and_references raw) 0 30000))
                    32768)) h').
Proof. exact (run_batch_requests pdfs results h). Qed.
End Batch.

(** C1 as stated fails: for a PDF whose text is [A  b], with two blanks,
    the request carries the text with both blanks, not the normalized
    [A b]. *)
Lemma batch_skips_the_normalizer :
  let raw := py "A  b" in
  let h' := snd (run_batch (fun _ _ => Answer (py "{}"))
                           (fun _ => inr [(raw, raw)])
                           [py "/d/a.pdf"] [] []) in
  exists rq, In (Post rq) h'
    /\ rq_prompt rq <>
       build_prompt
         (slice (strip_citations_and_references (clean_pdf_text raw)) 0 30000).
Proof.
  exists (Request (py "qwen3:8b") (build_prompt (py "A  b")) 32768).
  split.
  - vm_compute. left. reflexivity.
  - intros H. apply text_eqb_eq in H. vm_compute in H. discriminate.
Qed.

Lemma batch_prompts_from_extracted_text_witness :
  let raw := py "A  b" in
  let pages := fun _ : text => inr [(raw, raw)] : text + list (text * text) in
  let rq := Request (py "qwen3:8b") (build_prompt raw) 32768 in
  let h' := snd (run_batch (fun _ _ => Answer (py "{}")) pages
                           [py "/d/a.pdf"] [] []) in
  In (Post rq) h'
  /\ (In (Post rq) []
      \/ exists pdf raw', In pdf [py "/d/a.pdf"]
           /\ extract_pdf_text_clean pages pdf = inr raw'
           /\ rq = Request (py "qwen3:8b")
                     (build_prompt
                        (slice (strip_citations_and_references raw') 0 30000))
                     32768).
Proof.
  intros raw pages rq h'.
  assert (Hin : In (Post rq) h') by (vm_compute; left; reflexivity).
  split; [exact Hin|].
  exact (proj1 (@batch_prompts_from_extracted_text latin1 quiet_host
                  (fun _ _ => Answer (py "{}")) pages [py "/d/a.pdf"] [] [])
               rq Hin).
Defined.

(** ** White space and lines *)

Lemma rstrip_nil_iff (t : text) : rstrip t = [] <-> forallb isspace t = true.
Proof.
  induction t as [|c t IH]; simpl; [tauto|].
  destruct (rstrip t) as [|x r].
  - destruct (isspace c); simpl.
    + split; intros _; [now apply IH|reflexivity].
    + split; discriminate.
  - split; [discriminate|]. intros H. apply andb_true_iff in H as [_ H].
    apply IH in H. discriminate.
Qed.

Lemma lstrip_head (t : text) :
  lstrip t = [] \/ exists c r, lstrip t = c :: r /\ isspace c = false.
Proof.
  induction t as [|c t IH]; simpl; [now left|].
  destruct (isspace c) eqn:E; [exact IH|]. right. eauto.
Qed.

Lemma lstrip_nil_iff (t : text) : lstrip t = [] <-> forallb isspace t = true.
Proof.
  induction t as [|c t IH]; simpl; [tauto|].
  destruct (isspace c); simpl; [exact IH|]. split; discriminate.
Qed.

Lemma strip_nil_iff (t : text) : strip t = [] <-> forallb isspace t = true.
Proof.
  unfold strip. rewrite <- lstrip_nil_iff. split.
  - intros H. apply rstrip_nil_iff in H.
    destruct (lstrip_head t) as [E|(c & r & E & Hc)]; [exact E|].
    rewrite E in H. simpl in H. rewrite Hc in H. discriminate.
  - intros ->. reflexivity.
Qed.

Lemma nonblank_forallb (l : text) : nonblank l = negb (forallb isspace l).
Proof.
  unfold nonblank. induction l as [|c l IH]; simpl; [reflexivity|].
  rewrite IH. destruct (isspace c); reflexivity.
Qed.

Lemma strip_nonblank (l : text) : negb (is_empty_text (strip l)) = nonblank l.
Proof.
  rewrite nonblank_forallb.
  destruct (forallb isspace l) eqn:E.
  - apply strip_nil_iff in E. rewrite E. reflexivity.
  - destruct (strip l) eqn:S; [|reflexivity].
    apply strip_nil_iff in S. congruence.
Qed.

Lemma nonblank_app (a b : text) : nonblank (a ++ b) = nonblank a || nonblank b.
Proof. unfold nonblank. apply existsb_app. Qed.

Lemma lines_ok_line (seen : bool) (l : text) :
  ~ In nl l -> lines_ok seen l = seen || nonblank l.
Proof.
  revert seen. induction l as [|c l IH]; intros seen Hn; simpl.
  - now rewrite orb_false_r.
  - destruct (cp_eqb c nl) eqn:E.
    + apply cp_eqb_eq in E. subst c. exfalso. apply Hn. now left.
    + rewrite IH by (intros H; apply Hn; now right).
      unfold nonblank. simpl. now rewrite orb_assoc.
Qed.

Lemma lines_ok_app_line (seen : bool) (l rest : text) :
  ~ In nl l ->
  lines_ok seen (l ++ nl :: rest) = (seen || nonblank l) && lines_ok false rest.
Proof.
  revert seen. induction l as [|c l IH]; intros seen Hn; simpl.
  - change (cp_eqb nl nl) with true. cbv iota. now rewrite orb_false_r.
  - destruct (cp_eqb c nl) eqn:E.
    + apply cp_eqb_eq in E. subst c. exfalso. apply Hn. now left.
    + rewrite IH by (intros H; apply Hn; now right).
      unfold nonblank. simpl. now rewrite orb_assoc.
Qed.

Lemma split_nl_nonempty (t : text) : split_nl t <> [].
Proof.
  destruct t as [|c t]; simpl; [discriminate|].
  destruct (cp_eqb c nl); [discriminate|].
  destruct (split_nl t); discriminate.
Qed.

Lemma lines_ok_split (seen : bool) (t : text) :
  lines_ok seen t =
  match split_nl t with
  | l :: ls => (seen || nonblank l) && forallb nonblank ls
  | [] => false
  end.
Proof.
  revert seen. induction t as [|c t IH]; intros seen; simpl.
  - now rewrite orb_false_r, andb_true_r.
  - destruct (cp_eqb c nl) eqn:E.
    + rewrite IH. simpl. rewrite orb_false_r.
      pose proof (split_nl_nonempty t) as Hne.
      destruct (split_nl t) as [|l ls]; [congruence|].
      simpl. reflexivity.
    + rewrite IH. pose proof (split_nl_nonempty t) as Hne.
      destruct (split_nl t) as [|l ls]; [congruence|].
      unfold nonblank. simpl. now rewrite orb_assoc.
Qed.

Lemma lines_ok_mono (t : text) : lines_ok false t = true -> lines_ok true t = true.
Proof.
  rewrite !lines_ok_split. destruct (split_nl t); [discriminate|].
  simpl. intros H. apply andb_true_iff in H as [_ H]. exact H.
Qed.

Lemma lines_ok_double_break (seen : bool) (a b : text) :
  lines_ok seen (a ++ nl :: nl :: b) = false.
Proof.
  revert seen. induction a as [|c a IH]; intros seen; simpl.
  - change (cp_eqb nl nl) with true. cbv iota. simpl.
    now rewrite andb_false_r.
  - destruct (cp_eqb c nl); [|apply IH]. rewrite IH. apply andb_false_r.
Qed.

Lemma split_nl_no_break (t l : text) : In l (split_nl t) -> ~ In nl l.
Proof.
  revert l. induction t as [|c t IH]; intros l; simpl.
  - intros [<-|[]]. tauto.
  - destruct (cp_eqb c nl) eqn:E.
    + intros [<-|H]; [tauto|now apply IH].
    + destruct (split_nl t) as [|l0 ls] eqn:S.
      * intros [<-|[]]. intros [H|[]]. subst c.
        unfold cp_eqb in E. rewrite N.eqb_refl in E. discriminate.
      * intros [<-|H].
        -- intros [H|H].
           ++ subst c. unfold cp_eqb in E. rewrite N.eqb_refl in E.
              discriminate.
           ++ exact (IH l0 (or_introl eq_refl) H).
        -- apply IH. now right.
Qed.

Lemma lines_ok_join (ls : list text) :
  ls <> [] ->
  Forall (fun l => nonblank l = true /\ ~ In nl l) ls ->
  lines_ok false (join_nl ls) = true.
Proof.
  induction ls as [|l ls IH]; [congruence|]. intros _ H.
  inversion H as [|? ? [Hb Hn] Hrest]; subst.
  destruct ls as [|l' ls].
  - simpl. rewrite lines_ok_line by exact Hn. exact Hb.
  - change (join_nl (l :: l' :: ls)) with (l ++ nl :: join_nl (l' :: ls)).
    rewrite lines_ok_app_line by exact Hn. rewrite Hb. simpl.
    apply IH; [discriminate|exact Hrest].
Qed.

Lemma lines_ok_lstrip (t : text) :
  lines_ok false t = true -> lines_ok false (lstrip t) = true.
Proof.
  induction t as [|c t IH]; [trivial|].
  cbn [lstrip]. destruct (isspace c) eqn:S.
  - cbn [lines_ok]. rewrite S.
    destruct (cp_eqb c nl); [discriminate|]. simpl. exact IH.
  - trivial.
Qed.

Lemma lines_ok_false_nonempty (t : text) :
  lines_ok false t = true -> rstrip t <> [].
Proof.
  intros H E. apply rstrip_nil_iff in E.
  rewrite lines_ok_split in H.
  destruct (split_nl t) as [|l ls] eqn:S; [discriminate|].
  simpl in H. apply andb_true_iff in H as [H _].
  rewrite nonblank_forallb in H.
  assert (Hl : forallb isspace l = true).
  { clear H. revert l ls S. induction t as [|c t IH]; intros l ls; simpl.
    - intros S; injection S as <- <-. reflexivity.
    - simpl in E. apply andb_true_iff in E as [Ec Et].
      destruct (cp_eqb c nl).
      + intros S; injection S as <- <-. reflexivity.
      + destruct (split_nl t) as [|l0 ls0].
        * intros S; injection S as <- <-. simpl. now rewrite Ec.
        * intros S; injection S as <- <-. simpl. rewrite Ec.
          exact (IH Et l0 ls0 eq_refl). }
  rewrite Hl in H. discriminate.
Qed.

Lemma lines_ok_all_space (seen : bool) (t : text) :
  forallb isspace t = true -> lines_ok seen t = true -> seen = true.
Proof.
  revert seen. induction t as [|c t IH]; intros seen; simpl; [trivial|].
  intros H. apply andb_true_iff in H as [Hc Ht].
  destruct (cp_eqb c nl).
  - intros H. apply andb_true_iff in H as [H _]. exact H.
  - rewrite Hc. simpl. rewrite orb_false_r. now apply IH.
Qed.

Lemma lines_ok_rstrip (seen : bool) (t : text) :
  lines_ok seen t = true -> lines_ok seen (rstrip t) = true.
Proof.
  revert seen. induction t as [|c t IH]; intros seen; simpl; [trivial|].
  destruct (cp_eqb c nl) eqn:E.
  - intros H. apply andb_true_iff in H as [Hs Ht].
    pose proof (lines_ok_false_nonempty _ Ht) as Hne.
    specialize (IH false Ht).
    destruct (rstrip t) as [|x r]; [congruence|].
    cbn [lines_ok]. rewrite E, Hs. exact IH.
  - intros H. specialize (IH _ H).
    destruct (rstrip t) as [|x r] eqn:R.
    + apply rstrip_nil_iff in R.
      pose proof (lines_ok_all_space _ _ R H) as Hs.
      destruct (isspace c) eqn:S.
      * simpl in Hs. rewrite orb_false_r in Hs. simpl. exact Hs.
      * simpl. rewrite E, S. simpl. apply orb_true_r.
    + cbn [lines_ok]. rewrite E. exact IH.
Qed.

Lemma lines_ok_strip (t : text) :
  lines_ok false t = true -> lines_ok false (strip t) = true.
Proof.
  intros H. unfold strip. apply lines_ok_rstrip, lines_ok_lstrip, H.
Qed.

(** ** Deduplication *)

Section Dedup.
Context {U : Unicode}.

Lemma mem_iff (k : text) (seen : list text) : mem k seen = true <-> In k seen.
Proof.
  unfold mem. rewrite existsb_exists. split.
  - intros (x & Hin & Hx). apply text_eqb_eq in Hx. now subst.
  - intros H. exists k. split; [exact H|]. now apply text_eqb_eq.
Qed.

Lemma dedup_from_spec (lines : list text) (seen : list text) :
  NoDup (map line_key (dedup_from seen lines))
  /\ (forall l, In l (dedup_from seen lines) ->
        ~ In (line_key l) seen /\ nonblank l = true /\ In l lines)
  /\ (forall l, In l lines -> nonblank l = true ->
        In (line_key l) seen
        \/ In (line_key l) (map line_key (dedup_from seen lines))).
Proof.
  revert seen. induction lines as [|line lines IH]; intros seen.
  - simpl. split; [constructor|]. split; [intros l []|intros l []].
  - cbn [dedup_from]. rewrite strip_nonblank.
    fold (line_key line).
    destruct (nonblank line) eqn:Hb; simpl andb.
    + destruct (mem (line_key line) seen) eqn:Hm; simpl negb; cbv iota.
      * apply mem_iff in Hm.
        destruct (IH seen) as (Hnd & Hin & Hcov).
        split; [exact Hnd|]. split.
        -- intros l Hl. destruct (Hin l Hl) as (Ha & Hn & Hc).
           split; [exact Ha|]. split; [exact Hn|now right].
        -- intros l [<-|Hl] Hn; [now left|now apply Hcov].
      * assert (Hnot : ~ In (line_key line) seen).
        { intros H. apply mem_iff in H. congruence. }
        destruct (IH (line_key line :: seen)) as (Hnd & Hin & Hcov).
        split; [|split].
        -- simpl. constructor; [|exact Hnd].
           intros H. apply in_map_iff in H as (l & Hk & Hl).
           destruct (Hin l Hl) as (Hns & _). apply Hns. left. now symmetry.
        -- intros l [<-|Hl].
           ++ split; [exact Hnot|]. split; [exact Hb|now left].
           ++ destruct (Hin l Hl) as (Hns & Hn & Hc).
              split; [intros H; apply Hns; now right|].
              split; [exact Hn|now right].
        -- intros l [<-|Hl] Hn.
           ++ right. now left.
           ++ destruct (Hcov l Hl Hn) as [[H|H]|H].
              ** right. left. exact H.
              ** now left.
              ** right. now right.
    + destruct (IH seen) as (Hnd & Hin & Hcov).
      split; [exact Hnd|]. split.
      * intros l Hl. destruct (Hin l Hl) as (Ha & Hn & Hc).
        split; [exact Ha|]. split; [exact Hn|now right].
      * intros l [<-|Hl] Hn; [congruence|now apply Hcov].
Qed.

End Dedup.


(** ** The matcher *)

(** What the matcher reports is a match: the text consumed up to an outcome
    is a string of the pattern. *)
Lemma rep_sound (step : mstate -> list mstate) (r : regex) :
  (forall st st', In st' (step st) ->
     exists m, m_rest st = m ++ m_rest st' /\ Matches r m) ->
  forall g fuel lo hi st st',
    In st' (rep step g fuel lo hi st) ->
    exists m, m_rest st = m ++ m_rest st' /\ Matches (Rep g lo hi r) m.
Proof.
  intros Hstep g fuel.
  assert (Hstop : forall lo hi st st',
             In st' (if Nat.eqb lo 0 then [st] else []) ->
             exists m, m_rest st = m ++ m_rest st'
                       /\ Matches (Rep g lo hi r) m).
  { intros lo hi st st' H. destruct lo; simpl in H; [|contradiction].
    destruct H as [<-|[]]. exists []. split; [reflexivity|constructor]. }
  induction fuel as [|f IH]; intros lo hi st st' H.
  - simpl in H. now apply Hstop.
  - cbn [rep] in H.
    assert (Hcases :
      In st' (if Nat.eqb lo 0 then [st] else [])
      \/ (bound_open hi = true
          /\ exists st1, In st1 (step st)
               /\ length (m_rest st1) < length (m_rest st)
               /\ In st' (rep step g f (pred lo) (bound_pred hi) st1))).
    { assert (Hmore : forall l,
        In st' (if bound_open hi then
                  flat_map (fun st1 =>
                     if Nat.ltb (length (m_rest st1)) (length (m_rest st))
                     then rep step g f (pred lo) (bound_pred hi) st1
                     else []) l
                else []) ->
        bound_open hi = true
        /\ exists st1, In st1 l
             /\ length (m_rest st1) < length (m_rest st)
             /\ In st' (rep step g f (pred lo) (bound_pred hi) st1)).
      { intros l Hl. destruct (bound_open hi); [|contradiction].
        split; [reflexivity|].
        apply in_flat_map in Hl as (st1 & Hin & Hl).
        destruct (Nat.ltb _ _) eqn:L; [|contradiction].
        apply Nat.ltb_lt in L. eauto. }
      destruct g; apply in_app_or in H as [H|H]; auto. }
    destruct Hcases as [H0|(Hopen & st1 & Hin & Hlt & Hrest)].
    + now apply Hstop.
    + destruct (Hstep _ _ Hin) as (m1 & E1 & M1).
      destruct (IH _ _ _ _ Hrest) as (m2 & E2 & M2).
      exists (m1 ++ m2). split.
      * rewrite E1, E2. now rewrite app_assoc.
      * constructor; auto. intros ->. simpl in E1. rewrite E1 in Hlt. lia.
Qed.

Lemma run_sound (r : regex) (st st' : mstate) :
  In st' (run r st) ->
  exists m, m_rest st = m ++ m_rest st' /\ Matches r m.
Proof.
  revert st st'. induction r as [|p|r1 IH1 r2 IH2|r1 IH1 r2 IH2|g lo hi r IH
                                 |n r IH| | |p|p]; intros st st'; cbn [run].
  - intros [<-|[]]. exists []. split; [reflexivity|constructor].
  - destruct (m_rest st) as [|c s] eqn:E; [intros []|].
    destruct (p c) eqn:P; [|intros []]. intros [<-|[]].
    exists [c]. split; [reflexivity|now constructor].
  - intros H. apply in_flat_map in H as (st1 & H1 & H2).
    destruct (IH1 _ _ H1) as (m1 & E1 & M1).
    destruct (IH2 _ _ H2) as (m2 & E2 & M2).
    exists (m1 ++ m2). split; [|now constructor].
    rewrite E1, E2. now rewrite app_assoc.
  - intros H. apply in_app_or in H as [H|H].
    + destruct (IH1 _ _ H) as (m & E & M). exists m. split; [exact E|].
      now apply MAltL.
    + destruct (IH2 _ _ H) as (m & E & M). exists m. split; [exact E|].
      now apply MAltR.
  - apply rep_sound. exact IH.
  - intros H. apply in_map_iff in H as (st1 & <- & H).
    destruct (IH _ _ H) as (m & E & M). exists m. split; [exact E|].
    now constructor.
  - destruct (at_bol st); [|intros []]. intros [<-|[]].
    exists []. split; [reflexivity|constructor].
  - destruct (at_eol st); [|intros []]. intros [<-|[]].
    exists []. split; [reflexivity|constructor].
  - destruct (holds_opt p (m_prev st)); [intros []|]. intros [<-|[]].
    exists []. split; [reflexivity|constructor].
  - destruct (holds_opt p (hd_error (m_rest st))); [intros []|].
    intros [<-|[]]. exists []. split; [reflexivity|constructor].
Qed.

Lemma match_here_sound (r : regex) (prev : option cp) (t : text)
      (st' : mstate) :
  match_here r prev t = Some st' ->
  exists m, t = m ++ m_rest st' /\ Matches r m /\ m <> []
            /\ length t - length (m_rest st') = length m.
Proof.
  unfold match_here.
  destruct (run r (MState prev t [])) as [|st1 l] eqn:E; [discriminate|].
  destruct (Nat.ltb _ _) eqn:L; [|discriminate]. intros H; injection H as <-.
  apply Nat.ltb_lt in L.
  destruct (@run_sound r (MState prev t []) st1) as (m & Em & M).
  { rewrite E. now left. }
  simpl in Em. exists m. split; [exact Em|]. split; [exact M|]. split.
  - intros ->. simpl in Em. rewrite Em in L. lia.
  - rewrite Em at 1. rewrite length_app. lia.
Qed.

(** A test on characters that every match and its replacement pass alike
    sees the same characters before and after the substitution. *)
Lemma sub_from_filter (f : cp -> bool) (r : regex) (repl : list repl_item) :
  (forall m caps, Matches r m -> filter f (expand repl caps) = filter f m) ->
  forall t prev skip,
    filter f (sub_from r repl prev skip t) = filter f (skipn skip t).
Proof.
  intros Hm. induction t as [|c t IH]; intros prev skip.
  - destruct skip; reflexivity.
  - cbn [sub_from]. destruct skip as [|n]; [|apply IH].
    destruct (match_here r prev (c :: t)) as [st'|] eqn:E.
    + apply match_here_sound in E as (m & Et & M & Hne & Hlen).
      rewrite Hlen. rewrite filter_app, IH, (Hm m _ M).
      destruct m as [|x m]; [congruence|].
      simpl in Et. injection Et as <- Et. subst t.
      simpl length. simpl pred. rewrite skipn_app_exact.
      change (skipn 0 (c :: m ++ m_rest st')) with ((c :: m) ++ m_rest st').
      now rewrite filter_app.
    + simpl. rewrite IH. reflexivity.
Qed.

(** Where the pattern matches nowhere, the substitution changes nothing. *)
Lemma sub_from_no_match (r : regex) (repl : list repl_item) (t : text) :
  (forall a m b, t = a ++ m ++ b -> Matches r m -> m = []) ->
  forall prev, sub_from r repl prev 0 t = t.
Proof.
  induction t as [|c t IH]; intros Hno prev; [reflexivity|].
  cbn [sub_from].
  destruct (match_here r prev (c :: t)) as [st'|] eqn:E.
  - apply match_here_sound in E as (m & Et & M & Hne & _).
    exfalso. apply Hne. apply (Hno [] m (m_rest st')); [exact Et|exact M].
  - f_equal. apply IH. intros a m b Ht M.
    apply (Hno (c :: a) m b); [|exact M]. simpl. now f_equal.
Qed.

Lemma sub_from_nil (r : regex) (repl : list repl_item) (prev : option cp)
      (skip : nat) : sub_from r repl prev skip [] = [].
Proof. reflexivity. Qed.

(** A repetition of a character class matches a run of characters of the
    class, of a length within the bounds. *)
Lemma matches_rep_chr (p : charset) (g : greed) (lo : nat) (hi : option nat)
      (m : text) :
  Matches (Rep g lo hi (Chr p)) m ->
  forallb p m = true /\ lo <= length m
  /\ (forall h, hi = Some h -> length m <= h).
Proof.
  intros M. remember (Rep g lo hi (Chr p)) as r eqn:Er.
  revert lo hi Er.
  induction M as [| | | | |g' hi' r'|g' lo' hi' r' a b Hopen Hne Ma _ Mb IHb
                  | | | | |]; intros lo hi Er; try discriminate.
  - injection Er as -> <- -> ->. simpl.
    split; [reflexivity|]. split; [lia|intros; lia].
  - injection Er as -> -> -> ->.
    destruct (IHb _ _ eq_refl) as (Hall & Hlo & Hhi).
    inversion Ma as [|p' c Hc| | | | | | | | | |]; subst.
    simpl. rewrite Hc, Hall. split; [reflexivity|]. split; [lia|].
    intros h ->. simpl in Hopen. destruct h as [|h]; [discriminate|].
    specialize (Hhi h eq_refl). lia.
Qed.

Lemma matches_chr (p : charset) (m : text) :
  Matches (Chr p) m -> exists c, m = [c] /\ p c = true.
Proof. intros M. inversion M; subst. eauto. Qed.

Lemma matches_seq (r1 r2 : regex) (m : text) :
  Matches (Seq r1 r2) m ->
  exists a b, m = a ++ b /\ Matches r1 a /\ Matches r2 b.
Proof. intros M. inversion M; subst. eauto. Qed.

Lemma matches_grp (n : nat) (r : regex) (m : text) :
  Matches (Grp n r) m -> Matches r m.
Proof. intros M. now inversion M. Qed.

Lemma matches_alt (r1 r2 : regex) (m : text) :
  Matches (Alt r1 r2) m -> Matches r1 m \/ Matches r2 m.
Proof. intros M. inversion M; subst; auto. Qed.

Lemma lit_true (c x : cp) : lit c x = true -> x = c.
Proof. unfold lit. intros H. apply cp_eqb_eq in H. now symmetry. Qed.

(** ** White-space normalization keeps the lines *)

Lemma hspace_inv (c : cp) : hspace c = true -> c = space \/ c = tab.
Proof.
  unfold hspace, either. intros H. apply orb_true_iff in H as [H|H];
    apply lit_true in H; auto.
Qed.

Lemma lines_ok_filter_hspace (seen : bool) (t : text) :
  lines_ok seen (filter (neg hspace) t) = lines_ok seen t.
Proof.
  revert seen. induction t as [|c t IH]; intros seen; [reflexivity|].
  cbn [filter]. unfold neg at 1. destruct (hspace c) eqn:H; cbn [negb].
  - rewrite IH. apply hspace_inv in H as [->| ->].
    + change (lines_ok seen (space :: t)) with (lines_ok (seen || false) t).
      now rewrite orb_false_r.
    + change (lines_ok seen (tab :: t)) with (lines_ok (seen || false) t).
      now rewrite orb_false_r.
  - cbn [lines_ok]. destruct (cp_eqb c nl); now rewrite IH.
Qed.

Lemma filter_neg_all (p : charset) (m : text) :
  forallb p m = true -> filter (neg p) m = [].
Proof.
  induction m as [|c m IH]; simpl; [reflexivity|].
  intros H. apply andb_true_iff in H as [Hc Hm]. unfold neg at 1.
  rewrite Hc. simpl. now apply IH.
Qed.

Lemma re_sub_keeps_lines (r : regex) (repl : list repl_item) :
  (forall m caps, Matches r m ->
     filter (neg hspace) (expand repl caps) = filter (neg hspace) m) ->
  forall seen t, lines_ok seen (re_sub r repl t) = lines_ok seen t.
Proof.
  intros Hm seen t.
  rewrite <- (lines_ok_filter_hspace seen (re_sub r repl t)).
  unfold re_sub. rewrite (@sub_from_filter _ _ _ Hm). simpl skipn.
  apply lines_ok_filter_hspace.
Qed.

Lemma hspaces_lines (seen : bool) (t : text) :
  lines_ok seen (re_sub re_hspaces [Lit [space]] t) = lines_ok seen t.
Proof.
  apply re_sub_keeps_lines. intros m caps M.
  apply matches_rep_chr in M as (Hall & _).
  rewrite (filter_neg_all _ _ Hall). reflexivity.
Qed.

Lemma hspaces2_lines (seen : bool) (t : text) :
  lines_ok seen (re_sub re_hspaces2 [Lit [space]] t) = lines_ok seen t.
Proof.
  apply re_sub_keeps_lines. intros m caps M.
  apply matches_rep_chr in M as (Hall & _).
  rewrite (filter_neg_all _ _ Hall). reflexivity.
Qed.

Lemma lead_space_lines (seen : bool) (t : text) :
  lines_ok seen (re_sub re_lead_space [Lit [nl]] t) = lines_ok seen t.
Proof.
  apply re_sub_keeps_lines. intros m caps M.
  apply matches_seq in M as (a & b & -> & Ma & Mb).
  apply matches_chr in Ma as (c & -> & Hc). apply lit_true in Hc as ->.
  apply matches_rep_chr in Mb as (Hall & _).
  rewrite filter_app, (filter_neg_all _ _ Hall). reflexivity.
Qed.

Lemma trail_space_lines (seen : bool) (t : text) :
  lines_ok seen (re_sub re_trail_space [Lit [nl]] t) = lines_ok seen t.
Proof.
  apply re_sub_keeps_lines. intros m caps M.
  apply matches_seq in M as (a & b & -> & Ma & Mb).
  apply matches_chr in Mb as (c & -> & Hc). apply lit_true in Hc as ->.
  apply matches_rep_chr in Ma as (Hall & _).
  rewrite filter_app, (filter_neg_all _ _ Hall). reflexivity.
Qed.

Lemma blank_lines_absent (t : text) :
  lines_ok false t = true -> re_sub re_blank_lines [Lit [nl; nl]] t = t.
Proof.
  intros Hok. apply sub_from_no_match. intros a m b Ht M.
  apply matches_rep_chr in M as (Hall & Hlo & _).
  destruct m as [|x [|y m]]; [reflexivity|simpl in Hlo; lia|].
  cbn [forallb] in Hall. apply andb_true_iff in Hall as [Hx Hall].
  apply andb_true_iff in Hall as [Hy _].
  apply lit_true in Hx as ->. apply lit_true in Hy as ->.
  subst t. simpl in Hok. rewrite lines_ok_double_break in Hok. discriminate.
Qed.

Lemma normalize_whitespace_lines (t : text) :
  lines_ok false t = true -> lines_ok false (normalize_whitespace t) = true.
Proof.
  intros Hok. unfold normalize_whitespace. apply lines_ok_strip.
  rewrite hspaces2_lines.
  rewrite blank_lines_absent;
    rewrite trail_space_lines, lead_space_lines, hspaces_lines; exact Hok.
Qed.

Section CleanLines.
Context {U : Unicode}.

(** C9.  In the result of the cleaner every line holds a character that is
    not white space (the empty result has no line), and no two line breaks
    follow one another: the deduplication pass drops the blank lines and
    the white-space normalization leaves the lines in place. *)
Theorem clean_pdf_text_lines_nonblank (t : text) :
  let out := clean_pdf_text t in
  (out = [] \/ Forall (fun l => nonblank l = true) (split_nl out))
  /\ ~ Occurs [nl; nl] out.
Proof.
  intros out.
  assert (H : out = [] \/ lines_ok false out = true).
  { unfold out, clean_pdf_text.
    destruct (dedup_from_spec (split_nl (unwrap_and_scrub t)) [])
      as (_ & Hin & _).
    fold (dedup (split_nl (unwrap_and_scrub t))) in Hin.
    destruct (dedup (split_nl (unwrap_and_scrub t))) as [|l ls] eqn:E.
    - left. reflexivity.
    - right. apply normalize_whitespace_lines. apply lines_ok_join.
      + discriminate.
      + apply Forall_forall. intros x Hx.
        destruct (Hin x Hx) as (_ & Hb & Hl). split; [exact Hb|].
        exact (split_nl_no_break _ _ Hl). }
  split.
  - destruct H as [H|H]; [now left|right].
    rewrite lines_ok_split in H.
    destruct (split_nl out) as [|l ls]; [discriminate|].
    simpl in H. apply andb_true_iff in H as [Hl Hls].
    constructor; [exact Hl|]. apply Forall_forall. intros x Hx.
    rewrite forallb_forall in Hls. now apply Hls.
  - intros (a & b & Hocc). destruct H as [H|H].
    + rewrite H in Hocc. destruct a; discriminate.
    + rewrite Hocc in H. simpl in H.
      rewrite lines_ok_double_break in H. discriminate.
Qed.
End CleanLines.

(** ** Completeness of the matcher on patterns without assertions *)

Lemma rep_complete (step : mstate -> list mstate) (r : regex) :
  (forall m, Matches r m -> forall st rest, m_rest st = m ++ rest ->
     exists st', In st' (step st) /\ m_rest st' = rest) ->
  forall g lo hi m, Matches (Rep g lo hi r) m ->
  forall fuel st rest,
    m_rest st = m ++ rest -> length (m ++ rest) < fuel ->
    exists st', In st' (rep step g fuel lo hi st) /\ m_rest st' = rest.
Proof.
  intros Hstep g lo hi m M. remember (Rep g lo hi r) as r0 eqn:Er.
  revert lo hi Er.
  induction M as [| | | | |g' hi' r'|g' lo' hi' r' a b Hopen Hne Ma _ Mb IHb
                  | | | | |]; intros lo hi Er; try discriminate.
  - injection Er as -> <- -> ->. intros fuel st rest Hst Hfuel.
    exists st. split; [|exact Hst].
    destruct fuel as [|f]; [now left|].
    cbn [rep]. change (Nat.eqb 0 0) with true. cbv iota.
    destruct g; apply in_or_app; [right|left]; now left.
  - injection Er as -> -> -> ->. intros fuel st rest Hst Hfuel.
    destruct fuel as [|f]; [lia|].
    rewrite <- app_assoc in Hst.
    destruct (Hstep a Ma st (b ++ rest) Hst) as (st1 & Hin1 & Hst1).
    assert (Hlen : length (a ++ b ++ rest) = length a + length (b ++ rest))
      by apply length_app.
    assert (Ha : 0 < length a) by (destruct a; [congruence|simpl; lia]).
    destruct (IHb _ _ eq_refl f st1 rest Hst1) as (st' & Hin' & Hst').
    { rewrite <- app_assoc, Hlen in Hfuel. lia. }
    exists st'. split; [|exact Hst'].
    cbn [rep]. rewrite Hopen.
    assert (Hmore : In st'
      (flat_map (fun st2 =>
         if Nat.ltb (length (m_rest st2)) (length (m_rest st))
         then rep step g f (pred lo) (bound_pred hi) st2 else [])
         (step st))).
    { apply in_flat_map. exists st1. split; [exact Hin1|].
      replace (Nat.ltb (length (m_rest st1)) (length (m_rest st))) with true.
      - exact Hin'.
      - symmetry. apply Nat.ltb_lt. rewrite Hst1, Hst, Hlen. lia. }
    destruct g; apply in_or_app; [left|right]; exact Hmore.
Qed.

Lemma run_complete (r : regex) :
  plain r = true ->
  forall m, Matches r m -> forall st rest, m_rest st = m ++ rest ->
    exists st', In st' (run r st) /\ m_rest st' = rest.
Proof.
  induction r as [|p|r1 IH1 r2 IH2|r1 IH1 r2 IH2|g lo hi r IH
                  |n r IH| | |p|p]; cbn [plain]; intros Hp m M st rest Hst;
    try discriminate.
  - inversion M; subst. exists st. split; [now left|exact Hst].
  - inversion M as [|p' c Hc| | | | | | | | | |]; subst. cbn [run].
    rewrite Hst. simpl. rewrite Hc. eexists. split; [now left|reflexivity].
  - apply andb_true_iff in Hp as [Hp1 Hp2].
    inversion M as [| |? ? a b Ma Mb| | | | | | | | |]; subst.
    rewrite <- app_assoc in Hst.
    destruct (IH1 Hp1 a Ma st _ Hst) as (st1 & Hin1 & Hst1).
    destruct (IH2 Hp2 b Mb st1 _ Hst1) as (st2 & Hin2 & Hst2).
    exists st2. split; [|exact Hst2]. cbn [run]. apply in_flat_map. eauto.
  - apply andb_true_iff in Hp as [Hp1 Hp2]. cbn [run].
    apply matches_alt in M as [M|M].
    + destruct (IH1 Hp1 m M st _ Hst) as (st1 & Hin1 & Hst1).
      exists st1. split; [apply in_or_app; now left|exact Hst1].
    + destruct (IH2 Hp2 m M st _ Hst) as (st1 & Hin1 & Hst1).
      exists st1. split; [apply in_or_app; now right|exact Hst1].
  - cbn [run]. apply (@rep_complete (run r) r (IH Hp) g lo hi m M); [exact Hst|].
    rewrite Hst. lia.
  - apply matches_grp in M.
    destruct (IH Hp m M st _ Hst) as (st1 & Hin1 & Hst1).
    exists (set_cap n st st1). split; [|exact Hst1].
    cbn [run]. now apply in_map.
Qed.

(** A pattern without assertions that matches a prefix of the text, and
    never the empty string, is found by [match_here]. *)
Lemma match_here_complete (r : regex) (prev : option cp) (m rest : text) :
  plain r = true -> (forall m', Matches r m' -> m' <> []) ->
  Matches r m -> match_here r prev (m ++ rest) <> None.
Proof.
  intros Hp Hne M. unfold match_here.
  destruct (@run_complete r Hp m M (MState prev (m ++ rest) []) rest eq_refl)
    as (st' & Hin & _).
  destruct (run r (MState prev (m ++ rest) [])) as [|st1 l] eqn:E;
    [contradiction|].
  destruct (@run_sound r (MState prev (m ++ rest) []) st1) as (m1 & E1 & M1).
  { rewrite E. now left. }
  simpl in E1.
  replace (Nat.ltb (length (m_rest st1)) (length (m ++ rest))) with true;
    [discriminate|].
  symmetry. apply Nat.ltb_lt. rewrite E1, length_app.
  specialize (Hne m1 M1). destruct m1; [congruence|simpl; lia].
Qed.

Lemma matches_star_chr (p : charset) (g : greed) (m : text) :
  forallb p m = true -> Matches (Rep g 0 None (Chr p)) m.
Proof.
  induction m as [|c m IH]; simpl; intros H; [constructor|].
  apply andb_true_iff in H as [Hc Hm].
  change (c :: m) with ([c] ++ m).
  apply MRepMore; [reflexivity|discriminate|now constructor|].
  simpl. now apply IH.
Qed.

Lemma matches_exactly_chr (p : charset) (g : greed) (m : text) :
  forallb p m = true ->
  Matches (Rep g (length m) (Some (length m)) (Chr p)) m.
Proof.
  induction m as [|c m IH]; simpl; intros H; [constructor|].
  apply andb_true_iff in H as [Hc Hm].
  change (c :: m) with ([c] ++ m).
  apply MRepMore; [reflexivity|discriminate|now constructor|].
  simpl. now apply IH.
Qed.

(** ** The citation stripper: parenthesised years *)

Lemma first_split_unique (c : cp) (x y b b' : text) :
  x ++ c :: b = y ++ c :: b' -> ~ In c x -> ~ In c y -> x = y /\ b = b'.
Proof.
  revert y. induction x as [|a x IH]; intros [|a' y]; simpl; intros E Hx Hy.
  - injection E as ->. now split.
  - injection E as <- _. exfalso. apply Hy. now left.
  - injection E as -> _. exfalso. apply Hx. now left.
  - injection E as -> E.
    destruct (IH y E) as [-> ->]; [tauto|tauto|]. now split.
Qed.

Lemma in_split_first (c : cp) (t : text) :
  In c t -> exists y t', t = y ++ c :: t' /\ ~ In c y.
Proof.
  induction t as [|a t IH]; [intros []|]. intros H.
  destruct (N.eq_dec a c) as [->|Hne].
  - exists [], t. split; [reflexivity|tauto].
  - destruct H as [H|H]; [congruence|].
    destruct (IH H) as (y & t' & -> & Hy).
    exists (a :: y), t'. split; [reflexivity|]. intros [E|E]; tauto.
Qed.

Lemma sub_erase_in (r : regex) (c : cp) (t : text) :
  forall prev skip, In c (sub_from r [] prev skip t) -> In c t.
Proof.
  induction t as [|a t IH]; intros prev skip; [intros []|].
  cbn [sub_from]. destruct skip as [|n].
  - destruct (match_here r prev (a :: t)).
    + simpl. intros H. right. exact (IH _ _ H).
    + intros [H|H]; [now left|right; exact (IH _ _ H)].
  - intros H. right. exact (IH _ _ H).
Qed.

Lemma forallb_neg_lit (c : cp) (x : text) :
  forallb (neg (lit c)) x = true <-> ~ In c x.
Proof.
  induction x as [|a x IH]; simpl; [tauto|].
  unfold neg at 1, lit at 1. rewrite andb_true_iff, IH.
  destruct (cp_eqb c a) eqn:E; simpl.
  - apply cp_eqb_eq in E. subst a. split; [intros [H _]; discriminate|].
    intros H. exfalso. apply H. now left.
  - split.
    + intros [_ H] [->|H']; [|tauto].
      unfold cp_eqb in E. rewrite N.eqb_refl in E. discriminate.
    + intros H. split; [reflexivity|]. tauto.
Qed.

Section ParenYear.
Context {U : Unicode}.

Lemma has_year_cons (c : cp) (y : text) : has_year y -> has_year (c :: y).
Proof.
  intros (p & d & q & -> & Hd & Hall). exists (c :: p), d, q. now split.
Qed.

Lemma digits_no_rparen (d : text) : forallb cls_d d = true -> ~ In 41%N d.
Proof.
  intros H Hin. rewrite forallb_forall in H. specialize (H _ Hin).
  unfold cls_d in H. rewrite isdecimal_ascii in H by reflexivity.
  discriminate.
Qed.

Lemma paren_match_shape (m : text) :
  Matches re_paren_year m ->
  exists x, m = 40%N :: x ++ [41%N] /\ ~ In 41%N x /\ has_year x.
Proof.
  unfold re_paren_year. cbn [cat]. intros M.
  apply matches_seq in M as (a & b & -> & Ma & M).
  apply matches_chr in Ma as (c & -> & Hc). apply lit_true in Hc as ->.
  apply matches_seq in M as (x & e & -> & Mx & Me).
  apply matches_chr in Me as (c & -> & Hc). apply lit_true in Hc as ->.
  apply matches_grp in Mx.
  apply matches_seq in Mx as (p & dq & -> & Mp & Mdq).
  apply matches_seq in Mdq as (d & q & -> & Md & Mq).
  apply matches_rep_chr in Mp as (Hp & _).
  apply matches_rep_chr in Mq as (Hq & _).
  apply matches_rep_chr in Md as (Hd & Hlo & Hhi).
  specialize (Hhi 4 eq_refl).
  exists (p ++ d ++ q). split; [reflexivity|]. split.
  - apply forallb_neg_lit in Hp. apply forallb_neg_lit in Hq.
    pose proof (digits_no_rparen _ Hd) as Hd'.
    rewrite !in_app_iff. tauto.
  - exists p, d, q. split; [reflexivity|]. split; [lia|exact Hd].
Qed.

Lemma paren_match_intro (x : text) :
  ~ In 41%N x -> has_year x -> Matches re_paren_year (40%N :: x ++ [41%N]).
Proof.
  intros Hx (p & d & q & -> & Hlen & Hd).
  rewrite !in_app_iff in Hx.
  unfold re_paren_year. cbn [cat].
  change (40%N :: (p ++ d ++ q) ++ [41%N])
    with ([40%N] ++ ((p ++ d ++ q) ++ [41%N])).
  constructor; [now constructor|].
  constructor; [|now constructor]. constructor.
  constructor; [apply matches_star_chr, forallb_neg_lit; tauto|].
  constructor; [|apply matches_star_chr, forallb_neg_lit; tauto].
  unfold exactly. rewrite <- Hlen. now apply matches_exactly_chr.
Qed.

Lemma paren_match_nonempty (m : text) : Matches re_paren_year m -> m <> [].
Proof.
  intros M. apply paren_match_shape in M as (x & -> & _). discriminate.
Qed.

(** Up to the first closing parenthesis nothing is removed when no year
    stands before it. *)
Lemma paren_pass_copies (y t : text) (prev : option cp) :
  ~ In 41%N y -> ~ has_year y ->
  sub_from re_paren_year [] prev 0 (y ++ 41%N :: t) =
  y ++ 41%N :: sub_from re_paren_year [] (Some 41%N) 0 t.
Proof.
  revert prev. induction y as [|c y IH]; intros prev Hy Hyear.
  - simpl app. cbn [sub_from].
    destruct (match_here re_paren_year prev (41%N :: t)) as [st'|] eqn:E;
      [|reflexivity].
    apply match_here_sound in E as (m & Et & M & _).
    apply paren_match_shape in M as (x & -> & _). discriminate Et.
  - simpl app. cbn [sub_from].
    destruct (match_here re_paren_year prev (c :: y ++ 41%N :: t))
      as [st'|] eqn:E.
    + exfalso. apply match_here_sound in E as (m & Et & M & _).
      apply paren_match_shape in M as (x & -> & Hx & Hyx).
      simpl in Et. rewrite <- app_assoc in Et. simpl in Et.
      injection Et as -> Et.
      apply first_split_unique in Et as [-> _];
        [|intros H; apply Hy; now right|exact Hx].
      apply Hyear. now apply has_year_cons.
    + f_equal. apply IH.
      * intros H. apply Hy. now right.
      * intros H. apply Hyear. now apply has_year_cons.
Qed.

Lemma paren_pass_clean (t : text) :
  forall prev skip,
    ~ year_group_in (sub_from re_paren_year [] prev skip t).
Proof.
  induction t as [|c t IH]; intros prev skip.
  - simpl. intros (a & x & b & H & _). destruct a; discriminate.
  - cbn [sub_from]. destruct skip as [|n]; [|apply IH].
    destruct (match_here re_paren_year prev (c :: t)) as [st'|] eqn:E.
    + simpl. apply IH.
    + intros (a & x & b & Hout & Hx & Hyear).
      destruct a as [|c' a].
      * simpl in Hout. injection Hout as -> Hout.
        assert (Hin : In 41%N (x ++ 41%N :: b))
          by (apply in_or_app; right; now left).
        rewrite <- Hout in Hin. apply sub_erase_in in Hin.
        apply in_split_first in Hin as (y & t' & -> & Hy).
        assert (Hny : ~ has_year y).
        { intros H.
          apply (@match_here_complete re_paren_year prev
                   (40%N :: y ++ [41%N]) t' eq_refl paren_match_nonempty).
          - now apply paren_match_intro.
          - simpl. rewrite <- app_assoc. exact E. }
        rewrite (paren_pass_copies _ _ Hy Hny) in Hout.
        apply first_split_unique in Hout as [<- _]; [|exact Hy|exact Hx].
        exact (Hny Hyear).
      * simpl in Hout. injection Hout as _ Hout.
        apply (IH (Some c) 0). exists a, x, b. now split.
Qed.

End ParenYear.

(** C5 as stated fails: the numeric citation [[3]] keeps the digits apart
    during the first pass, and its removal in the second pass leaves
    [(1234)]. *)
Lemma bracket_pass_joins_a_year :
  strip_citations_and_references (py "(12[3]34)") = py "(1234)"
  /\ year_group_in (strip_citations_and_references (py "(12[3]34)")).
Proof.
  split; [vm_compute; reflexivity|].
  exists [], (py "1234"), []. split; [vm_compute; reflexivity|]. split.
  - vm_compute. intuition discriminate.
  - exists [], (py "1234"), []. split; [reflexivity|].
    split; vm_compute; reflexivity.
Qed.

(** ** The citation stripper: the references heading *)

Lemma before_match_first (r : regex) (t : text) :
  forall i prev,
    (forall j prev', j < i -> match_here r prev' (skipn j t) = None) ->
    (forall prev', match_here r prev' (skipn i t) <> None) ->
    before_match r prev t = firstn i t.
Proof.
  induction t as [|c t IH]; intros i prev Hbefore Hat.
  - now rewrite firstn_nil.
  - cbn [before_match]. destruct i as [|i].
    + specialize (Hat prev). simpl in Hat.
      destruct (match_here r prev (c :: t)); [reflexivity|congruence].
    + pose proof (Hbefore 0 prev (Nat.lt_0_succ i)) as H0.
      simpl in H0. rewrite H0. simpl. f_equal. apply IH.
      * intros j prev' Hj. apply (Hbefore (S j) prev'). lia.
      * exact Hat.
Qed.

Lemma before_match_none (r : regex) (t : text) :
  forall prev,
    (forall j prev', match_here r prev' (skipn j t) = None) ->
    before_match r prev t = t.
Proof.
  induction t as [|c t IH]; intros prev Hnone; [reflexivity|].
  cbn [before_match]. pose proof (Hnone 0 prev) as H0. simpl in H0.
  rewrite H0. f_equal. apply IH.
  intros j prev'. exact (Hnone (S j) prev').
Qed.

Section Heading.
Context {U : Unicode}.

Lemma matches_word_ci (h w : text) :
  Matches (word_ci h) w <-> reads_as h w.
Proof.
  revert w. induction h as [|c h IH]; intros w.
  - simpl. split.
    + intros M. inversion M. constructor.
    + intros H. inversion H. constructor.
  - destruct h as [|c' h].
    + simpl. split.
      * intros M. apply matches_chr in M as (x & -> & Hx).
        constructor; [exact Hx|constructor].
      * intros H. inversion H as [|? x ? l Hx Hl]; subst. inversion Hl.
        now constructor.
    + change (word_ci (c :: c' :: h))
        with (Seq (Chr (ci_eq c)) (word_ci (c' :: h))). split.
      * intros M. apply matches_seq in M as (a & b & -> & Ma & Mb).
        apply matches_chr in Ma as (x & -> & Hx). apply IH in Mb.
        constructor; assumption.
      * intros H. inversion H as [|? x ? l Hx Hl]; subst.
        change (x :: l) with ([x] ++ l).
        constructor; [now constructor|now apply IH].
Qed.

Lemma plain_word_ci (h : text) : plain (word_ci h) = true.
Proof.
  induction h as [|c h IH]; [reflexivity|].
  destruct h as [|c' h]; [reflexivity|].
  change (word_ci (c :: c' :: h))
    with (Seq (Chr (ci_eq c)) (word_ci (c' :: h))).
  simpl plain. exact IH.
Qed.

Lemma plain_references_heading : plain re_references_heading = true.
Proof.
  unfold re_references_heading. cbn [cat plain star].
  rewrite !plain_word_ci. reflexivity.
Qed.

Lemma heading_matches (m : text) :
  Matches re_references_heading m <-> heading_line m.
Proof.
  unfold re_references_heading. cbn [cat]. split.
  - intros M.
    apply matches_seq in M as (a & r1 & -> & Ma & M).
    apply matches_chr in Ma as (c & -> & Hc). apply lit_true in Hc as ->.
    apply matches_seq in M as (ws1 & r2 & -> & M1 & M).
    apply matches_seq in M as (w & r3 & -> & Mw & M).
    apply matches_seq in M as (ws2 & e & -> & M2 & Me).
    apply matches_chr in Me as (c & -> & Hc). apply lit_true in Hc as ->.
    apply matches_rep_chr in M1 as (H1 & _).
    apply matches_rep_chr in M2 as (H2 & _).
    apply matches_grp in Mw.
    exists ws1, w, ws2.
    apply matches_alt in Mw as [Mw|Mw];
      [|apply matches_alt in Mw as [Mw|Mw]];
      apply matches_word_ci in Mw; eexists;
      (split; [reflexivity|]); (split; [exact H1|]); (split; [exact H2|]);
      (split; [|exact Mw]); unfold heading_words; simpl; auto.
  - intros (ws1 & w & ws2 & h & -> & H1 & H2 & Hh & Hw).
    apply matches_word_ci in Hw.
    change (nl :: ws1 ++ w ++ ws2 ++ [nl])
      with ([nl] ++ ws1 ++ w ++ ws2 ++ [nl]).
    constructor; [constructor; apply N.eqb_refl|].
    constructor; [now apply matches_star_chr|].
    constructor.
    + constructor. destruct Hh as [<-|[<-|[<-|[]]]].
      * now apply MAltL.
      * apply MAltR. now apply MAltL.
      * apply MAltR. now apply MAltR.
    + constructor; [now apply matches_star_chr|].
      constructor. apply N.eqb_refl.
Qed.

Lemma heading_nonempty (m : text) :
  Matches re_references_heading m -> m <> [].
Proof.
  intros M. apply heading_matches in M as (? & ? & ? & ? & -> & _).
  discriminate.
Qed.

(** The pattern is found at an index exactly when a heading starts
    there. *)
Lemma heading_at_match (t : text) (i : nat) (prev : option cp) :
  heading_at t i <-> match_here re_references_heading prev (skipn i t) <> None.
Proof.
  split.
  - intros (m & rest & -> & Hm).
    apply match_here_complete.
    + exact plain_references_heading.
    + exact heading_nonempty.
    + now apply heading_matches.
  - intros H.
    destruct (match_here re_references_heading prev (skipn i t))
      as [st'|] eqn:E; [|congruence].
    apply match_here_sound in E as (m & Et & M & _).
    exists m, (m_rest st'). split; [exact Et|]. now apply heading_matches.
Qed.

End Heading.

(** C4, amended.  The text is cut, after the two citation passes, at the
    first place where a line break, white space, one of the three headings
    in any case, white space and a line break follow one another; what
    stands before that place is kept and trimmed.  Without such a place the
    whole text is kept and trimmed.  The example of the specification,
    read with the Latin-1 tables, comes out as [Body text.]. *)
Theorem strip_citations_cuts_at_heading {U : Unicode} (t : text) :
  let u := remove_numeric_citations (remove_paren_citations t) in
  (forall i, heading_at u i -> (forall j, j < i -> ~ heading_at u j) ->
     strip_citations_and_references t = strip (firstn i u))
  /\ ((forall i, ~ heading_at u i) ->
      strip_citations_and_references t = strip u)
  /\ @strip_citations_and_references latin1
       (py "Body text.\nReferences\nSmith, J. (2020).") = py "Body text.".
Proof.
  intros u. split; [|split].
  - intros i Hat Hfirst. unfold strip_citations_and_references. fold u.
    f_equal. apply before_match_first.
    + intros j prev' Hj.
      destruct (match_here re_references_heading prev' (skipn j u)) eqn:E;
        [|reflexivity].
      exfalso. apply (Hfirst j Hj). apply (heading_at_match u j prev').
      congruence.
    + intros prev'. now apply heading_at_match.
  - intros Hnone. unfold strip_citations_and_references. fold u.
    f_equal. apply before_match_none. intros j prev'.
    destruct (match_here re_references_heading prev' (skipn j u)) eqn:E;
      [|reflexivity].
    exfalso. apply (Hnone j). apply (heading_at_match u j prev'). congruence.
  - vm_compute. reflexivity.
Qed.

(** C4 as stated fails: a heading on the last line, with no line break
    after it, is not cut off. *)
Lemma heading_on_last_line_is_kept :
  strip_citations_and_references (py "Body text.\nReferences")
  = py "Body text.\nReferences".
Proof. vm_compute. reflexivity. Qed.

Lemma strip_citations_cuts_at_heading_witness :
  let t := py "Body text.\nReferences\nSmith, J. (2020)." in
  let u := remove_numeric_citations (remove_paren_citations t) in
  heading_at u 10
  /\ (forall j, j < 10 -> ~ heading_at u j)
  /\ strip_citations_and_references t = strip (firstn 10 u).
Proof.
  intros t u.
  assert (Hat : heading_at u 10).
  { apply (heading_at_match u 10 None). vm_compute. discriminate. }
  assert (Hfirst : forall j, j < 10 -> ~ heading_at u j).
  { intros j Hj H. apply (heading_at_match u j None) in H.
    do 10 (destruct j as [|j]; [vm_compute in H; congruence|]). lia. }
  split; [exact Hat|]. split; [exact Hfirst|].
  destruct (@strip_citations_cuts_at_heading latin1 t) as (Hcut & _).
  exact (Hcut 10 Hat Hfirst).
Defined.

(** ** Greedy runs *)

Lemma rep_open_nonempty (step : mstate -> list mstate) (g : greed)
      (fuel : nat) (st : mstate) : rep step g fuel 0 None st <> [].
Proof.
  destruct fuel as [|f]; [discriminate|].
  cbn [rep]. simpl Nat.eqb. cbv iota.
  destruct g; intros H; apply app_eq_nil in H as [H1 H2]; discriminate.
Qed.

(** The first outcome of a greedy, unbounded repetition of a character
    class stops in front of a character outside the class. *)
Lemma rep_greedy_head (p : charset) (fuel lo : nat) (st : mstate) :
  length (m_rest st) < fuel ->
  match hd_error (rep (run (Chr p)) Greedy fuel lo None st) with
  | Some st' => holds_opt p (hd_error (m_rest st')) = false
  | None => True
  end.
Proof.
  revert lo st. induction fuel as [|f IH]; intros lo st Hlen; [lia|].
  cbn [rep bound_open bound_pred].
  assert (Hrun : run (Chr p) st =
                 match m_rest st with
                 | c :: s => if p c then [MState (Some c) s (m_caps st)]
                             else []
                 | [] => []
                 end) by reflexivity.
  rewrite Hrun. clear Hrun.
  destruct (m_rest st) as [|c s] eqn:E.
  - cbn [flat_map app]. destruct (Nat.eqb lo 0); simpl; [|trivial].
    rewrite E. reflexivity.
  - destruct (p c) eqn:P.
    + cbn [flat_map m_rest].
      replace (Nat.ltb (length s) (length (c :: s))) with true
        by (symmetry; apply Nat.ltb_lt; simpl; lia).
      rewrite app_nil_r.
      assert (Hs : length (m_rest (MState (Some c) s (m_caps st))) < f)
        by (simpl in *; lia).
      pose proof (IH (pred lo) _ Hs) as IH'.
      remember (rep (run (Chr p)) Greedy f (pred lo) None
                    (MState (Some c) s (m_caps st))) as L eqn:R.
      destruct L as [|x l].
      * destruct lo as [|lo]; [|simpl; trivial].
        exfalso. symmetry in R. exact (rep_open_nonempty _ _ _ _ R).
      * simpl. exact IH'.
    + cbn [flat_map app]. destruct (Nat.eqb lo 0); simpl; [|trivial].
      rewrite E. simpl. exact P.
Qed.

Lemma match_here_hspaces_maximal (prev : option cp) (t : text)
      (st' : mstate) :
  match_here re_hspaces prev t = Some st' ->
  holds_opt hspace (hd_error (m_rest st')) = false.
Proof.
  unfold match_here.
  change (run re_hspaces (MState prev t []))
    with (rep (run (Chr hspace)) Greedy (S (length t)) 1 None
              (MState prev t [])).
  pose proof (@rep_greedy_head hspace (S (length t)) 1
                (MState prev t []) (Nat.lt_succ_diag_r _)) as H.
  remember (rep (run (Chr hspace)) Greedy (S (length t)) 1 None
                (MState prev t [])) as L eqn:R.
  destruct L as [|x l]; [discriminate|].
  simpl in H. destruct (Nat.ltb _ _); [|discriminate].
  intros E; injection E as <-. exact H.
Qed.

Lemma matches_hspaces_one (c : cp) : hspace c = true -> Matches re_hspaces [c].
Proof.
  intros H. unfold re_hspaces, plus. change [c] with ([c] ++ []).
  apply MRepMore; [reflexivity|discriminate|now constructor|constructor].
Qed.

(** What the collapse of blanks and tabs gives is single-spaced. *)
Lemma hspaces_collapse (t : text) :
  forall prev skip,
    let out := sub_from re_hspaces [Lit [space]] prev skip t in
    single_spaced out = true
    /\ (holds_opt hspace (hd_error out) = true ->
        holds_opt hspace (hd_error (skipn skip t)) = true).
Proof.
  induction t as [|c t IH]; intros prev skip.
  - simpl. split; [reflexivity|]. destruct skip; simpl; trivial.
  - cbn [sub_from]. destruct skip as [|n]; [|apply IH].
    destruct (match_here re_hspaces prev (c :: t)) as [st'|] eqn:E.
    + pose proof (match_here_hspaces_maximal _ _ E) as Hmax.
      apply match_here_sound in E as (m & Et & M & Hne & Hlen).
      apply matches_rep_chr in M as (Hall & _).
      destruct m as [|x m]; [congruence|].
      simpl in Et. injection Et as <- Et.
      simpl in Hall. apply andb_true_iff in Hall as [Hc _].
      rewrite Hlen. simpl length. simpl pred.
      destruct (IH (Some c) (length m)) as [IH1 IH2].
      assert (Hrest : skipn (length m) t = m_rest st')
        by (rewrite Et; apply skipn_app_exact).
      rewrite Hrest in IH2.
      cbn [expand app]. split.
      * cbn [single_spaced]. change (hspace space) with true. cbv iota.
        rewrite IH1, andb_true_r. change (cp_eqb space space) with true.
        simpl andb.
        destruct (holds_opt hspace (hd_error
          (sub_from re_hspaces [Lit [space]] (Some c) (length m) t))) eqn:H;
          [|reflexivity].
        rewrite (IH2 eq_refl) in Hmax. discriminate.
      * intros _. simpl. exact Hc.
    + destruct (hspace c) eqn:Hc.
      * exfalso.
        apply (@match_here_complete re_hspaces prev [c] t eq_refl).
        -- intros m' M. apply matches_rep_chr in M as (_ & Hlo & _).
           destruct m'; [simpl in Hlo; lia|discriminate].
        -- now apply matches_hspaces_one.
        -- exact E.
      * destruct (IH (Some c) 0) as [IH1 _]. split.
        -- cbn [single_spaced]. rewrite Hc. exact IH1.
        -- simpl. rewrite Hc. discriminate.
Qed.

Lemma single_spaced_tail (c : cp) (t : text) :
  single_spaced (c :: t) = true -> single_spaced t = true.
Proof.
  cbn [single_spaced]. destruct (hspace c); [|trivial].
  intros H. apply andb_true_iff in H as [_ H]. exact H.
Qed.

Lemma single_spaced_suffix (a b : text) :
  single_spaced (a ++ b) = true -> single_spaced b = true.
Proof.
  induction a as [|c a IH]; [trivial|]. intros H. apply IH.
  exact (single_spaced_tail _ _ H).
Qed.

Lemma single_spaced_prefix (a b : text) :
  single_spaced (a ++ b) = true -> single_spaced a = true.
Proof.
  induction a as [|c a IH]; [reflexivity|]. simpl app.
  cbn [single_spaced]. destruct (hspace c); [|exact IH].
  intros H. apply andb_true_iff in H as [H H3].
  apply andb_true_iff in H as [H1 H2].
  rewrite H1, (IH H3), andb_true_r. simpl.
  destruct a as [|x a]; [reflexivity|]. exact H2.
Qed.

Lemma single_spaced_no_pair (a b : text) (x y : cp) :
  hspace x = true -> hspace y = true ->
  single_spaced (a ++ x :: y :: b) = false.
Proof.
  intros Hx Hy. destruct (single_spaced (a ++ x :: y :: b)) eqn:E;
    [|reflexivity].
  apply single_spaced_suffix in E. cbn [single_spaced] in E.
  rewrite Hx in E. simpl in E. rewrite Hy in E. simpl in E.
  rewrite andb_false_r in E. discriminate.
Qed.

(** On a single-spaced text the two collapsing substitutions change
    nothing. *)
Lemma hspaces_fixed (t : text) :
  single_spaced t = true ->
  forall prev, sub_from re_hspaces [Lit [space]] prev 0 t = t.
Proof.
  induction t as [|c t IH]; intros Hs prev; [reflexivity|].
  cbn [sub_from].
  destruct (match_here re_hspaces prev (c :: t)) as [st'|] eqn:E.
  - apply match_here_sound in E as (m & Et & M & Hne & Hlen).
    apply matches_rep_chr in M as (Hall & _).
    destruct m as [|x m]; [congruence|].
    simpl in Et. injection Et as <- Et.
    simpl in Hall. apply andb_true_iff in Hall as [Hc Hm].
    cbn [single_spaced] in Hs. rewrite Hc in Hs.
    apply andb_true_iff in Hs as [Hs Hs3].
    apply andb_true_iff in Hs as [Hs1 Hs2].
    apply cp_eqb_eq in Hs1. subst c.
    destruct m as [|y m].
    + rewrite Hlen. simpl. f_equal. now apply IH.
    + exfalso. rewrite Et in Hs2. simpl in Hs2, Hm.
      apply andb_true_iff in Hm as [Hy _]. rewrite Hy in Hs2. discriminate.
  - f_equal. apply IH. exact (single_spaced_tail _ _ Hs).
Qed.

Lemma hspaces2_fixed (t : text) :
  single_spaced t = true -> re_sub re_hspaces2 [Lit [space]] t = t.
Proof.
  intros Hs. apply sub_from_no_match. intros a m b Ht M.
  apply matches_rep_chr in M as (Hall & Hlo & _).
  destruct m as [|x [|y m]]; [reflexivity|simpl in Hlo; lia|].
  cbn [forallb] in Hall. apply andb_true_iff in Hall as [Hx Hall].
  apply andb_true_iff in Hall as [Hy _].
  subst t. simpl in Hs. rewrite single_spaced_no_pair in Hs by assumption.
  discriminate.
Qed.

(** ** Trimming twice *)

Lemma rstrip_rstrip (t : text) : rstrip (rstrip t) = rstrip t.
Proof.
  induction t as [|c t IH]; [reflexivity|]. cbn [rstrip].
  destruct (rstrip t) as [|x r] eqn:R.
  - destruct (isspace c) eqn:S; [reflexivity|]. simpl. now rewrite S.
  - cbn [rstrip]. cbn [rstrip] in IH. rewrite IH. reflexivity.
Qed.

Lemma rstrip_keeps_head (c : cp) (t : text) :
  isspace c = false -> exists r, rstrip (c :: t) = c :: r.
Proof.
  intros S. cbn [rstrip]. destruct (rstrip t) as [|x r]; rewrite ?S; eauto.
Qed.

Lemma strip_head (t : text) :
  strip t = [] \/ exists c r, strip t = c :: r /\ isspace c = false.
Proof.
  unfold strip. destruct (lstrip_head t) as [->|(c & r & -> & S)].
  - now left.
  - right. destruct (@rstrip_keeps_head c r S) as [r' ->]. eauto.
Qed.

Lemma strip_strip (t : text) : strip (strip t) = strip t.
Proof.
  destruct (strip_head t) as [E|(c & r & E & S)].
  - rewrite E. reflexivity.
  - unfold strip at 1. rewrite E. cbn [lstrip]. rewrite S.
    rewrite <- E. unfold strip. apply rstrip_rstrip.
Qed.

Lemma single_spaced_strip (t : text) :
  single_spaced t = true -> single_spaced (strip t) = true.
Proof.
  intros H. unfold strip.
  destruct (lstrip_suffix t) as [a Ha].
  destruct (rstrip_prefix (lstrip t)) as [b Hb].
  rewrite Ha in H. apply single_spaced_suffix in H.
  rewrite Hb in H. exact (single_spaced_prefix _ _ H).
Qed.

Lemma lstrip_keeps_break (t : text) :
  lines_ok false t = true -> In nl t -> In nl (lstrip t).
Proof.
  induction t as [|c t IH]; [intros _ []|].
  cbn [lstrip]. destruct (isspace c) eqn:S; [|trivial].
  cbn [lines_ok]. rewrite S. destruct (cp_eqb c nl) eqn:E; [discriminate|].
  simpl. intros Hok [->|H]; [|now apply IH].
  unfold cp_eqb in E. rewrite N.eqb_refl in E. discriminate.
Qed.

Lemma rstrip_keeps_break (seen : bool) (t : text) :
  lines_ok seen t = true -> In nl t -> In nl (rstrip t).
Proof.
  revert seen. induction t as [|c t IH]; intros seen; [intros _ []|].
  cbn [lines_ok rstrip]. destruct (cp_eqb c nl) eqn:E.
  - apply cp_eqb_eq in E. subst c. intros H _.
    apply andb_true_iff in H as [_ H].
    pose proof (lines_ok_false_nonempty _ H) as Hne.
    destruct (rstrip t); [congruence|]. now left.
  - intros Hok [->|H].
    + unfold cp_eqb in E. rewrite N.eqb_refl in E. discriminate.
    + specialize (IH _ Hok H).
      destruct (rstrip t); [contradiction|]. now right.
Qed.

Lemma strip_keeps_break (t : text) :
  lines_ok false t = true -> In nl t -> In nl (strip t).
Proof.
  intros Hok H. unfold strip.
  apply (rstrip_keeps_break false).
  - now apply lines_ok_lstrip.
  - now apply lstrip_keeps_break.
Qed.

Lemma re_sub_keeps_break (r : regex) (repl : list repl_item) (t : text) :
  (forall m caps, Matches r m ->
     filter (neg hspace) (expand repl caps) = filter (neg hspace) m) ->
  In nl t -> In nl (re_sub r repl t).
Proof.
  intros Hm H.
  assert (Hf : In nl (filter (neg hspace) t))
    by (apply filter_In; split; [exact H|reflexivity]).
  unfold re_sub.
  rewrite <- (skipn_O t), <- (@sub_from_filter _ _ _ Hm t None 0) in Hf.
  apply filter_In in Hf. tauto.
Qed.

(** ** Patterns that need a character the text does not have *)

Lemma re_sub_absent (bad : cp -> Prop) (r : regex) (repl : list repl_item)
      (t : text) :
  (forall m, Matches r m -> exists c, In c m /\ bad c) ->
  (forall c, In c t -> ~ bad c) ->
  re_sub r repl t = t.
Proof.
  intros Hm Ht. apply sub_from_no_match. intros a m b E M.
  destruct (Hm m M) as (c & Hc & Hbad). exfalso.
  apply (Ht c); [|exact Hbad]. subst t.
  apply in_or_app. right. apply in_or_app. now left.
Qed.

Lemma matches_word (s m : text) : Matches (word s) m -> m = s.
Proof.
  revert m. induction s as [|c s IH]; intros m M.
  - simpl in M. now inversion M.
  - destruct s as [|c' s].
    + simpl in M. apply matches_chr in M as (x & -> & Hx).
      apply lit_true in Hx. now subst.
    + change (word (c :: c' :: s))
        with (Seq (Chr (lit c)) (word (c' :: s))) in M.
      apply matches_seq in M as (a & b & -> & Ma & Mb).
      apply matches_chr in Ma as (x & -> & Hx). apply lit_true in Hx.
      subst x. simpl. f_equal. now apply IH.
Qed.

Lemma matches_rep_chr_first (p : charset) (g : greed) (lo : nat)
      (hi : option nat) (m : text) :
  Matches (Rep g (S lo) hi (Chr p)) m -> exists c, In c m /\ p c = true.
Proof.
  intros M. apply matches_rep_chr in M as (Hall & Hlo & _).
  destruct m as [|c m]; [simpl in Hlo; lia|].
  simpl in Hall. apply andb_true_iff in Hall as [Hc _].
  exists c. split; [now left|exact Hc].
Qed.

(** ** Running the cleaner on its own result *)

Section Idempotence.
Context {U : Unicode}.

Ltac found := repeat rewrite in_app_iff; simpl; tauto.

Lemma hyphen_break_needs_break (m : text) :
  Matches re_hyphen_break m -> exists c, In c m /\ c = nl.
Proof.
  unfold re_hyphen_break. cbn [cat]. intros M.
  apply matches_seq in M as (a & r1 & -> & _ & M).
  apply matches_seq in M as (h & r2 & -> & _ & M).
  apply matches_seq in M as (b & r3 & -> & Mb & _).
  apply matches_chr in Mb as (c & -> & Hc). apply lit_true in Hc.
  exists c. split; [found|exact Hc].
Qed.

Lemma soft_break_needs_break (m : text) :
  Matches re_soft_break m -> exists c, In c m /\ c = nl.
Proof.
  unfold re_soft_break. cbn [cat]. intros M.
  apply matches_seq in M as (a & r1 & -> & _ & M).
  apply matches_seq in M as (b & r2 & -> & Mb & _).
  apply matches_chr in Mb as (c & -> & Hc). apply lit_true in Hc.
  exists c. split; [found|exact Hc].
Qed.

Lemma page_number_needs_digit (m : text) :
  Matches re_page_number m -> exists c, In c m /\ isdecimal c = true.
Proof.
  unfold re_page_number. cbn [cat]. intros M.
  apply matches_seq in M as (a & r1 & -> & _ & M).
  apply matches_seq in M as (ws & r2 & -> & _ & M).
  apply matches_seq in M as (d & r3 & -> & Md & _).
  apply matches_rep_chr_first in Md as (c & Hin & Hc).
  exists c. split; [found|exact Hc].
Qed.

Lemma page_label_needs_digit (m : text) :
  Matches re_page_label m -> exists c, In c m /\ isdecimal c = true.
Proof.
  unfold re_page_label. cbn [cat]. intros M.
  apply matches_seq in M as (a & r1 & -> & _ & M).
  apply matches_seq in M as (ws & d & -> & _ & Md).
  apply matches_rep_chr_first in Md as (c & Hin & Hc).
  exists c. split; [found|exact Hc].
Qed.

Lemma www_footer_needs_bar (m : text) :
  Matches re_www_footer m -> exists c, In c m /\ c = 124%N.
Proof.
  unfold re_www_footer. cbn [cat]. intros M.
  apply matches_seq in M as (a & r1 & -> & Ma & _).
  apply matches_chr in Ma as (c & -> & Hc). apply lit_true in Hc.
  exists c. split; [found|exact Hc].
Qed.

Lemma url_needs_slash (m : text) :
  Matches re_url m -> exists c, In c m /\ c = 47%N.
Proof.
  unfold re_url. cbn [cat]. intros M.
  apply matches_seq in M as (a & r1 & -> & _ & M).
  apply matches_seq in M as (s & r2 & -> & _ & M).
  apply matches_seq in M as (b & r3 & -> & Mb & _).
  apply matches_word in Mb. subst b.
  exists 47%N. split; [|reflexivity].
  change (py "://") with [58%N; 47%N; 47%N]. found.
Qed.

Lemma plain_char_inv (y : text) (c : cp) :
  forallb plain_char y = true -> In c y ->
  c <> nl /\ isdecimal c <> true /\ c <> 124%N /\ c <> 47%N.
Proof.
  intros H Hin. rewrite forallb_forall in H. specialize (H c Hin).
  unfold plain_char in H.
  apply andb_true_iff in H as [H H4]. apply andb_true_iff in H as [H H3].
  apply andb_true_iff in H as [H1 H2].
  repeat split.
  - intros ->. discriminate H1.
  - intros E. rewrite E in H2. discriminate.
  - intros ->. discriminate H3.
  - intros ->. discriminate H4.
Qed.

Lemma unwrap_and_scrub_fixed (y : text) :
  forallb plain_char y = true -> unwrap_and_scrub y = y.
Proof.
  intros H. unfold unwrap_and_scrub.
  rewrite (@re_sub_absent (fun c => c = nl) re_hyphen_break);
    [|exact hyphen_break_needs_break
     |intros c Hc; apply (@plain_char_inv _ _ H Hc)].
  rewrite (@re_sub_absent (fun c => c = nl) re_soft_break);
    [|exact soft_break_needs_break
     |intros c Hc; apply (@plain_char_inv _ _ H Hc)].
  rewrite (@re_sub_absent (fun c => isdecimal c = true) re_page_number);
    [|exact page_number_needs_digit
     |intros c Hc; apply (@plain_char_inv _ _ H Hc)].
  rewrite (@re_sub_absent (fun c => isdecimal c = true) re_page_label);
    [|exact page_label_needs_digit
     |intros c Hc; apply (@plain_char_inv _ _ H Hc)].
  rewrite (@re_sub_absent (fun c => c = 124%N) re_www_footer);
    [|exact www_footer_needs_bar
     |intros c Hc; apply (@plain_char_inv _ _ H Hc)].
  apply (@re_sub_absent (fun c => c = 47%N) re_url);
    [exact url_needs_slash|intros c Hc; apply (@plain_char_inv _ _ H Hc)].
Qed.
End Idempotence.

Lemma lead_space_needs_break (m : text) :
  Matches re_lead_space m -> exists c, In c m /\ c = nl.
Proof.
  unfold re_lead_space. cbn [cat]. intros M.
  apply matches_seq in M as (a & b & -> & Ma & _).
  apply matches_chr in Ma as (c & -> & Hc). apply lit_true in Hc.
  exists c. split; [now left|exact Hc].
Qed.

Lemma trail_space_needs_break (m : text) :
  Matches re_trail_space m -> exists c, In c m /\ c = nl.
Proof.
  unfold re_trail_space. cbn [cat]. intros M.
  apply matches_seq in M as (a & b & -> & _ & Mb).
  apply matches_chr in Mb as (c & -> & Hc). apply lit_true in Hc.
  exists c. split; [apply in_or_app; right; now left|exact Hc].
Qed.

Lemma blank_lines_need_break (m : text) :
  Matches re_blank_lines m -> exists c, In c m /\ c = nl.
Proof.
  unfold re_blank_lines, at_least. intros M.
  apply matches_rep_chr_first in M as (c & Hin & Hc). apply lit_true in Hc.
  eauto.
Qed.

Lemma normalize_whitespace_fixed (y : text) :
  single_spaced y = true -> ~ In nl y -> strip y = y ->
  normalize_whitespace y = y.
Proof.
  intros Hs Hn Hstrip. unfold normalize_whitespace.
  assert (Hnone : forall c, In c y -> ~ c = nl) by (intros c Hc ->; tauto).
  unfold re_sub at 5. rewrite (@hspaces_fixed _ Hs).
  rewrite (@re_sub_absent (fun c => c = nl) re_lead_space);
    [|exact lead_space_needs_break|exact Hnone].
  rewrite (@re_sub_absent (fun c => c = nl) re_trail_space);
    [|exact trail_space_needs_break|exact Hnone].
  rewrite (@re_sub_absent (fun c => c = nl) re_blank_lines);
    [|exact blank_lines_need_break|exact Hnone].
  rewrite (@hspaces2_fixed _ Hs). exact Hstrip.
Qed.

Lemma split_nl_single (y : text) : ~ In nl y -> split_nl y = [y].
Proof.
  induction y as [|c y IH]; [reflexivity|]. intros Hn. cbn [split_nl].
  destruct (cp_eqb c nl) eqn:E.
  - apply cp_eqb_eq in E. subst c. exfalso. apply Hn. now left.
  - rewrite IH; [reflexivity|]. intros H. apply Hn. now right.
Qed.

(** What the white-space normalization returns, when it holds no line
    break, is single-spaced and trimmed. *)
Lemma normalize_whitespace_shape (j : text) :
  lines_ok false j = true -> ~ In nl (normalize_whitespace j) ->
  single_spaced (normalize_whitespace j) = true.
Proof.
  intros Hok Hn.
  pose proof (hspaces_collapse j None 0) as [Hs _].
  fold (re_sub re_hspaces [Lit [space]] j) in Hs.
  unfold normalize_whitespace in *.
  set (t1 := re_sub re_hspaces [Lit [space]] j) in *.
  assert (Hok1 : lines_ok false t1 = true)
    by (unfold t1; now rewrite hspaces_lines).
  assert (Hn1 : ~ In nl t1).
  { intros H. apply Hn. apply strip_keeps_break.
    - rewrite hspaces2_lines, blank_lines_absent;
        rewrite trail_space_lines, lead_space_lines; exact Hok1.
    - apply re_sub_keeps_break.
      { intros m caps M. apply matches_rep_chr in M as (Hall & _).
        rewrite (filter_neg_all _ _ Hall). reflexivity. }
      rewrite blank_lines_absent
        by (rewrite trail_space_lines, lead_space_lines; exact Hok1).
      apply re_sub_keeps_break.
      { intros m caps M.
        apply matches_seq in M as (a & b & -> & Ma & Mb).
        apply matches_chr in Mb as (c & -> & Hc). apply lit_true in Hc as ->.
        apply matches_rep_chr in Ma as (Hall & _).
        rewrite filter_app, (filter_neg_all _ _ Hall). reflexivity. }
      apply re_sub_keeps_break; [|exact H].
      intros m caps M.
      apply matches_seq in M as (a & b & -> & Ma & Mb).
      apply matches_chr in Ma as (c & -> & Hc). apply lit_true in Hc as ->.
      apply matches_rep_chr in Mb as (Hall & _).
      rewrite filter_app, (filter_neg_all _ _ Hall). reflexivity. }
  assert (Hnone : forall c, In c t1 -> ~ c = nl) by (intros c Hc ->; tauto).
  rewrite (@re_sub_absent (fun c => c = nl) re_lead_space);
    [|exact lead_space_needs_break|exact Hnone].
  rewrite (@re_sub_absent (fun c => c = nl) re_trail_space);
    [|exact trail_space_needs_break|exact Hnone].
  rewrite (@re_sub_absent (fun c => c = nl) re_blank_lines);
    [|exact blank_lines_need_break|exact Hnone].
  rewrite (@hspaces2_fixed _ Hs). now apply single_spaced_strip.
Qed.

Lemma normalize_whitespace_trimmed (j : text) :
  strip (normalize_whitespace j) = normalize_whitespace j.
Proof. unfold normalize_whitespace. apply strip_strip. Qed.

(** A first case: the cleaner returns its own result unchanged when that
    result is a single line without a decimal digit, a vertical bar or a
    slash. *)
Lemma clean_pdf_text_fixes_plain_results {U : Unicode} (x : text) :
  let y := clean_pdf_text x in
  forallb plain_char y = true -> clean_pdf_text y = y.
Proof.
  intros y Hplain.
  assert (Hn : ~ In nl y)
    by (intros H; destruct (@plain_char_inv _ _ _ Hplain H) as [E _]; congruence).
  assert (Hshape : single_spaced y = true /\ strip y = y).
  { unfold y, clean_pdf_text in *.
    split; [|apply normalize_whitespace_trimmed].
    destruct (dedup_from_spec (split_nl (unwrap_and_scrub x)) [])
      as (_ & Hin & _).
    fold (dedup (split_nl (unwrap_and_scrub x))) in Hin.
    destruct (dedup (split_nl (unwrap_and_scrub x))) as [|l ls] eqn:E;
      [reflexivity|].
    apply normalize_whitespace_shape; [|exact Hn].
    apply lines_ok_join; [discriminate|].
    apply Forall_forall. intros z Hz.
    destruct (Hin z Hz) as (_ & Hb & Hl). split; [exact Hb|].
    exact (split_nl_no_break _ _ Hl). }
  destruct Hshape as [Hs Hstrip].
  unfold clean_pdf_text at 1.
  rewrite (@unwrap_and_scrub_fixed _ _ Hplain), (@split_nl_single _ Hn).
  unfold dedup. cbn [dedup_from]. rewrite Hstrip.
  destruct y as [|c y'] eqn:Ey; [reflexivity|].
  cbn [is_empty_text negb mem existsb andb dedup_from join_nl].
  rewrite <- Ey in *. now apply normalize_whitespace_fixed.
Qed.

(** C2 as stated fails: a blank line between two lines is dropped by the
    first run, and the second run then joins the two lines. *)
Lemma clean_pdf_text_not_idempotent :
  clean_pdf_text (py "a\n\nb") = py "a\nb"
  /\ clean_pdf_text (clean_pdf_text (py "a\n\nb")) = py "a b"
  /\ clean_pdf_text (clean_pdf_text (py "a\n\nb"))
     <> clean_pdf_text (py "a\n\nb").
Proof.
  split; [vm_compute; reflexivity|]. split; [vm_compute; reflexivity|].
  intros H. apply text_eqb_eq in H. vm_compute in H. discriminate.
Qed.

(** * Further properties *)

(** ** The model client: every way a call can go *)

Section QueryOllamaRuns.
Variable endpoint : history -> request -> outcome.

Lemma failed_rounds_next (rq : request) (h : history) (k : nat) :
  h ++ failed_rounds rq (S k) = ((h ++ [Post rq]) ++ [Sleep 1]) ++ failed_rounds rq k.
Proof. cbn [failed_rounds]. repeat rewrite <- app_assoc. reflexivity. Qed.

(** What a run of the loop does: it stops at the first try [k] that is
    answered or that is the last one allowed. *)
Lemma attempts_run (rq : request) (retries : Z) (todo : nat) :
  forall (attempt : Z) (h : history),
    (exists k,
        (k < todo)%nat
        /\ snd (attempts endpoint todo attempt retries rq h)
           = h ++ failed_rounds rq k ++ [Post rq]
        /\ (forall i, (i < k)%nat ->
              (attempt + Z.of_nat i <> retries - 1)%Z
              /\ exists e, endpoint (h ++ failed_rounds rq i) rq = Raised e)
        /\ ((exists payload,
                endpoint (h ++ failed_rounds rq k) rq = Answer payload
                /\ fst (attempts endpoint todo attempt retries rq h)
                   = Some (strip payload))
            \/ (exists e,
                   endpoint (h ++ failed_rounds rq k) rq = Raised e
                   /\ (attempt + Z.of_nat k = retries - 1)%Z
                   /\ fst (attempts endpoint todo attempt retries rq h)
                      = Some (py "[ERROR] " ++ e))))
    \/ (attempts endpoint todo attempt retries rq h
        = (None, h ++ failed_rounds rq todo)
        /\ forall i, (i < todo)%nat ->
             (attempt + Z.of_nat i <> retries - 1)%Z).
Proof.
  induction todo as [|todo IH]; intros attempt h.
  - right. split.
    + cbn. rewrite app_nil_r. reflexivity.
    + intros i Hi. lia.
  - destruct (endpoint h rq) as [payload|e] eqn:He.
    + left. exists 0%nat. cbn [failed_rounds]. rewrite app_nil_r.
      cbn [attempts]. unfold bind, post. rewrite He. cbn.
      split; [lia|]. split; [reflexivity|]. split.
      * intros i Hi. lia.
      * left. exists payload. split; reflexivity.
    + rewrite (attempts_failed endpoint rq h _ _ _ He).
      destruct (attempt =? retries - 1)%Z eqn:Hlast.
      * left. exists 0%nat. cbn [failed_rounds]. rewrite app_nil_r. cbn [fst snd].
        split; [lia|]. split; [reflexivity|]. split.
        -- intros i Hi. lia.
        -- right. exists e. apply Z.eqb_eq in Hlast.
           split; [exact He|]. split; [lia|reflexivity].
      * apply Z.eqb_neq in Hlast.
        destruct (IH (attempt + 1)%Z ((h ++ [Post rq]) ++ [Sleep 1]))
          as [(k & Hk & Hh & Hbefore & Hend)|(Hnone & Hnever)].
        -- left. exists (S k). split; [lia|]. split.
           ++ rewrite Hh. rewrite app_assoc. rewrite <- failed_rounds_next.
              rewrite <- app_assoc. reflexivity.
           ++ split.
              ** intros [|i] Hi.
                 --- cbn [failed_rounds]. rewrite app_nil_r.
                     split; [lia|]. exists e. exact He.
                 --- rewrite failed_rounds_next.
                     destruct (Hbefore i ltac:(lia)) as (Hne & Hr).
                     split; [lia|exact Hr].
              ** rewrite failed_rounds_next.
                 destruct Hend as [(payload & Ha & Hr)|(e' & Ha & Hk' & Hr)].
                 --- left. exists payload. split; assumption.
                 --- right. exists e'. split; [exact Ha|]. split; [lia|exact Hr].
        -- right. split.
           ++ rewrite Hnone. rewrite failed_rounds_next. reflexivity.
           ++ intros [|i] Hi; [lia|]. specialize (Hnever i ltac:(lia)). lia.
Qed.

(** A run in which the first [k] tries fail and the next is answered. *)
Lemma attempts_answer (rq : request) (retries : Z) (payload : text) (k : nat) :
  forall (todo : nat) (attempt : Z) (h : history),
    (k < todo)%nat ->
    (attempt + Z.of_nat k < retries)%Z ->
    (forall i, (i < k)%nat ->
       exists e, endpoint (h ++ failed_rounds rq i) rq = Raised e) ->
    endpoint (h ++ failed_rounds rq k) rq = Answer payload ->
    attempts endpoint todo attempt retries rq h
    = (Some (strip payload), h ++ failed_rounds rq k ++ [Post rq]).
Proof.
  induction k as [|k IH]; intros todo attempt h Hk Hlt Hfail Hans;
    (destruct todo as [|todo]; [lia|]).
  - cbn [failed_rounds] in *. rewrite app_nil_r in Hans.
    cbn [attempts]. unfold bind, post. rewrite Hans. reflexivity.
  - destruct (Hfail 0%nat ltac:(lia)) as (e & He).
    cbn [failed_rounds] in He. rewrite app_nil_r in He.
    rewrite (attempts_failed endpoint rq h _ _ _ He).
    replace (attempt =? retries - 1)%Z with false
      by (symmetry; apply Z.eqb_neq; lia).
    rewrite (IH todo (attempt + 1)%Z ((h ++ [Post rq]) ++ [Sleep 1])).
    + rewrite app_assoc. rewrite <- failed_rounds_next.
      rewrite <- app_assoc. reflexivity.
    + lia.
    + lia.
    + intros i Hi. rewrite <- failed_rounds_next. apply Hfail. lia.
    + rewrite <- failed_rounds_next. exact Hans.
Qed.

(** X1.  Whatever the server does, a call of [query_ollama] that is
    allowed at least one try posts the request at most [retries] times,
    waits one second between two posts and not after the last, and
    returns a text: the trimmed answer of the first try that succeeds,
    or, when the last allowed try fails too, [[ERROR] ] followed by its
    message.  With [retries] at most zero nothing is sent and the result
    is [None]. *)
Theorem query_ollama_every_run
        (prompt model : text) (max_tokens retries : Z) (h : history) :
  let rq := Request model prompt max_tokens in
  let run := query_ollama endpoint prompt model max_tokens retries h in
  if (retries <=? 0)%Z then run = (None, h)
  else
    exists k,
      (Z.of_nat k < retries)%Z
      /\ snd run = h ++ failed_rounds rq k ++ [Post rq]
      /\ (forall i, (i < k)%nat ->
            exists e, endpoint (h ++ failed_rounds rq i) rq = Raised e)
      /\ ((exists payload,
              endpoint (h ++ failed_rounds rq k) rq = Answer payload
              /\ fst run = Some (strip payload))
          \/ (exists e,
                 endpoint (h ++ failed_rounds rq k) rq = Raised e
                 /\ Z.of_nat k = (retries - 1)%Z
                 /\ fst run = Some (py "[ERROR] " ++ e))).
Proof.
  intros rq run. unfold run, query_ollama. fold rq.
  destruct (retries <=? 0)%Z eqn:Hr.
  - apply Z.leb_le in Hr.
    replace (Z.to_nat retries) with 0%nat by lia. reflexivity.
  - apply Z.leb_gt in Hr.
    destruct (attempts_run rq retries (Z.to_nat retries) 0%Z h)
      as [(k & Hk & Hh & Hbefore & Hend)|(_ & Hnever)].
    + exists k. split; [lia|]. split; [exact Hh|]. split.
      * intros i Hi. apply (Hbefore i Hi).
      * destruct Hend as [(payload & Ha & Hres)|(e & Ha & Hk' & Hres)].
        -- left. exists payload. split; assumption.
        -- right. exists e. split; [exact Ha|]. split; [lia|exact Hres].
    + exfalso. apply (Hnever (Z.to_nat retries - 1)%nat); lia.
Qed.

(** X2.  When the first [k] tries fail and the next one is answered, with
    [k] below [retries], [query_ollama] returns the answer without the
    white space around it; it has posted the request [k + 1] times with a
    pause of one second after each failure, and sends nothing more. *)
Theorem query_ollama_first_answer
        (prompt model : text) (max_tokens retries : Z) (h : history)
        (k : nat) (payload : text) :
  let rq := Request model prompt max_tokens in
  (Z.of_nat k < retries)%Z ->
  (forall i, (i < k)%nat ->
     exists e, endpoint (h ++ failed_rounds rq i) rq = Raised e) ->
  endpoint (h ++ failed_rounds rq k) rq = Answer payload ->
  query_ollama endpoint prompt model max_tokens retries h
  = (Some (strip payload), h ++ failed_rounds rq k ++ [Post rq]).
Proof.
  intros rq Hk Hfail Hans. unfold query_ollama. fold rq.
  apply attempts_answer; try assumption; lia.
Qed.
End QueryOllamaRuns.

Lemma query_ollama_first_answer_witness :
  let rq := Request (py "qwen3:8b") (py "Summarize.") 32768 in
  let endpoint := fun (h : history) (_ : request) =>
                    match h with
                    | [] => Raised (py "timed out")
                    | _ => Answer (py "  {}\n")
                    end in
  query_ollama endpoint (py "Summarize.") (py "qwen3:8b") 32768 3 []
  = (Some (py "{}"), [Post rq; Sleep 1; Post rq]).
Proof.
  intros rq endpoint.
  apply (@query_ollama_first_answer endpoint (py "Summarize.") (py "qwen3:8b")
           32768 3 [] 1%nat (py "  {}\n")).
  - lia.
  - intros i Hi. assert (i = 0)%nat by lia. subst i.
    exists (py "timed out"). reflexivity.
  - reflexivity.
Defined.

(** ** The response recoverer: what reaches the decoder *)

Lemma in_firstn (c : cp) (n : nat) (t : text) : In c (firstn n t) -> In c t.
Proof.
  revert n; induction t as [|x t IH]; intros [|n]; simpl; try tauto.
  intros [H|H]; [now left|right; exact (IH _ H)].
Qed.

Lemma in_skipn (c : cp) (n : nat) (t : text) : In c (skipn n t) -> In c t.
Proof.
  revert n; induction t as [|x t IH]; intros [|n]; simpl; try tauto.
  intros H; right; exact (IH _ H).
Qed.

Lemma in_slice (c : cp) (t : text) (a b : Z) : In c (slice t a b) -> In c t.
Proof. unfold slice. intros H. apply in_firstn in H. now apply in_skipn in H. Qed.

Lemma in_lstrip (c : cp) (t : text) : In c (lstrip t) -> In c t.
Proof.
  destruct (lstrip_suffix t) as [a Ha]. intros H. rewrite Ha.
  apply in_or_app. now right.
Qed.

Lemma in_rstrip (c : cp) (t : text) : In c (rstrip t) -> In c t.
Proof.
  destruct (rstrip_prefix t) as [b Hb]. intros H. rewrite Hb.
  apply in_or_app. now left.
Qed.

Lemma in_strip (c : cp) (t : text) : In c (strip t) -> In c t.
Proof. unfold strip. intros H. apply in_rstrip in H. now apply in_lstrip in H. Qed.

Lemma in_replace_from (c : cp) (old new : text) (t : text) (skip : nat) :
  In c (replace_from old new skip t) -> In c t \/ In c new.
Proof.
  revert skip; induction t as [|x t IH]; intros skip; simpl; [tauto|].
  destruct skip as [|n].
  - destruct (starts_with old (x :: t)).
    + intros H. apply in_app_or in H as [H|H]; [now right|].
      destruct (IH _ H); tauto.
    + intros [H|H]; [now left; left|]. destruct (IH _ H); tauto.
  - intros H. destruct (IH _ H); tauto.
Qed.

(** The tidied reply holds no character that the reply does not hold,
    the line break apart. *)
Lemma in_tidy_reply (c : cp) (reply : text) :
  In c (tidy_reply reply) -> In c reply \/ c = nl.
Proof.
  unfold tidy_reply, strip_thoughts, str_replace, re_sub. intros H.
  apply in_strip in H. apply in_replace_from in H as [H|H].
  - left. apply in_strip in H. now apply sub_erase_in in H.
  - right. destruct H as [H|[]]. now symmetry.
Qed.

Lemma find_absent (c : cp) (t : text) : ~ In c t -> find c t = (-1)%Z.
Proof.
  intros Hn. destruct (find_spec c t) as [[H _]|(a & b & -> & _)]; [exact H|].
  exfalso. apply Hn. apply in_or_app. right. now left.
Qed.

Lemma rfind_absent (c : cp) (t : text) : ~ In c t -> rfind c t = (-1)%Z.
Proof.
  intros Hn. destruct (rfind_spec c t) as [[H _]|(a & b & -> & _)]; [exact H|].
  exfalso. apply Hn. apply in_or_app. right. now left.
Qed.

Lemma cp_eqb_neq (a b : cp) : a <> b -> cp_eqb a b = false.
Proof.
  intros H. destruct (cp_eqb a b) eqn:E; [|reflexivity].
  apply cp_eqb_eq in E. contradiction.
Qed.

Lemma cp_eqb_refl (a : cp) : cp_eqb a a = true.
Proof. now apply cp_eqb_eq. Qed.

Lemma not_in_existsb (c : cp) (t : text) :
  existsb (cp_eqb c) t = false -> ~ In c t.
Proof.
  intros H Hin. assert (E : existsb (cp_eqb c) t = true).
  { apply existsb_exists. exists c. split; [exact Hin|apply cp_eqb_refl]. }
  congruence.
Qed.

(** The lowest index of a character that the part before does not hold. *)
Lemma find_first (c : cp) (a b : text) :
  ~ In c a -> find c (a ++ c :: b) = Z.of_nat (length a).
Proof.
  induction a as [|x a IH]; intros Hn.
  - simpl. now rewrite cp_eqb_refl.
  - cbn [app find]. rewrite cp_eqb_neq by (intros ->; apply Hn; now left).
    rewrite IH by (intros H; apply Hn; now right).
    destruct (Z.of_nat (length a) <? 0)%Z eqn:L.
    + apply Z.ltb_lt in L. lia.
    + simpl length. lia.
Qed.

(** The highest index of a character that the part after does not hold. *)
Lemma rfind_last (c : cp) (a b : text) :
  ~ In c b -> rfind c (a ++ c :: b) = Z.of_nat (length a).
Proof.
  intros Hn. induction a as [|x a IH].
  - cbn [app rfind]. rewrite (rfind_absent _ _ Hn).
    change (0 <=? -1)%Z with false. cbv iota. now rewrite cp_eqb_refl.
  - cbn [app rfind]. rewrite IH.
    destruct (0 <=? Z.of_nat (length a))%Z eqn:L.
    + simpl length. lia.
    + apply Z.leb_gt in L. lia.
Qed.

Lemma firstn_app_exact (a b : text) : firstn (length a) (a ++ b) = a.
Proof. induction a; simpl; [now destruct b|now f_equal]. Qed.

Lemma slice_middle (x y z : text) :
  slice (x ++ y ++ z) (Z.of_nat (length x)) (Z.of_nat (length x + length y)) = y.
Proof.
  unfold slice, clip. repeat rewrite length_app.
  destruct (Z.of_nat (length x) <? 0)%Z eqn:L1;
    [apply Z.ltb_lt in L1; lia|].
  destruct (Z.of_nat (length x + length y) <? 0)%Z eqn:L2;
    [apply Z.ltb_lt in L2; lia|].
  replace (Z.to_nat (Z.min (Z.of_nat (length x))
                           (Z.of_nat (length x + (length y + length z)))))
    with (length x) by lia.
  replace (Z.to_nat (Z.min (Z.of_nat (length x + length y))
                           (Z.of_nat (length x + (length y + length z)))
                     - Z.min (Z.of_nat (length x))
                             (Z.of_nat (length x + (length y + length z)))))
    with (length y) by lia.
  rewrite skipn_app_exact. apply firstn_app_exact.
Qed.

Lemma lstrip_app_mark (a : text) (c : cp) (r : text) :
  isspace c = false -> lstrip (a ++ c :: r) = lstrip a ++ c :: r.
Proof.
  intros Hc. induction a as [|x a IH]; simpl.
  - now rewrite Hc.
  - destruct (isspace x); [exact IH|reflexivity].
Qed.

Lemma rstrip_app_mark (a : text) (c : cp) (r : text) :
  isspace c = false -> rstrip (a ++ c :: r) = a ++ c :: rstrip r.
Proof.
  intros Hc. induction a as [|x a IH].
  - cbn [app rstrip]. destruct (rstrip r); [now rewrite Hc|reflexivity].
  - cbn [app rstrip]. rewrite IH. destruct a; reflexivity.
Qed.

(** Trimming a text that holds an object between braces leaves the object
    as it is. *)
Lemma strip_around_braces (pre body post : text) :
  strip (pre ++ 123%N :: body ++ 125%N :: post)
  = lstrip pre ++ (123%N :: body ++ [125%N]) ++ rstrip post.
Proof.
  unfold strip. rewrite lstrip_app_mark by reflexivity.
  change (lstrip pre ++ 123%N :: body ++ 125%N :: post)
    with (lstrip pre ++ (123%N :: body) ++ 125%N :: post).
  rewrite app_assoc. rewrite rstrip_app_mark by reflexivity.
  repeat rewrite <- app_assoc. cbn [app]. repeat rewrite <- app_assoc.
  reflexivity.
Qed.

Lemma json_block_between (pre body post : text) :
  ~ In 123%N pre -> ~ In 125%N post ->
  json_block (pre ++ (123%N :: body ++ [125%N]) ++ post)
  = 123%N :: body ++ [125%N].
Proof.
  intros Hpre Hpost. unfold json_block.
  assert (Hfind : find 123 (pre ++ (123%N :: body ++ [125%N]) ++ post)
                  = Z.of_nat (length pre)).
  { cbn [app]. apply find_first. exact Hpre. }
  assert (Hrfind : (rfind 125 (pre ++ (123%N :: body ++ [125%N]) ++ post) + 1)%Z
                   = Z.of_nat (length pre + length (123%N :: body ++ [125%N]))).
  { assert (E : pre ++ (123%N :: body ++ [125%N]) ++ post
                = (pre ++ 123%N :: body) ++ 125%N :: post)
      by (cbn [app]; repeat rewrite <- app_assoc; reflexivity).
    rewrite E.
    match goal with
    | |- (?r + 1)%Z = _ =>
      replace r with (Z.of_nat (length (pre ++ 123%N :: body)))
        by (symmetry; exact (@rfind_last 125%N (pre ++ 123%N :: body) post Hpost))
    end.
    rewrite length_app. cbn [length]. rewrite length_app. cbn [length]. lia. }
  rewrite Hfind, Hrfind. apply slice_middle.
Qed.

Lemma starts_with_prefix (p t : text) :
  starts_with p t = true -> exists b, t = p ++ b.
Proof.
  revert t; induction p as [|x p IH]; intros t H.
  - now exists t.
  - destruct t as [|y t]; [discriminate|]. simpl in H.
    apply andb_true_iff in H as [Hx Hp]. apply cp_eqb_eq in Hx as ->.
    destruct (IH _ Hp) as [b ->]. now exists b.
Qed.

Lemma occurs_tail (p : text) (c : cp) (t : text) : Occurs p t -> Occurs p (c :: t).
Proof. intros (a & b & ->). now exists (c :: a), b. Qed.

(** [s.replace(old, new)] gives [s] back when [old] does not occur. *)
Lemma replace_from_absent (old new t : text) :
  ~ Occurs old t -> replace_from old new 0 t = t.
Proof.
  induction t as [|c t IH]; intros Hn; [reflexivity|].
  cbn [replace_from].
  destruct (starts_with old (c :: t)) eqn:E.
  - exfalso. apply Hn. apply starts_with_prefix in E as [b ->].
    now exists [], b.
  - f_equal. apply IH. intros H. apply Hn. now apply occurs_tail.
Qed.

Lemma think_match_shape (m : text) :
  Matches re_think m -> exists x, m = py "<think>" ++ x ++ py "</think>".
Proof.
  intros H. unfold re_think in H. cbn [cat] in H.
  apply matches_seq in H as (a & b & -> & Ha & H).
  apply matches_seq in H as (x & c & -> & _ & Hc).
  apply matches_word in Ha as ->. apply matches_word in Hc as ->.
  now exists x.
Qed.

(** A reply without the opening tag loses nothing but the white space
    around it. *)
Lemma strip_thoughts_no_tag (reply : text) :
  ~ Occurs (py "<think>") reply -> strip_thoughts reply = strip reply.
Proof.
  intros Hn. unfold strip_thoughts, re_sub.
  rewrite sub_from_no_match; [reflexivity|].
  intros a m b -> Hm. exfalso. apply Hn.
  apply think_match_shape in Hm as [x ->].
  exists a, (x ++ py "</think>" ++ b). repeat rewrite <- app_assoc. reflexivity.
Qed.

Lemma tidy_reply_plain (reply : text) :
  ~ Occurs (py "<think>") reply -> ~ Occurs (py "\\n") reply ->
  tidy_reply reply = strip reply.
Proof.
  intros Ht He. unfold tidy_reply. rewrite strip_thoughts_no_tag by exact Ht.
  unfold str_replace. rewrite replace_from_absent.
  - apply strip_strip.
  - intros H. apply He. now apply occurs_strip in H.
Qed.

(** X3.  A reply that holds no opening brace, or no closing brace, is
    recovered as the empty mapping: so is every [[ERROR] ...] text of the
    model client whose message has no brace. *)
Theorem clean_json_needs_braces {M : Host} (reply : text) :
  ~ In 123%N reply \/ ~ In 125%N reply -> clean_json reply = JObject [].
Proof.
  intros H. unfold clean_json.
  assert (Hblock : json_block (tidy_reply reply) = []
                   \/ json_block (tidy_reply reply) = [125%N]).
  { destruct H as [H|H].
    - destruct (json_block_shape (tidy_reply reply)) as [E|[E|[s E]]];
        [now left|now right|].
      exfalso. apply H.
      assert (Hin : In 123%N (json_block (tidy_reply reply)))
        by (rewrite E; now left).
      apply in_slice in Hin. apply in_tidy_reply in Hin as [Hin|Hin];
        [exact Hin|discriminate Hin].
    - left. unfold json_block. rewrite rfind_absent.
      + unfold slice, clip. change (-1 + 1 <? 0)%Z with false. cbv iota.
        match goal with |- firstn ?n _ = _ => replace n with 0%nat end;
          [reflexivity|].
        change (-1 + 1)%Z with 0%Z.
        destruct (find 123 (tidy_reply reply) <? 0)%Z eqn:L;
          [lia|apply Z.ltb_ge in L; lia].
      + intros Hin. apply in_tidy_reply in Hin as [Hin|Hin];
          [exact (H Hin)|discriminate Hin]. }
  destruct Hblock as [-> | ->]; reflexivity.
Qed.

Lemma clean_json_needs_braces_witness :
  clean_json (py "[ERROR] timed out") = JObject [].
Proof.
  apply (@clean_json_needs_braces quiet_host (py "[ERROR] timed out")).
  left. vm_compute. intuition discriminate.
Defined.

(** X4.  When a reply holds an object in braces with prose before it
    that has no opening brace and prose after it that has no closing
    brace, and neither the opening tag of a reasoning block nor a
    backslash followed by [n] occurs in it, the decoder is handed exactly
    the object, braces included, and [clean_json] returns what [json.loads]
    makes of it (the empty mapping if it does not parse). *)
Theorem clean_json_finds_the_object {M : Host} (pre body post : text) :
  let reply := pre ++ 123%N :: body ++ 125%N :: post in
  ~ In 123%N pre -> ~ In 125%N post ->
  ~ Occurs (py "<think>") reply -> ~ Occurs (py "\\n") reply ->
  json_block (tidy_reply reply) = 123%N :: body ++ [125%N]
  /\ clean_json reply
     = match json_loads (123%N :: body ++ [125%N]) with
       | Some parsed => parsed
       | None => JObject []
       end.
Proof.
  intros reply Hpre Hpost Ht He.
  assert (Hblock : json_block (tidy_reply reply) = 123%N :: body ++ [125%N]).
  { rewrite (tidy_reply_plain Ht He). unfold reply.
    rewrite strip_around_braces. apply json_block_between.
    - intros H. apply Hpre. now apply in_lstrip in H.
    - intros H. apply Hpost. now apply in_rstrip in H. }
  split; [exact Hblock|].
  unfold clean_json. rewrite Hblock. reflexivity.
Qed.

Lemma clean_json_finds_the_object_witness :
  clean_json (py "Here is the summary:\n{\x22doi\x22: \x2210.1/x\x22}\nDone.")
  = JObject [(py "doi", JString (py "10.1/x"))].
Proof.
  destruct (@clean_json_finds_the_object quiet_host
              (py "Here is the summary:\n") (py "\x22doi\x22: \x2210.1/x\x22")
              (py "\nDone.")) as [_ H].
  - vm_compute. intuition discriminate.
  - vm_compute. intuition discriminate.
  - intros (a & b & E).
    assert (Hin : In 60%N (py "Here is the summary:\n{\x22doi\x22: \x2210.1/x\x22}\nDone.")).
    { change (py "Here is the summary:\n" ++ 123%N :: py "\x22doi\x22: \x2210.1/x\x22" ++ 125%N :: py "\nDone.")
        with (py "Here is the summary:\n{\x22doi\x22: \x2210.1/x\x22}\nDone.") in E.
      rewrite E. apply in_or_app. right. now left. }
    vm_compute in Hin. intuition discriminate.
  - intros (a & b & E).
    assert (Hin : In 92%N (py "Here is the summary:\n{\x22doi\x22: \x2210.1/x\x22}\nDone.")).
    { change (py "Here is the summary:\n" ++ 123%N :: py "\x22doi\x22: \x2210.1/x\x22" ++ 125%N :: py "\nDone.")
        with (py "Here is the summary:\n{\x22doi\x22: \x2210.1/x\x22}\nDone.") in E.
      rewrite E. apply in_or_app. right. now left. }
    vm_compute in Hin. intuition discriminate.
  - exact H.
Defined.

(** ** The response recoverer: an escaped line break

    The decoder on a reply with one field. *)

Lemma json_plain_inv (s : text) (c : cp) :
  json_plain s = true -> In c s ->
  N.leb c 31 = false /\ cp_eqb c 34 = false /\ cp_eqb c 92 = false
  /\ cp_eqb c 60 = false.
Proof.
  intros H Hin. unfold json_plain in H. rewrite forallb_forall in H.
  specialize (H c Hin).
  apply andb_true_iff in H as [H H4]. apply andb_true_iff in H as [H H3].
  apply andb_true_iff in H as [H1 H2].
  apply negb_true_iff in H1, H2, H3, H4. auto.
Qed.

Lemma json_plain_cons (c : cp) (s : text) :
  json_plain (c :: s) = true ->
  (N.leb c 31 = false /\ cp_eqb c 34 = false /\ cp_eqb c 92 = false)
  /\ json_plain s = true.
Proof.
  intros H. split.
  - destruct (json_plain_inv (c :: s) c H (or_introl eq_refl)) as (A & B & C & _).
    auto.
  - unfold json_plain in *. cbn [forallb] in H.
    now apply andb_true_iff in H as [_ H].
Qed.

(** A string without escapes is read up to its closing quote. *)
Lemma scanstring_plain (v rest : text) :
  json_plain v = true -> scanstring (v ++ 34%N :: rest) = Some (v, rest).
Proof.
  induction v as [|c v IH]; intros H.
  - reflexivity.
  - apply json_plain_cons in H as [(H1 & H2 & H3) H].
    cbn [app scanstring]. rewrite H1, H2, H3. cbn [negb].
    rewrite (IH H). reflexivity.
Qed.

(** The escape of a line break is read as a line break. *)
Lemma scanstring_escape (v1 v2 rest : text) :
  json_plain v1 = true -> json_plain v2 = true ->
  scanstring (v1 ++ 92%N :: 110%N :: v2 ++ 34%N :: rest)
  = Some (v1 ++ 10%N :: v2, rest).
Proof.
  induction v1 as [|c v IH]; intros H1 H2.
  - cbn [app scanstring].
    change (cp_eqb 92 34) with false. change (N.leb 92 31) with false.
    change (cp_eqb 92 92) with true. change (cp_eqb 110 117) with false.
    cbn [negb]. change (backslash 110) with (Some 10%N).
    rewrite (scanstring_plain _ rest H2). reflexivity.
  - apply json_plain_cons in H1 as [(A & B & C) H1].
    cbn [app scanstring]. rewrite A, B, C. cbn [negb].
    rewrite (IH H1 H2). reflexivity.
Qed.

(** A raw line break inside a string is an error. *)
Lemma scanstring_break (v1 rest : text) :
  json_plain v1 = true -> scanstring (v1 ++ 10%N :: rest) = None.
Proof.
  induction v1 as [|c v IH]; intros H1.
  - reflexivity.
  - apply json_plain_cons in H1 as [(A & B & C) H1].
    cbn [app scanstring]. rewrite A, B, C. cbn [negb].
    rewrite (IH H1). reflexivity.
Qed.

Section OneField.
Context {M : Host}.

Lemma scan_once_string (f depth : nat) (s1 : text) :
  scan_once (S f) depth (34%N :: s1)
  = match scanstring s1 with
    | Some (str, r) => Some (JString str, r)
    | None => None
    end.
Proof. reflexivity. Qed.

Lemma scan_once_object (f inner : nat) (s2 : text) :
  scan_once (S f) (S inner) (123%N :: 34%N :: s2)
  = match object_items f inner [] (34%N :: s2) with
    | Some (d, r) => Some (JObject d, r)
    | None => None
    end.
Proof. reflexivity. Qed.

Lemma object_items_key (f depth : nat) (d : list (text * json)) (s1 : text) :
  object_items (S f) depth d (34%N :: s1)
  = match scanstring s1 with
    | None => None
    | Some (key, s2) =>
      match skip_ws s2 with
      | colon :: s3 =>
        if negb (cp_eqb colon 58) then None
        else match scan_once f depth (skip_ws s3) with
        | None => None
        | Some (value, s4) =>
          let d' := dict_set key value d in
          match skip_ws s4 with
          | c :: s5 =>
            if cp_eqb c 125 then Some (d', s5)
            else if cp_eqb c 44 then object_items f depth d' (skip_ws s5)
            else None
          | [] => None
          end
        end
      | [] => None
      end
    end.
Proof. reflexivity. Qed.

(** With no room for an object the decoder fails at the opening brace. *)
Lemma json_loads_no_room (body : text) :
  max_nesting = 0 -> json_loads (123%N :: body) = None.
Proof.
  intros H. unfold json_loads.
  change (starts_with [65279%N] (123%N :: body)) with false.
  cbv iota.
  change (skip_ws (123%N :: body)) with (123%N :: body).
  rewrite H. reflexivity.
Qed.

Lemma json_loads_object (inner : nat) (body : text) :
  max_nesting = S inner ->
  json_loads (123%N :: 34%N :: body)
  = match object_items (S (S (length body))) inner [] (34%N :: body) with
    | Some (d, r) => if is_empty_text (skip_ws r) then Some (JObject d) else None
    | None => None
    end.
Proof.
  intros H. unfold json_loads.
  change (starts_with [65279%N] (123%N :: 34%N :: body)) with false.
  cbv iota.
  change (skip_ws (123%N :: 34%N :: body)) with (123%N :: 34%N :: body).
  cbn [length]. rewrite H, scan_once_object.
  destruct (object_items (S (S (length body))) inner [] (34%N :: body))
    as [[d r]|]; reflexivity.
Qed.

Lemma one_field_chars (k v : text) :
  one_field k v
  = 123%N :: 34%N :: k ++ 34%N :: 58%N :: 32%N :: 34%N :: v ++ [34%N; 125%N].
Proof. reflexivity. Qed.

Ltac read_one_field Hk Hroom :=
  rewrite one_field_chars, (json_loads_object _ Hroom), object_items_key;
  rewrite (scanstring_plain _ _ Hk);
  match goal with
  | |- context [skip_ws (58%N :: 32%N :: 34%N :: ?r)] =>
    change (skip_ws (58%N :: 32%N :: 34%N :: r))
      with (58%N :: 32%N :: 34%N :: r);
    cbv iota; change (negb (cp_eqb 58 58)) with false; cbv iota;
    change (skip_ws (32%N :: 34%N :: r)) with (34%N :: r)
  end;
  rewrite length_app; cbn [length]; rewrite Nat.add_succ_r;
  rewrite scan_once_string.

(** Decoding the reply with one field comes down to reading the string
    of its value. *)
Lemma json_loads_one_field (k v str : text) :
  0 < max_nesting ->
  json_plain k = true ->
  scanstring (v ++ [34%N; 125%N]) = Some (str, [125%N]) ->
  json_loads (one_field k v) = Some (JObject [(k, JString str)]).
Proof.
  intros Hroom Hk E.
  destruct max_nesting as [|inner] eqn:Hn; [lia|].
  read_one_field Hk Hn. rewrite E. reflexivity.
Qed.

Lemma json_loads_one_field_fails (k v : text) :
  json_plain k = true ->
  scanstring (v ++ [34%N; 125%N]) = None ->
  json_loads (one_field k v) = None.
Proof.
  intros Hk E.
  destruct max_nesting as [|inner] eqn:Hn.
  - rewrite one_field_chars. now apply json_loads_no_room.
  - read_one_field Hk Hn. rewrite E. reflexivity.
Qed.
End OneField.

Lemma occurs_in (p t : text) (c : cp) : Occurs p t -> In c p -> In c t.
Proof.
  intros (a & b & ->) H. apply in_or_app. right. apply in_or_app. now left.
Qed.

Lemma json_plain_not_in (s : text) (c : cp) :
  json_plain s = true ->
  (N.leb c 31 || cp_eqb c 34 || cp_eqb c 92 || cp_eqb c 60) = true ->
  ~ In c s.
Proof.
  intros H Hc Hin.
  destruct (json_plain_inv s c H Hin) as (A & B & C & D).
  rewrite A, B, C, D in Hc. discriminate Hc.
Qed.

(** The reply with one field, as an object between its braces. *)
Lemma one_field_braces (k v : text) :
  one_field k v
  = [] ++ (123%N :: (34%N :: k ++ 34%N :: 58%N :: 32%N :: 34%N :: v ++ [34%N])
             ++ [125%N]) ++ [].
Proof.
  rewrite one_field_chars. cbn [app]. rewrite app_nil_r.
  repeat (rewrite <- app_assoc; cbn [app]). reflexivity.
Qed.

Lemma strip_one_field (k v : text) : strip (one_field k v) = one_field k v.
Proof.
  rewrite one_field_braces. cbn [app]. rewrite app_nil_r.
  set (body := k ++ 34%N :: 58%N :: 32%N :: 34%N :: v ++ [34%N]).
  change (strip ([] ++ 123%N :: (34%N :: body) ++ 125%N :: [])
          = 123%N :: (34%N :: body) ++ [125%N]).
  rewrite strip_around_braces. cbn [lstrip rstrip app]. rewrite app_nil_r.
  reflexivity.
Qed.

Lemma json_block_one_field (k v : text) :
  json_block (one_field k v) = one_field k v.
Proof.
  rewrite one_field_braces at 1. rewrite json_block_between.
  - rewrite one_field_braces. cbn [app]. now rewrite app_nil_r.
  - intros [].
  - intros [].
Qed.

(** [s.replace] copies what comes before the first backslash. *)
Lemma replace_escape_copy (a rest : text) :
  ~ In 92%N a ->
  replace_from (py "\\n") (py "\n") 0 (a ++ rest)
  = a ++ replace_from (py "\\n") (py "\n") 0 rest.
Proof.
  induction a as [|c a IH]; intros Hn; [reflexivity|].
  cbn [app replace_from].
  change (py "\\n") with [92%N; 110%N]. cbn [starts_with].
  rewrite (@cp_eqb_neq 92%N c) by (intros <-; apply Hn; now left).
  cbn [andb]. f_equal. apply IH. intros H. apply Hn. now right.
Qed.

Lemma replace_escape_here (rest : text) :
  replace_from (py "\\n") (py "\n") 0 (92%N :: 110%N :: rest)
  = 10%N :: replace_from (py "\\n") (py "\n") 0 rest.
Proof. reflexivity. Qed.

Lemma in_one_field_front (k : text) (c : cp) :
  In c (123%N :: 34%N :: k ++ [34%N; 58%N; 32%N; 34%N]) ->
  c = 123%N \/ c = 34%N \/ c = 58%N \/ c = 32%N \/ In c k.
Proof.
  intros [<-|[<-|H]]; auto.
  apply in_app_or in H as [H|[<-|[<-|[<-|[<-|[]]]]]]; auto 6.
Qed.

(** In a reply with one field whose value holds one escaped line break
    between plain texts, the replacement puts a line break in the place
    of the escape and changes nothing else. *)
Lemma replace_one_field (k v1 v2 : text) :
  json_plain k = true -> json_plain v1 = true -> json_plain v2 = true ->
  str_replace (one_field k (v1 ++ py "\\n" ++ v2)) (py "\\n") (py "\n")
  = one_field k (v1 ++ py "\n" ++ v2).
Proof.
  intros Hk H1 H2. unfold str_replace.
  assert (E : forall mid,
             one_field k (v1 ++ mid ++ v2)
             = (123%N :: 34%N :: k ++ [34%N; 58%N; 32%N; 34%N]) ++ v1 ++ mid
                 ++ v2 ++ [34%N; 125%N]).
  { intros mid. rewrite one_field_chars. cbn [app].
    repeat rewrite <- app_assoc. reflexivity. }
  rewrite (E (py "\\n")), (E (py "\n")).
  rewrite replace_escape_copy.
  2:{ intros H. apply in_one_field_front in H as [H|[H|[H|[H|H]]]];
        try discriminate H.
      revert H. apply json_plain_not_in; [exact Hk|reflexivity]. }
  rewrite replace_escape_copy
    by (apply json_plain_not_in; [exact H1|reflexivity]).
  change (py "\\n" ++ v2 ++ [34%N; 125%N])
    with (92%N :: 110%N :: v2 ++ [34%N; 125%N]).
  rewrite replace_escape_here.
  rewrite replace_escape_copy
    by (apply json_plain_not_in; [exact H2|reflexivity]).
  reflexivity.
Qed.

Lemma one_field_no_tag (k v : text) :
  json_plain k = true -> ~ In 60%N v -> ~ Occurs (py "<think>") (one_field k v).
Proof.
  intros Hk Hv H. apply (@occurs_in _ _ 60%N) in H; [|now left].
  rewrite one_field_chars in H.
  destruct H as [H|[H|H]]; try discriminate H.
  apply in_app_or in H as [H|[H|[H|[H|[H|H]]]]]; try discriminate H.
  - revert H. apply json_plain_not_in; [exact Hk|reflexivity].
  - apply in_app_or in H as [H|[H|[H|[]]]]; try discriminate H.
    exact (Hv H).
Qed.

(** C10.  Whatever the reply, no backslash followed by [n] reaches the
    decoder.  For a reply [{"k": "v1\nv2"}], one object whose only
    value is a string with such an escape between texts [v1] and [v2]
    without quotes, backslashes, control characters or [<], as is the key:
    decoding the reply as it stands gives the object with its field, the
    value holding a line break (the interpreter having room to enter one
    object); the recoverer turns the escape into a line
    break, so that the block it hands to the decoder holds a raw line
    break inside the string; decoding fails, and the recoverer returns the
    empty mapping. *)
Theorem clean_json_breaks_newline_escapes {M : Host} :
  (forall reply, ~ Occurs (py "\\n") (tidy_reply reply))
  /\ forall k v1 v2 : text,
       json_plain k = true -> json_plain v1 = true -> json_plain v2 = true ->
       let reply := one_field k (v1 ++ py "\\n" ++ v2) in
       (0 < max_nesting ->
        json_loads reply
        = Some (JObject [(k, JString (v1 ++ py "\n" ++ v2))]))
       /\ tidy_reply reply = one_field k (v1 ++ py "\n" ++ v2)
       /\ json_block (tidy_reply reply) = one_field k (v1 ++ py "\n" ++ v2)
       /\ json_loads (json_block (tidy_reply reply)) = None
       /\ clean_json reply = JObject [].
Proof.
  split.
  - intros reply H. unfold tidy_reply in H. apply occurs_strip in H.
    exact (replace_escape_clean _ _ H).
  - intros k v1 v2 Hk H1 H2 reply.
    assert (Htidy : tidy_reply reply = one_field k (v1 ++ py "\n" ++ v2)).
    { unfold tidy_reply, reply. rewrite strip_thoughts_no_tag.
      - rewrite strip_one_field, replace_one_field by assumption.
        apply strip_one_field.
      - apply one_field_no_tag; [exact Hk|].
        intros H. apply in_app_or in H as [H|[H|[H|H]]]; try discriminate H.
        + revert H. apply json_plain_not_in; [exact H1|reflexivity].
        + revert H. apply json_plain_not_in; [exact H2|reflexivity]. }
    assert (Hfail : json_loads (one_field k (v1 ++ py "\n" ++ v2)) = None).
    { apply json_loads_one_field_fails; [exact Hk|].
      rewrite <- app_assoc. apply scanstring_break. exact H1. }
    split; [|split; [exact Htidy|split; [|split]]].
    + intros Hroom. apply json_loads_one_field; [exact Hroom|exact Hk|].
      change (py "\\n" ++ v2) with (92%N :: 110%N :: v2).
      change (py "\n" ++ v2) with (10%N :: v2).
      rewrite <- app_assoc. cbn [app].
      apply scanstring_escape; assumption.
    + rewrite Htidy. apply json_block_one_field.
    + rewrite Htidy, json_block_one_field. exact Hfail.
    + unfold clean_json. rewrite Htidy, json_block_one_field, Hfail.
      reflexivity.
Qed.

Lemma clean_json_breaks_newline_escapes_witness :
  let reply := py "{\x22a\x22: \x22x\\ny\x22}" in
  json_loads reply = Some (JObject [(py "a", JString (py "x\ny"))])
  /\ tidy_reply reply = py "{\x22a\x22: \x22x\ny\x22}"
  /\ json_loads (json_block (tidy_reply reply)) = None
  /\ clean_json reply = JObject [].
Proof.
  intros reply.
  destruct (proj2 (@clean_json_breaks_newline_escapes quiet_host)
              (py "a") (py "x") (py "y") eq_refl eq_refl eq_refl)
    as (A & B & _ & C & D).
  split; [apply A; apply Nat.ltb_lt; vm_compute; reflexivity|].
  split; [exact B|]. split; [exact C|exact D].
Defined.

(** ** The limits of the interpreter

    With the default limits an integer of 4300 digits is decoded and one
    of 4301 digits is not, whatever its sign; a number with a fraction is
    not an integer; and arrays can be nested 990 deep but not 991. *)
Example json_loads_long_integer :
  json_loads (repeat 49%N 4301) = None
  /\ json_loads (45%N :: repeat 49%N 4301) = None
  /\ match json_loads (45%N :: repeat 49%N 4300) with
     | Some (JNumber false lexeme) => Nat.eqb (length lexeme) 4301
     | _ => false
     end = true
  /\ match json_loads (repeat 49%N 4301 ++ py ".5") with
     | Some (JNumber true lexeme) => Nat.eqb (length lexeme) 4303
     | _ => false
     end = true
  /\ clean_json (py "{\x22n\x22: " ++ repeat 49%N 4301 ++ py "}") = JObject [].
Proof. repeat split; vm_compute; reflexivity. Qed.

Example json_loads_deep_nesting :
  json_loads (repeat 91%N 991 ++ repeat 93%N 991) = None
  /\ match json_loads (repeat 91%N 990 ++ repeat 93%N 990) with
     | Some (JArray _) => true
     | _ => false
     end = true.
Proof. split; vm_compute; reflexivity. Qed.

(** Whatever the limits, they only make the decoder fail: a text that is
    decoded holds no integer that is too long. *)
Lemma scan_number_within_limit {M : Host} (s lexeme r : text) :
  scan_number s = Some (JNumber false lexeme, r) ->
  too_many_digits lexeme = false.
Proof.
  unfold scan_number. destruct (scan_int s) as [[i s1]|]; [|discriminate].
  destruct (scan_frac s1) as [f s2]. destruct (scan_exp s2) as [e s3].
  destruct (is_empty_text f && is_empty_text e) eqn:E; cbn [negb andb].
  - destruct (too_many_digits i) eqn:T; [discriminate|].
    intros H. injection H as <- _.
    apply andb_true_iff in E as [Ef Ee].
    destruct f; [|discriminate]. destruct e; [|discriminate].
    cbn [app]. rewrite app_nil_r. exact T.
  - intros H. discriminate H.
Qed.

(** ** Reasoning blocks *)

Lemma run_word_match (w : text) :
  w <> [] ->
  forall (prev : option cp) (rest : text) (caps : list (nat * text)),
  exists p', run (word w) (MState prev (w ++ rest) caps) = [MState p' rest caps].
Proof.
  induction w as [|c w IH]; intros Hw prev rest caps; [congruence|].
  destruct w as [|c2 w].
  - exists (Some c). cbn. unfold lit. rewrite cp_eqb_refl. reflexivity.
  - destruct (IH ltac:(discriminate) (Some c) rest caps) as [p' Hp].
    exists p'.
    change (word (c :: c2 :: w)) with (Seq (Chr (lit c)) (word (c2 :: w))).
    cbn [run]. cbn [m_rest app]. unfold lit at 1. rewrite cp_eqb_refl.
    cbn [flat_map m_caps]. rewrite app_nil_r. exact Hp.
Qed.

Lemma run_word_fail (w : text) :
  forall (prev : option cp) (t : text) (caps : list (nat * text)),
    starts_with w t = false -> run (word w) (MState prev t caps) = [].
Proof.
  induction w as [|c w IH]; intros prev t caps H; [discriminate|].
  destruct w as [|c2 w].
  - cbn. destruct t as [|x t]; [reflexivity|].
    cbn in H. rewrite andb_true_r in H. unfold lit. now rewrite H.
  - change (word (c :: c2 :: w)) with (Seq (Chr (lit c)) (word (c2 :: w))).
    cbn [run]. cbn [m_rest]. destruct t as [|x t]; [reflexivity|].
    cbn [starts_with] in H. unfold lit at 1.
    destruct (cp_eqb c x); [|reflexivity].
    cbn [flat_map m_caps]. rewrite app_nil_r. apply IH. exact H.
Qed.

Lemma rep_lazy_S (step : mstate -> list mstate) (f lo : nat) (hi : option nat)
      (st : mstate) :
  rep step Lazy (S f) lo hi st
  = (if Nat.eqb lo 0 then [st] else [])
    ++ (if bound_open hi then
          flat_map (fun st' =>
                      if Nat.ltb (length (m_rest st')) (length (m_rest st))
                      then rep step Lazy f (pred lo) (bound_pred hi) st'
                      else [])
                   (step st)
        else []).
Proof. reflexivity. Qed.

Lemma run_lazy_any_step (r2 : regex) (prev : option cp) (c : cp) (s : text)
      (caps : list (nat * text)) :
  run (Seq (lazy_star (Chr any)) r2) (MState prev (c :: s) caps)
  = run r2 (MState prev (c :: s) caps)
    ++ run (Seq (lazy_star (Chr any)) r2) (MState (Some c) s caps).
Proof.
  unfold lazy_star.
  change (run (Seq (Rep Lazy 0 None (Chr any)) r2) (MState prev (c :: s) caps))
    with (flat_map (run r2)
            (rep (run (Chr any)) Lazy (S (S (length s))) 0 None
                 (MState prev (c :: s) caps))).
  change (run (Seq (Rep Lazy 0 None (Chr any)) r2) (MState (Some c) s caps))
    with (flat_map (run r2)
            (rep (run (Chr any)) Lazy (S (length s)) 0 None
                 (MState (Some c) s caps))).
  rewrite rep_lazy_S.
  change (run (Chr any) (MState prev (c :: s) caps))
    with [MState (Some c) s caps].
  cbn [Nat.eqb bound_open flat_map app m_rest Init.Nat.pred bound_pred].
  rewrite app_nil_r. cbn [length].
  replace (length s <? S (length s))%nat with true
    by (symmetry; apply Nat.ltb_lt; lia).
  reflexivity.
Qed.

(** The lazy [.*?] before a closing word stops at the first place where
    the word follows. *)
Lemma lazy_any_until (w rest : text) :
  w <> [] ->
  forall (x : text) (prev : option cp) (caps : list (nat * text)),
    (forall x1 x2, x = x1 ++ x2 -> x2 <> [] ->
                   starts_with w (x2 ++ w ++ rest) = false) ->
    exists p' tl,
      run (Seq (lazy_star (Chr any)) (word w)) (MState prev (x ++ w ++ rest) caps)
      = MState p' rest caps :: tl.
Proof.
  intros Hw. induction x as [|c x IH]; intros prev caps Hearly.
  - destruct (run_word_match Hw prev rest caps) as [p' Hp].
    destruct w as [|c w]; [congruence|].
    cbn [app] in *. rewrite run_lazy_any_step. rewrite Hp.
    cbn [app]. eauto.
  - destruct (IH (Some c) caps) as (p' & tl & Hrun).
    { intros x1 x2 -> Hx2. apply (Hearly (c :: x1) x2); [reflexivity|exact Hx2]. }
    exists p', tl. cbn [app]. rewrite run_lazy_any_step.
    rewrite (run_word_fail w prev (c :: x ++ w ++ rest) caps)
      by (apply (Hearly [] (c :: x)); [reflexivity|discriminate]).
    exact Hrun.
Qed.

Lemma prefix_of_app (w b u v : text) :
  w ++ b = u ++ v -> length w <= length u -> exists u', u = w ++ u'.
Proof.
  revert u; induction w as [|c w IH]; intros u H Hlen.
  - now exists u.
  - destruct u as [|d u]; [simpl in Hlen; lia|].
    simpl in H. injection H as -> H. simpl in Hlen.
    destruct (IH u H ltac:(lia)) as [u' ->]. now exists u'.
Qed.

(** If the word starts before its own place, it occurs in what is before
    its last character. *)
Lemma early_word (w x2 tail : text) :
  w <> [] -> x2 <> [] ->
  starts_with w (x2 ++ w ++ tail) = true ->
  Occurs w (x2 ++ removelast w).
Proof.
  intros Hw Hx2 H. apply starts_with_prefix in H as [b Hb].
  assert (Hsplit : w = removelast w ++ [last w 0%N])
    by (apply app_removelast_last; exact Hw).
  assert (Hlen : length w = S (length (removelast w))).
  { rewrite Hsplit at 1. rewrite length_app. simpl. lia. }
  destruct (@prefix_of_app w b (x2 ++ removelast w) ([last w 0%N] ++ tail))
    as [u' Hu].
  - rewrite <- Hb. rewrite Hsplit at 1.
    repeat rewrite <- app_assoc. reflexivity.
  - rewrite length_app. destruct x2; [congruence|simpl; lia].
  - exists [], u'. exact Hu.
Qed.

Lemma sub_from_skip (r : regex) (repl : list repl_item) (a b : text) :
  forall prev, exists prev',
    sub_from r repl prev (length a) (a ++ b) = sub_from r repl prev' 0 b.
Proof.
  induction a as [|c a IH]; intros prev.
  - now exists prev.
  - cbn [app length sub_from]. apply IH.
Qed.

Lemma think_block_match (x rest : text) (prev : option cp) :
  ~ Occurs (py "</think>") (x ++ py "</think") ->
  exists p',
    match_here re_think prev (py "<think>" ++ x ++ py "</think>" ++ rest)
    = Some (MState p' rest []).
Proof.
  intros Hearly.
  destruct (@run_word_match (py "<think>") ltac:(discriminate) prev
              (x ++ py "</think>" ++ rest) []) as [p1 H1].
  destruct (@lazy_any_until (py "</think>") rest ltac:(discriminate) x p1 [])
    as (p' & tl & H2).
  { intros x1 x2 -> Hx2.
    destruct (starts_with (py "</think>") (x2 ++ py "</think>" ++ rest)) eqn:E;
      [|reflexivity].
    exfalso. apply Hearly.
    destruct (@early_word (py "</think>") x2 rest ltac:(discriminate) Hx2 E)
      as (a & b & Hab).
    exists (x1 ++ a), b. rewrite <- app_assoc.
    change (py "</think") with (removelast (py "</think>")).
    rewrite Hab. repeat rewrite <- app_assoc. reflexivity. }
  exists p'. unfold match_here, re_think.
  change (cat [word (py "<think>"); lazy_star (Chr any); word (py "</think>")])
    with (Seq (word (py "<think>"))
              (Seq (lazy_star (Chr any)) (word (py "</think>")))).
  remember (Seq (lazy_star (Chr any)) (word (py "</think>"))) as tail_re.
  cbn [run]. rewrite H1. cbn [flat_map]. rewrite app_nil_r. rewrite H2.
  cbn [m_rest].
  replace (length rest <? length (py "<think>" ++ x ++ py "</think>" ++ rest))%nat
    with true; [reflexivity|].
  symmetry. apply Nat.ltb_lt. repeat rewrite length_app. simpl. lia.
Qed.

(** X5.  A reply without the opening tag [<think>] is only trimmed.  A
    reply that begins with a reasoning block, in which the closing tag
    does not start before its place, and that holds no other opening tag,
    is cut down to what follows the block, trimmed; and [clean_json]
    recovers from such a reply what it recovers from the part after the
    block. *)
Theorem strip_thoughts_leading_block {M : Host} :
  (forall reply,
     ~ Occurs (py "<think>") reply -> strip_thoughts reply = strip reply)
  /\ (forall x rest,
        ~ Occurs (py "</think>") (x ++ py "</think") ->
        ~ Occurs (py "<think>") rest ->
        let reply := py "<think>" ++ x ++ py "</think>" ++ rest in
        strip_thoughts reply = strip rest
        /\ clean_json reply = clean_json rest).
Proof.
  split; [exact strip_thoughts_no_tag|].
  intros x rest Hearly Hrest reply.
  assert (Hstrip : strip_thoughts reply = strip rest).
  { unfold strip_thoughts, re_sub. f_equal. unfold reply.
    destruct (@think_block_match x rest None Hearly) as [p' Hm].
    change (py "<think>" ++ x ++ py "</think>" ++ rest)
      with (60%N :: py "think>" ++ x ++ py "</think>" ++ rest) in *.
    cbn [sub_from]. rewrite Hm. cbn [expand m_rest app].
    replace (py "think>" ++ x ++ py "</think>" ++ rest)
      with ((py "think>" ++ x ++ py "</think>") ++ rest)
      by (repeat rewrite <- app_assoc; reflexivity).
    match goal with
    | |- sub_from _ _ _ ?n _ = _ =>
      replace n with (length (py "think>" ++ x ++ py "</think>"))
        by (cbn [length]; repeat rewrite length_app; lia)
    end.
    destruct (@sub_from_skip re_think [] (py "think>" ++ x ++ py "</think>") rest
                             (Some 60%N)) as [prev' Hskip].
    etransitivity; [exact Hskip|].
    apply sub_from_no_match.
    intros a m b -> Hm'. exfalso. apply Hrest.
    apply think_match_shape in Hm' as [y ->].
    exists a, (y ++ py "</think>" ++ b).
    repeat rewrite <- app_assoc. reflexivity. }
  split; [exact Hstrip|].
  unfold clean_json, tidy_reply. rewrite Hstrip.
  rewrite (@strip_thoughts_no_tag rest) by exact Hrest. reflexivity.
Qed.

Lemma strip_thoughts_leading_block_witness :
  strip_thoughts (py "<think>\nThe DOI is on page 1.\n</think>\n\n{\x22doi\x22: \x2210.1/x\x22}")
  = py "{\x22doi\x22: \x2210.1/x\x22}".
Proof.
  destruct (@strip_thoughts_leading_block quiet_host) as [_ H].
  destruct (H (py "\nThe DOI is on page 1.\n")
              (py "\n\n{\x22doi\x22: \x2210.1/x\x22}")) as [Hs _].
  - intros (a & b & E).
    assert (Hin : In 62%N (py "\nThe DOI is on page 1.\n" ++ py "</think")).
    { rewrite E. apply in_or_app. right. apply in_or_app. left.
      vm_compute. tauto. }
    revert Hin. apply not_in_existsb. vm_compute. reflexivity.
  - intros (a & b & E).
    assert (Hin : In 60%N (py "\n\n{\x22doi\x22: \x2210.1/x\x22}")).
    { rewrite E. apply in_or_app. right. now left. }
    revert Hin. apply not_in_existsb. vm_compute. reflexivity.
  - transitivity (strip_thoughts
                    (py "<think>" ++ py "\nThe DOI is on page 1.\n"
                        ++ py "</think>"
                        ++ py "\n\n{\x22doi\x22: \x2210.1/x\x22}")).
    + vm_compute. reflexivity.
    + rewrite Hs. vm_compute. reflexivity.
Defined.

(** ** The citation stripper: what it leaves and what it takes *)

Lemma subseq_nil (b : text) : Subseq [] b.
Proof. induction b; constructor; assumption. Qed.

Lemma subseq_refl (a : text) : Subseq a a.
Proof. induction a; constructor; assumption. Qed.

Lemma subseq_trans (a b c : text) : Subseq a b -> Subseq b c -> Subseq a c.
Proof.
  intros Hab Hbc. revert a Hab.
  induction Hbc as [|x b c Hbc IH|x b c Hbc IH]; intros a Hab.
  - exact Hab.
  - inversion Hab; subst.
    + apply SubKeep. now apply IH.
    + apply SubDrop. now apply IH.
  - apply SubDrop. now apply IH.
Qed.

Lemma subseq_drop_prefix (p a b : text) : Subseq a b -> Subseq a (p ++ b).
Proof. intros H. induction p; simpl; [exact H|now apply SubDrop]. Qed.

Lemma subseq_prefix (a b : text) : Subseq a (a ++ b).
Proof. induction a; simpl; [apply subseq_nil|now apply SubKeep]. Qed.

Lemma subseq_length (a b : text) : Subseq a b -> length a <= length b.
Proof. induction 1; simpl; lia. Qed.

Lemma subseq_in (a b : text) (c : cp) : Subseq a b -> In c a -> In c b.
Proof.
  induction 1 as [|x a b H IH|x a b H IH]; simpl; [tauto| |].
  - intros [E|Hin]; [now left|right; now apply IH].
  - intros Hin. right. now apply IH.
Qed.

(** A substitution by the empty string only deletes. *)
Lemma sub_erase_subseq (r : regex) (t : text) :
  forall prev skip, Subseq (sub_from r [] prev skip t) t.
Proof.
  induction t as [|c t IH]; intros prev skip.
  - constructor.
  - cbn [sub_from]. destruct skip as [|n].
    + destruct (match_here r prev (c :: t)) as [st'|].
      * cbn [expand app]. apply SubDrop. apply IH.
      * apply SubKeep. apply IH.
    + apply SubDrop. apply IH.
Qed.

Lemma before_match_prefix (r : regex) (t : text) :
  forall prev, exists b, t = before_match r prev t ++ b.
Proof.
  induction t as [|c t IH]; intros prev.
  - now exists [].
  - cbn [before_match]. destruct (match_here r prev (c :: t)).
    + now exists (c :: t).
    + destruct (IH (Some c)) as [b Hb]. exists b. cbn [app]. now f_equal.
Qed.

Lemma before_match_subseq (r : regex) (t : text) :
  forall prev, Subseq (before_match r prev t) t.
Proof.
  induction t as [|c t IH]; intros prev.
  - constructor.
  - cbn [before_match]. destruct (match_here r prev (c :: t)).
    + apply subseq_nil.
    + apply SubKeep. apply IH.
Qed.

Lemma strip_infix (t : text) : exists a b, t = a ++ strip t ++ b.
Proof.
  destruct (lstrip_suffix t) as [a Ha].
  destruct (rstrip_prefix (lstrip t)) as [b Hb].
  exists a, b. unfold strip. rewrite <- Hb. exact Ha.
Qed.

Lemma strip_subseq (t : text) : Subseq (strip t) t.
Proof.
  destruct (strip_infix t) as (a & b & H). rewrite H at 2.
  apply subseq_drop_prefix. apply subseq_prefix.
Qed.

Section Stripper.
Context {U : Unicode}.

Lemma heading_line_nonempty (m : text) : heading_line m -> m <> [].
Proof. intros (ws1 & w & ws2 & h & E & _). rewrite E. discriminate. Qed.

(** No heading starts in the part of a text before its first heading. *)
Lemma before_match_no_heading (t : text) :
  forall prev k, ~ heading_at (before_match re_references_heading prev t) k.
Proof.
  induction t as [|c t IH]; intros prev k.
  - cbn [before_match]. intros (m & rest & Hsk & Hm).
    rewrite skipn_nil in Hsk. apply heading_line_nonempty in Hm.
    destruct m; [congruence|discriminate].
  - cbn [before_match].
    destruct (match_here re_references_heading prev (c :: t)) as [st'|] eqn:E.
    + intros (m & rest & Hsk & Hm).
      rewrite skipn_nil in Hsk. apply heading_line_nonempty in Hm.
      destruct m; [congruence|discriminate].
    + destruct k as [|k].
      * intros (m & rest & Hsk & Hm). cbn [skipn] in Hsk.
        destruct (before_match_prefix re_references_heading t (Some c)) as [b Hb].
        assert (Hat : heading_at (c :: t) 0).
        { exists m, (rest ++ b). split; [|exact Hm]. cbn [skipn].
          rewrite Hb at 1. rewrite app_assoc. rewrite <- Hsk. reflexivity. }
        apply (heading_at_match (c :: t) 0 prev) in Hat. cbn [skipn] in Hat.
        congruence.
      * cbn [skipn]. intros H. eapply IH. exact H.
Qed.

Lemma heading_at_infix (a s b : text) (k : nat) :
  heading_at s k -> heading_at (a ++ s ++ b) (length a + k).
Proof.
  intros (m & rest & Hsk & Hm).
  exists m, (rest ++ skipn (k - length s) b). split; [|exact Hm].
  rewrite skipn_app. rewrite (skipn_all2 a) by lia.
  replace (length a + k - length a) with k by lia.
  cbn [app]. rewrite skipn_app. rewrite Hsk.
  rewrite <- app_assoc. reflexivity.
Qed.

(** X6.  In the text that [strip_citations_and_references] returns no
    references heading is left: at no index does a line break, white
    space, one of the three heading words in any case, white space and a
    line break start. *)
Theorem strip_citations_leaves_no_heading (t : text) (i : nat) :
  ~ heading_at (strip_citations_and_references t) i.
Proof.
  unfold strip_citations_and_references, re_split_0.
  set (u := remove_numeric_citations (remove_paren_citations t)).
  intros H.
  destruct (strip_infix (before_match re_references_heading None u))
    as (a & b & Hab).
  apply (heading_at_infix a b) in H. rewrite <- Hab in H.
  eapply before_match_no_heading. exact H.
Qed.

Lemma strip_citations_subseq (t : text) :
  Subseq (strip_citations_and_references t) t.
Proof.
  unfold strip_citations_and_references, re_split_0,
    remove_numeric_citations, remove_paren_citations, re_sub.
  eapply subseq_trans; [apply strip_subseq|].
  eapply subseq_trans; [apply before_match_subseq|].
  eapply subseq_trans; apply sub_erase_subseq.
Qed.

(** X7.  [strip_citations_and_references] and [strip_thoughts] only
    delete: what they return is their argument with some characters left
    out, the others being kept as they are and in their order.  So the
    result is never longer than the argument and holds no character that
    the argument does not hold. *)
Theorem strippers_only_delete (t : text) :
  Subseq (strip_citations_and_references t) t
  /\ Subseq (strip_thoughts t) t
  /\ length (strip_citations_and_references t) <= length t
  /\ forall c, In c (strip_citations_and_references t) -> In c t.
Proof.
  pose proof (strip_citations_subseq t) as H1.
  split; [exact H1|]. split; [|split].
  - unfold strip_thoughts, re_sub.
    eapply subseq_trans; [apply strip_subseq|apply sub_erase_subseq].
  - apply subseq_length. exact H1.
  - intros c. apply subseq_in. exact H1.
Qed.

(** X8.  The first pass of the stripper, the one that removes the
    parenthesised citations, changes a text exactly when it holds a
    parenthesised span, up to the first closing parenthesis, with four
    decimal digits in a row: a parenthetical without a year is never
    touched. *)
Theorem paren_pass_changes_only_year_groups (t : text) :
  remove_paren_citations t = t <-> ~ year_group_in t.
Proof.
  split.
  - intros E H. rewrite <- E in H.
    eapply paren_pass_clean. exact H.
  - intros Hn. unfold remove_paren_citations, re_sub.
    apply sub_from_no_match. intros a m b -> Hm. exfalso. apply Hn.
    apply paren_match_shape in Hm as (x & -> & Hx & Hy).
    exists a, x, b. split; [|split; assumption].
    cbn [app]. rewrite <- app_assoc. reflexivity.
Qed.

(** X9.  The results of [clean_pdf_text], of
    [strip_citations_and_references], of [strip_thoughts] and the tidied
    reply inside [clean_json] carry no white space at either end:
    trimming them again changes nothing. *)
Theorem results_are_trimmed (t : text) :
  strip (clean_pdf_text t) = clean_pdf_text t
  /\ strip (strip_citations_and_references t) = strip_citations_and_references t
  /\ strip (strip_thoughts t) = strip_thoughts t
  /\ strip (tidy_reply t) = tidy_reply t.
Proof.
  unfold clean_pdf_text, normalize_whitespace, strip_citations_and_references,
    strip_thoughts, tidy_reply.
  repeat split; apply strip_strip.
Qed.
End Stripper.

Lemma year_group_infix {U : Unicode} (a s b : text) :
  year_group_in s -> year_group_in (a ++ s ++ b).
Proof.
  intros (a' & x & b' & -> & Hx & Hy).
  exists (a ++ a'), x, (b' ++ b). split; [|split; assumption].
  repeat rewrite <- app_assoc. cbn [app]. repeat rewrite <- app_assoc.
  reflexivity.
Qed.

Section StripperYears.
Context {U : Unicode}.

Lemma numeric_match_bracket (m : text) :
  Matches re_numeric_citation m -> exists c, In c m /\ c = 91%N.
Proof.
  intros M. unfold re_numeric_citation in M. cbn [cat] in M.
  apply matches_seq in M as (a & b & -> & Ma & _).
  apply matches_chr in Ma as (x & -> & Hx). apply lit_true in Hx.
  exists x. split; [now left|exact Hx].
Qed.

(** A text without an opening bracket goes through the bracket pass as it
    is. *)
Lemma numeric_pass_idle (t : text) :
  ~ In 91%N t -> remove_numeric_citations t = t.
Proof.
  intros Hno. unfold remove_numeric_citations.
  apply (@re_sub_absent (fun c => c = 91%N)).
  - exact numeric_match_bracket.
  - intros c Hc ->. exact (Hno Hc).
Qed.

(** C5, amended.  The pass that removes the parenthetical citations
    leaves no parenthesised span holding four digits in a row.  Whenever
    the bracket pass that follows removes nothing, and so for every text
    without an opening bracket, the result of
    [strip_citations_and_references] holds no such span either. *)
Theorem strip_citations_removes_year_groups (t : text) :
  ~ year_group_in (remove_paren_citations t)
  /\ (remove_numeric_citations (remove_paren_citations t)
      = remove_paren_citations t ->
      ~ year_group_in (strip_citations_and_references t))
  /\ (~ In 91%N t -> ~ year_group_in (strip_citations_and_references t)).
Proof.
  assert (Hidle : remove_numeric_citations (remove_paren_citations t)
                  = remove_paren_citations t ->
                  ~ year_group_in (strip_citations_and_references t)).
  { intros Hsame H. unfold strip_citations_and_references, re_split_0 in H.
    rewrite Hsame in H.
    set (u := remove_paren_citations t) in *.
    destruct (strip_infix (before_match re_references_heading None u))
      as (a & b & Hab).
    destruct (before_match_prefix re_references_heading u None) as [c Hc].
    apply (year_group_infix a b) in H. rewrite <- Hab in H.
    apply (year_group_infix [] c) in H. cbn [app] in H. rewrite <- Hc in H.
    eapply paren_pass_clean. exact H. }
  split; [apply paren_pass_clean|]. split; [exact Hidle|].
  intros Hno. apply Hidle. apply numeric_pass_idle.
  intros H. apply Hno. unfold remove_paren_citations, re_sub in H.
  eapply sub_erase_in. exact H.
Qed.
End StripperYears.

Lemma strip_citations_removes_year_groups_witness :
  ~ year_group_in
      (strip_citations_and_references
         (py "Trust fell (Smith 2020) in [two] waves (see Table 1).")).
Proof.
  apply (proj1 (proj2 (@strip_citations_removes_year_groups latin1
     (py "Trust fell (Smith 2020) in [two] waves (see Table 1)."))));
    vm_compute; reflexivity.
Defined.


(** ** The cleaner: blanks and repeated lines *)

Lemma single_spaced_app_clean (R X : text) :
  forallb (neg hspace) R = true -> single_spaced (R ++ X) = single_spaced X.
Proof.
  induction R as [|x R IH]; intros H; [reflexivity|].
  cbn [forallb] in H. apply andb_true_iff in H as [Hx HR].
  cbn [app single_spaced]. unfold neg in Hx.
  destruct (hspace x); [discriminate|]. now apply IH.
Qed.

(** A substitution whose replacement is a non-empty text without blanks
    keeps a text single-spaced. *)
Lemma sub_break_single_spaced (r : regex) (R : text) :
  R <> [] -> forallb (neg hspace) R = true ->
  forall t, single_spaced t = true ->
  forall prev skip,
    let out := sub_from r [Lit R] prev skip t in
    single_spaced out = true
    /\ (holds_opt hspace (hd_error out) = true ->
        holds_opt hspace (hd_error (skipn skip t)) = true).
Proof.
  intros HR Hclean. induction t as [|c t IH]; intros Hs prev skip.
  - cbn. split; [reflexivity|discriminate].
  - pose proof (single_spaced_tail _ _ Hs) as Hs'.
    cbn [sub_from]. destruct skip as [|n]; [|apply (IH Hs')].
    destruct (match_here r prev (c :: t)) as [st'|].
    + cbn [expand]. rewrite app_nil_r. split.
      * rewrite single_spaced_app_clean by exact Hclean. apply (IH Hs').
      * destruct R as [|x R]; [congruence|].
        cbn [forallb] in Hclean. apply andb_true_iff in Hclean as [Hx _].
        unfold neg in Hx. cbn [app hd_error holds_opt].
        destruct (hspace x); discriminate.
    + destruct (IH Hs' (Some c) 0) as [IH1 IH2]. cbn [skipn] in IH2. split.
      * cbn [single_spaced] in *. destruct (hspace c); [|exact IH1].
        apply andb_true_iff in Hs as [Hs _].
        apply andb_true_iff in Hs as [Hc Hnext].
        rewrite Hc, IH1, andb_true_r. cbn [andb].
        destruct (holds_opt hspace
                    (hd_error (sub_from r [Lit R] (Some c) 0 t))) eqn:E;
          [|reflexivity].
        rewrite (IH2 eq_refl) in Hnext. discriminate.
      * cbn. trivial.
Qed.

Lemma single_spaced_no_tab (t : text) : single_spaced t = true -> ~ In tab t.
Proof.
  induction t as [|c t IH]; intros Hs; [tauto|].
  intros [->|H].
  - cbn in Hs. discriminate.
  - exact (IH (single_spaced_tail _ _ Hs) H).
Qed.

(** Step 5 leaves a single-spaced text, whatever it is given. *)
Lemma normalize_whitespace_single_spaced (j : text) :
  single_spaced (normalize_whitespace j) = true.
Proof.
  unfold normalize_whitespace, re_sub.
  pose proof (hspaces_collapse j None 0) as [H1 _]. cbv zeta in H1.
  pose proof (@sub_break_single_spaced re_lead_space [nl] ltac:(discriminate)
                eq_refl _ H1 None 0) as [H2 _]. cbv zeta in H2.
  pose proof (@sub_break_single_spaced re_trail_space [nl] ltac:(discriminate)
                eq_refl _ H2 None 0) as [H3 _]. cbv zeta in H3.
  pose proof (@sub_break_single_spaced re_blank_lines [nl; nl]
                ltac:(discriminate) eq_refl _ H3 None 0) as [H4 _].
  cbv zeta in H4.
  pose proof (hspaces2_fixed _ H4) as H5. unfold re_sub in H5.
  rewrite H5. apply single_spaced_strip. exact H4.
Qed.

Section Cleaner.
Context {U : Unicode}.

(** X10.  The text that [clean_pdf_text] returns holds no tab and
    nowhere two blanks in a row, whatever text it is given. *)
Theorem clean_pdf_text_single_blanks (t : text) :
  ~ In tab (clean_pdf_text t) /\ ~ Occurs (py "  ") (clean_pdf_text t).
Proof.
  pose proof (normalize_whitespace_single_spaced
                (join_nl (dedup (split_nl (unwrap_and_scrub t))))) as Hs.
  fold (clean_pdf_text t) in Hs. split.
  - exact (single_spaced_no_tab _ Hs).
  - intros (a & b & E). rewrite E in Hs.
    change (py "  " ++ b) with (space :: space :: b) in Hs.
    rewrite single_spaced_no_pair in Hs by reflexivity. discriminate.
Qed.

(** A list of lines whose keys differ from each other and from those
    already seen passes through the loop of step 4 unchanged. *)
Lemma dedup_from_fixed (kept : list text) :
  forall seen,
    (forall l, In l kept -> nonblank l = true /\ ~ In (line_key l) seen) ->
    NoDup (map line_key kept) ->
    dedup_from seen kept = kept.
Proof.
  induction kept as [|line kept IH]; intros seen Hall Hnd; [reflexivity|].
  cbn [dedup_from].
  destruct (Hall line (or_introl eq_refl)) as [Hnb Hnew].
  rewrite strip_nonblank, Hnb.
  destruct (mem (str_lower (strip line)) seen) eqn:Hmem.
  - apply mem_iff in Hmem. contradiction.
  - cbn [negb andb]. f_equal. apply IH.
    + intros l Hl. destruct (Hall l (or_intror Hl)) as [Hnb' Hnew'].
      split; [exact Hnb'|]. intros [E|Hin]; [|contradiction].
      cbn [map] in Hnd. apply NoDup_cons_iff in Hnd as [Hnotin _].
      apply Hnotin. fold (line_key line) in E. rewrite E.
      now apply in_map.
    + cbn [map] in Hnd. now apply NoDup_cons_iff in Hnd as [_ Hnd].
Qed.

(** X11.  The loop of step 4, which keeps the first line for each key
    and drops the blank lines, is idempotent: run on the lines it kept, it
    keeps them all. *)
Theorem dedup_idempotent (lines : list text) :
  dedup (dedup lines) = dedup lines.
Proof.
  unfold dedup. destruct (dedup_from_spec lines []) as (Hnd & Hkept & _).
  apply dedup_from_fixed; [|exact Hnd].
  intros l Hl. destruct (Hkept l Hl) as (Hnew & Hnb & _). now split.
Qed.
End Cleaner.

(** ** The batch: one file at a time *)

Lemma in_failed_rounds (rq : request) (k : nat) (e : event) :
  In e (failed_rounds rq k) -> e = Post rq \/ e = Sleep 1.
Proof.
  induction k as [|k IH]; cbn [failed_rounds]; [intros []|].
  intros [<-|[<-|H]]; auto.
Qed.

Section BatchFiles.
Context {U : Unicode} {M : Host}.
Variable endpoint : history -> request -> outcome.
Variable pdf_pages : text -> text + list (text * text).

Lemma clean_json_object (reply : text) : exists d, clean_json reply = JObject d.
Proof.
  unfold clean_json.
  destruct (json_loads (json_block (tidy_reply reply))) as [v|] eqn:E; [|eauto].
  destruct (json_block_shape (tidy_reply reply)) as [H|[H|[s H]]];
    rewrite H in E; try discriminate E.
  eapply json_loads_brace. exact E.
Qed.

(** The call of [clean_json] returns the value of [clean_json] and prints
    the report. *)
Lemma clean_json_run_report (reply : text) (h : history) :
  clean_json_run reply h = (clean_json reply, h ++ parse_report reply).
Proof.
  unfold clean_json_run, clean_json, parse_report.
  destruct (json_loads (json_block (tidy_reply reply))).
  - unfold ret. now rewrite app_nil_r.
  - reflexivity.
Qed.

(** With three tries allowed the client always returns a text; what it
    adds to the history are requests and pauses. *)
Lemma summarize_structured_run (t model : text) (max_tokens : Z) (h : history) :
  exists reply h1,
    summarize_structured endpoint t model max_tokens h = (Some reply, h ++ h1)
    /\ forall e, In e h1 -> (exists rq, e = Post rq) \/ e = Sleep 1.
Proof.
  unfold summarize_structured, query_ollama.
  set (rq := Request model (build_prompt t) max_tokens).
  destruct (attempts_run endpoint rq 3 (Z.to_nat 3) 0 h)
    as [(k & _ & Hh & _ & Hend)|(_ & Hnever)].
  - destruct (attempts endpoint (Z.to_nat 3) 0 3 rq h) as [r h'].
    cbn [fst snd] in *. subst h'.
    assert (Hr : exists reply, r = Some reply)
      by (destruct Hend as [(p & _ & ->)|(e & _ & _ & ->)]; eauto).
    destruct Hr as [reply ->].
    exists reply, (failed_rounds rq k ++ [Post rq]). split; [reflexivity|].
    intros e He. apply in_app_or in He as [He|[<-|[]]]; [|eauto].
    apply in_failed_rounds in He as [->| ->]; eauto.
  - exfalso.
    apply (Hnever 2%nat); [change (Z.to_nat 3) with 3%nat; lia|reflexivity].
Qed.

(** What the body of the loop does with one file: the requests and the
    pauses of the client, the report of the decoder, and then either the
    file or the failed write with its message. *)
Lemma process_pdf_run (pdf : text) (results : list (option text)) (h : history) :
  match extract_pdf_text_clean pdf_pages pdf with
  | inl e =>
    process_pdf endpoint pdf_pages pdf results h
    = (results, h ++ [Print (py "Error processing " ++ pdf ++ py ": " ++ e)])
  | inr raw =>
    exists reply h1,
      (forall e, In e h1 -> (exists rq, e = Post rq) \/ e = Sleep 1)
      /\ let json_path := splitext_root pdf ++ py ".json" in
         let h2 := h ++ h1 ++ parse_report reply in
         process_pdf endpoint pdf_pages pdf results h
         = (results ++ [Some reply],
            h2 ++ match write_failure h2 json_path (clean_json reply) with
                  | None => [Dump json_path (clean_json reply)]
                  | Some e =>
                    [DumpFailed json_path;
                     Print (py "Error processing " ++ pdf ++ py ": " ++ e)]
                  end)
  end.
Proof.
  unfold process_pdf.
  destruct (extract_pdf_text_clean pdf_pages pdf) as [e|raw].
  - reflexivity.
  - destruct (summarize_structured_run
                (slice (strip_citations_and_references raw) 0 30000)
                (py "qwen3:8b") 32768 h) as (reply & h1 & Hrun & Hev).
    exists reply, h1. split; [exact Hev|]. cbv zeta.
    set (json_path := splitext_root pdf ++ py ".json").
    set (h2 := h ++ h1 ++ parse_report reply).
    unfold bind at 1. rewrite Hrun. cbn [str_of].
    unfold bind at 1. rewrite clean_json_run_report.
    replace ((h ++ h1) ++ parse_report reply) with h2
      by (unfold h2; now rewrite app_assoc).
    unfold bind at 1. unfold json_dump. fold json_path.
    destruct (write_failure h2 json_path (clean_json reply)) as [e|].
    + unfold bind, emit, ret. rewrite <- app_assoc. reflexivity.
    + reflexivity.
Qed.

Lemma parse_report_prints (reply : text) (e : event) :
  In e (parse_report reply) -> exists m, e = Print m.
Proof.
  unfold parse_report.
  destruct (json_loads (json_block (tidy_reply reply))); [intros []|].
  intros [<-|[]]. eauto.
Qed.

Lemma write_failure_none (h : history) (json_path : text) (cleaned : json) :
  write_failure h json_path cleaned = None -> encodable cleaned = true.
Proof.
  unfold write_failure. destruct (write_error h json_path cleaned); [discriminate|].
  destruct (encodable cleaned); [reflexivity|discriminate].
Qed.

Lemma write_failure_unencodable (h : history) (json_path : text) (cleaned : json) :
  encodable cleaned = false -> exists e, write_failure h json_path cleaned = Some e.
Proof.
  intros H. unfold write_failure. rewrite H.
  destruct (write_error h json_path cleaned); eauto.
Qed.

(** The files a run of the loop writes, and those it fails to write. *)
Lemma run_batch_dumps
        (pdfs : list text) (results : list (option text)) (h : history) :
  let h' := snd (run_batch endpoint pdf_pages pdfs results h) in
  (forall path content,
     In (Dump path content) h' ->
     In (Dump path content) h
     \/ (exists pdf, In pdf pdfs /\ readable pdf_pages pdf = true
                     /\ path = splitext_root pdf ++ py ".json")
        /\ (exists d, content = JObject d)
        /\ encodable content = true)
  /\ (forall path,
        In (DumpFailed path) h' ->
        In (DumpFailed path) h
        \/ exists pdf, In pdf pdfs /\ readable pdf_pages pdf = true
                       /\ path = splitext_root pdf ++ py ".json").
Proof.
  revert results h. induction pdfs as [|pdf pdfs IH]; intros results h.
  - cbn. split; intros; now left.
  - cbn [run_batch]. unfold bind.
    pose proof (process_pdf_run pdf results h) as Hrun.
    destruct (extract_pdf_text_clean pdf_pages pdf) as [e|raw] eqn:E.
    + rewrite Hrun.
      destruct (IH results
                   (h ++ [Print (py "Error processing " ++ pdf ++ py ": " ++ e)]))
        as [IHd IHf].
      split.
      * intros path content H.
        apply IHd in H as [H|[(pdf' & Hin & Hr & Hp) Hd]].
        -- apply in_app_or in H as [H|[H|[]]]; [now left|discriminate].
        -- right. split; [|exact Hd]. exists pdf'. split; [now right|].
           split; [exact Hr|exact Hp].
      * intros path H.
        apply IHf in H as [H|(pdf' & Hin & Hr & Hp)].
        -- apply in_app_or in H as [H|[H|[]]]; [now left|discriminate].
        -- right. exists pdf'. split; [now right|]. split; [exact Hr|exact Hp].
    + destruct Hrun as (reply & h1 & Hev & Heq). cbv zeta in Heq.
      rewrite Heq.
      set (json_path := splitext_root pdf ++ py ".json") in *.
      set (h2 := h ++ h1 ++ parse_report reply) in *.
      assert (Hh2 : forall ev, In ev h2 ->
                In ev h \/ (exists rq, ev = Post rq) \/ ev = Sleep 1
                \/ exists m, ev = Print m).
      { intros ev Hev'. unfold h2 in Hev'.
        apply in_app_or in Hev' as [H|H]; [now left|]. right.
        apply in_app_or in H as [H|H].
        - destruct (Hev _ H) as [H'|H']; auto.
        - right. right. now apply parse_report_prints in H. }
      assert (Hpdf : In pdf (pdf :: pdfs) /\ readable pdf_pages pdf = true
                     /\ json_path = splitext_root pdf ++ py ".json").
      { split; [now left|]. unfold readable. rewrite E. now split. }
      destruct (write_failure h2 json_path (clean_json reply)) as [e|] eqn:W.
      * destruct (IH (results ++ [Some reply])
                     (h2 ++ [DumpFailed json_path;
                             Print (py "Error processing " ++ pdf ++ py ": " ++ e)]))
          as [IHd IHf].
        split.
        -- intros path content H.
           apply IHd in H as [H|[(pdf' & Hin & Hr & Hp) Hd]].
           ++ apply in_app_or in H as [H|[H|[H|[]]]]; try discriminate H.
              destruct (Hh2 _ H) as [H'|[[rq H']|[H'|[m H']]]];
                [now left|discriminate H'..].
           ++ right. split; [|exact Hd]. exists pdf'. split; [now right|].
              split; [exact Hr|exact Hp].
        -- intros path H.
           apply IHf in H as [H|(pdf' & Hin & Hr & Hp)].
           ++ apply in_app_or in H as [H|[H|[H|[]]]]; try discriminate H.
              ** destruct (Hh2 _ H) as [H'|[[rq H']|[H'|[m H']]]];
                   [now left|discriminate H'..].
              ** right. exists pdf. injection H as <-. exact Hpdf.
           ++ right. exists pdf'. split; [now right|]. split; [exact Hr|exact Hp].
      * destruct (IH (results ++ [Some reply])
                     (h2 ++ [Dump json_path (clean_json reply)]))
          as [IHd IHf].
        split.
        -- intros path content H.
           apply IHd in H as [H|[(pdf' & Hin & Hr & Hp) Hd]].
           ++ apply in_app_or in H as [H|[H|[]]].
              ** destruct (Hh2 _ H) as [H'|[[rq H']|[H'|[m H']]]];
                   [now left|discriminate H'..].
              ** right. injection H as <- <-. split; [exists pdf; exact Hpdf|].
                 split; [apply clean_json_object|].
                 eapply write_failure_none. exact W.
           ++ right. split; [|exact Hd]. exists pdf'. split; [now right|].
              split; [exact Hr|exact Hp].
        -- intros path H.
           apply IHf in H as [H|(pdf' & Hin & Hr & Hp)].
           ++ apply in_app_or in H as [H|[H|[]]]; try discriminate H.
              destruct (Hh2 _ H) as [H'|[[rq H']|[H'|[m H']]]];
                [now left|discriminate H'..].
           ++ right. exists pdf'. split; [now right|]. split; [exact Hr|exact Hp].
Qed.


End BatchFiles.



(** A reply whose mapping holds a lone surrogate is decoded, but the
    write fails: no finished file is left, the message is printed, and
    the reply is among the results all the same. *)
Example batch_lone_surrogate :
  run_batch (fun _ _ => Answer (py "{\x22a\x22: \x22\\ud83d\x22}"))
            (fun _ => inr [(py "Text.", py "Text.")])
            [py "/d/b.pdf"] [] []
  = ([Some (py "{\x22a\x22: \x22\\ud83d\x22}")],
     [Post (request_for (py "Text."));
      DumpFailed (py "/d/b.json");
      Print (py "Error processing /d/b.pdf: surrogates not allowed")]).
Proof. vm_compute. reflexivity. Qed.

(** ** Where the results are written *)

Lemma firstn_app_length (a b : text) (n : nat) :
  n = length a -> firstn n (a ++ b) = a.
Proof. intros ->. apply firstn_app_exact. Qed.

(** [os.path.splitext] on a path whose last component is a name, a dot
    and an extension. *)
Lemma splitext_root_name (dir stem ext : text) :
  ~ In 47%N stem -> ~ In 47%N ext -> ~ In 46%N ext ->
  existsb (fun c => negb (cp_eqb c 46)) stem = true ->
  splitext_root (dir ++ 47%N :: stem ++ 46%N :: ext) = dir ++ 47%N :: stem.
Proof.
  intros Hs He Hd Hstem. unfold splitext_root.
  assert (Hsep : rfind 47 (dir ++ 47%N :: stem ++ 46%N :: ext)
                 = Z.of_nat (length dir)).
  { apply rfind_last. intros H. apply in_app_or in H as [H|[H|H]];
      [tauto|discriminate|tauto]. }
  assert (Hdot : rfind 46 (dir ++ 47%N :: stem ++ 46%N :: ext)
                 = Z.of_nat (length (dir ++ 47%N :: stem))).
  { replace (dir ++ 47%N :: stem ++ 46%N :: ext)
      with ((dir ++ 47%N :: stem) ++ 46%N :: ext)
      by (rewrite <- app_assoc; reflexivity).
    apply rfind_last. exact Hd. }
  rewrite Hsep, Hdot. rewrite length_app. cbn [length].
  replace (Z.of_nat (length dir) <? Z.of_nat (length dir + S (length stem)))%Z
    with true by (symmetry; apply Z.ltb_lt; lia).
  assert (Hmid : slice (dir ++ 47%N :: stem ++ 46%N :: ext)
                       (Z.of_nat (length dir) + 1)
                       (Z.of_nat (length dir + S (length stem))) = stem).
  { replace (dir ++ 47%N :: stem ++ 46%N :: ext)
      with ((dir ++ [47%N]) ++ stem ++ 46%N :: ext)
      by (rewrite <- app_assoc; reflexivity).
    replace (Z.of_nat (length dir) + 1)%Z
      with (Z.of_nat (length (dir ++ [47%N])))
      by (rewrite length_app; cbn [length]; lia).
    replace (length dir + S (length stem))%nat
      with (length (dir ++ [47%N]) + length stem)%nat
      by (rewrite length_app; cbn [length]; lia).
    apply slice_middle. }
  rewrite Hmid, Hstem. cbn [andb].
  rewrite slice_from_start by lia. rewrite Nat2Z.id.
  replace (dir ++ 47%N :: stem ++ 46%N :: ext)
    with ((dir ++ 47%N :: stem) ++ 46%N :: ext)
    by (rewrite <- app_assoc; reflexivity).
  apply firstn_app_length. rewrite length_app. reflexivity.
Qed.

(** With nothing but dots before the last dot of the name, the name has
    no extension. *)
Lemma splitext_root_dots (dir stem ext : text) :
  ~ In 47%N stem -> ~ In 47%N ext -> ~ In 46%N ext ->
  existsb (fun c => negb (cp_eqb c 46)) stem = false ->
  splitext_root (dir ++ 47%N :: stem ++ 46%N :: ext)
  = dir ++ 47%N :: stem ++ 46%N :: ext.
Proof.
  intros Hs He Hd Hstem. unfold splitext_root.
  assert (Hsep : rfind 47 (dir ++ 47%N :: stem ++ 46%N :: ext)
                 = Z.of_nat (length dir)).
  { apply rfind_last. intros H. apply in_app_or in H as [H|[H|H]];
      [tauto|discriminate|tauto]. }
  assert (Hdot : rfind 46 (dir ++ 47%N :: stem ++ 46%N :: ext)
                 = Z.of_nat (length (dir ++ 47%N :: stem))).
  { replace (dir ++ 47%N :: stem ++ 46%N :: ext)
      with ((dir ++ 47%N :: stem) ++ 46%N :: ext)
      by (rewrite <- app_assoc; reflexivity).
    apply rfind_last. exact Hd. }
  rewrite Hsep, Hdot. rewrite length_app. cbn [length].
  assert (Hmid : slice (dir ++ 47%N :: stem ++ 46%N :: ext)
                       (Z.of_nat (length dir) + 1)
                       (Z.of_nat (length dir + S (length stem))) = stem).
  { replace (dir ++ 47%N :: stem ++ 46%N :: ext)
      with ((dir ++ [47%N]) ++ stem ++ 46%N :: ext)
      by (rewrite <- app_assoc; reflexivity).
    replace (Z.of_nat (length dir) + 1)%Z
      with (Z.of_nat (length (dir ++ [47%N])))
      by (rewrite length_app; cbn [length]; lia).
    replace (length dir + S (length stem))%nat
      with (length (dir ++ [47%N]) + length stem)%nat
      by (rewrite length_app; cbn [length]; lia).
    apply slice_middle. }
  rewrite Hmid, Hstem. rewrite andb_false_r. reflexivity.
Qed.

(** X14.  For a PDF [dir/stem.ext], where neither the name nor the
    extension holds a slash and the extension holds no dot, the batch
    writes to [dir/stem.json] when the stem holds a character other than
    a dot.  When the stem is empty or all dots, as for a file named
    [.pdf], the name counts as having no extension and the batch writes
    to [dir/stem.ext.json]. *)
Theorem json_path_of_pdf (dir stem ext : text) :
  ~ In 47%N stem -> ~ In 47%N ext -> ~ In 46%N ext ->
  let pdf := dir ++ py "/" ++ stem ++ py "." ++ ext in
  splitext_root pdf ++ py ".json"
  = if existsb (fun c => negb (cp_eqb c 46)) stem
    then dir ++ py "/" ++ stem ++ py ".json"
    else pdf ++ py ".json".
Proof.
  intros Hs He Hd pdf. unfold pdf.
  change (dir ++ py "/" ++ stem ++ py "." ++ ext)
    with (dir ++ 47%N :: stem ++ 46%N :: ext).
  destruct (existsb (fun c => negb (cp_eqb c 46)) stem) eqn:Hstem.
  - rewrite splitext_root_name by assumption.
    change (py "/" ++ stem ++ py ".json") with (47%N :: stem ++ py ".json").
    rewrite <- app_assoc. reflexivity.
  - rewrite splitext_root_dots by assumption. reflexivity.
Qed.

Lemma json_path_of_pdf_witness :
  splitext_root (py "/data/Clinton_etal_2020.PDF") ++ py ".json"
  = py "/data/Clinton_etal_2020.json".
Proof.
  pose proof (@json_path_of_pdf (py "/data") (py "Clinton_etal_2020") (py "PDF"))
    as H.
  assert (H1 : ~ In 47%N (py "Clinton_etal_2020"))
    by (apply not_in_existsb; vm_compute; reflexivity).
  assert (H2 : ~ In 47%N (py "PDF"))
    by (apply not_in_existsb; vm_compute; reflexivity).
  assert (H3 : ~ In 46%N (py "PDF"))
    by (apply not_in_existsb; vm_compute; reflexivity).
  specialize (H H1 H2 H3). vm_compute in H. vm_compute. exact H.
Defined.

(** ** The program *)

Section WholeProgram.
Context {U : Unicode} {M : Host}.
Variable listdir : text -> listing.
Variable isfile : text -> bool.
Variable endpoint : history -> request -> outcome.
Variable pdf_pages : text -> text + list (text * text).

(** X15.  When the directory does not exist the program sends nothing,
    writes nothing and ends with no results.  Any other failure to list
    the directory ends the program at once.  When the directory can be
    listed, every file the program writes, to the end or not, is named
    after an entry of the directory that is a file, whose name in lower
    case ends with [.pdf] and whose text could be read; a file written to
    the end holds a JSON mapping whose keys and strings can all be
    encoded. *)
Theorem program_works_on_listed_pdfs (directory_path : text) (h : history) :
  let run := run_program listdir isfile endpoint pdf_pages directory_path h in
  let from_listing := fun (files : list text) (path : text) =>
    exists f,
      In f files
      /\ isfile (path_join directory_path f) = true
      /\ ends_with (str_lower f) (py ".pdf") = true
      /\ readable pdf_pages (directory_path ++ py "/" ++ f) = true
      /\ path = splitext_root (directory_path ++ py "/" ++ f) ++ py ".json" in
  (listdir directory_path = NotFound -> run = Some ([], h))
  /\ (forall e, listdir directory_path = OtherError e -> run = None)
  /\ (forall files, listdir directory_path = Names files ->
        exists results h',
          run = Some (results, h')
          /\ (forall path content,
                In (Dump path content) h' ->
                In (Dump path content) h
                \/ from_listing files path
                   /\ (exists d, content = JObject d)
                   /\ encodable content = true)
          /\ (forall path,
                In (DumpFailed path) h' ->
                In (DumpFailed path) h \/ from_listing files path)).
Proof.
  intros run from_listing. unfold run, run_program, list_files_in_directory.
  split; [|split].
  - intros ->. reflexivity.
  - intros e ->. reflexivity.
  - intros files ->.
    set (pdfs := map (fun f => directory_path ++ py "/" ++ f)
                     (filter (fun f => isfile (path_join directory_path f)
                                       && ends_with (str_lower f) (py ".pdf"))
                             files)).
    assert (Hfrom : forall path,
              (exists pdf, In pdf pdfs /\ readable pdf_pages pdf = true
                           /\ path = splitext_root pdf ++ py ".json") ->
              from_listing files path).
    { intros path (pdf & Hin & Hr & Hp).
      unfold pdfs in Hin. apply in_map_iff in Hin as (f & <- & Hf).
      apply filter_In in Hf as [Hf Hcond].
      apply andb_true_iff in Hcond as [Hfile Hext].
      exists f. repeat split; assumption. }
    destruct (run_batch_dumps endpoint pdf_pages pdfs [] h) as [Hd Hf].
    destruct (run_batch endpoint pdf_pages pdfs [] h) as [results h'].
    cbn [snd] in Hd, Hf.
    exists results, h'. split; [reflexivity|]. split.
    + intros path content H.
      apply Hd in H as [H|(Hpdf & Hobj & Henc)]; [now left|].
      right. split; [exact (Hfrom path Hpdf)|]. split; assumption.
    + intros path H.
      apply Hf in H as [H|Hpdf]; [now left|].
      right. exact (Hfrom path Hpdf).
Qed.
End WholeProgram.

(** ** [safe_get] *)

Lemma safe_get_none (path : list text) : safe_get JNull path = JNull.
Proof. destruct path; reflexivity. Qed.

(** X16.  [safe_get] follows a path of keys step by step: looking up a
    path made of two parts is looking up the second part in what the first
    part leads to.  Where the path meets a value that is not a mapping
    while keys are left, or a key that the mapping does not have, the
    result is [None]; nothing is raised. *)
Theorem safe_get_composes (d : json) (p q : list text) :
  safe_get d (p ++ q) = safe_get (safe_get d p) q
  /\ (forall key, (forall pairs, safe_get d p <> JObject pairs) ->
                  safe_get d (p ++ key :: q) = JNull)
  /\ (forall key pairs, safe_get d p = JObject pairs ->
                        dict_get key pairs = JNull ->
                        safe_get d (p ++ key :: q) = JNull).
Proof.
  assert (Happ : forall p d q, safe_get d (p ++ q) = safe_get (safe_get d p) q).
  { clear. induction p as [|k p IH]; intros d q; [reflexivity|].
    cbn [app safe_get]. destruct d; try (now rewrite safe_get_none).
    apply IH. }
  split; [apply Happ|]. split.
  - intros key Hnot. rewrite Happ. cbn [safe_get].
    destruct (safe_get d p); try reflexivity.
    exfalso. eapply Hnot. reflexivity.
  - intros key pairs Hd Hk. rewrite Happ, Hd. cbn [safe_get].
    rewrite Hk. apply safe_get_none.
Qed.

Lemma safe_get_composes_witness :
  let r := JObject [(py "primary_location",
                     JObject [(py "source", JNull);
                              (py "pdf_url", JString (py "u"))])] in
  safe_get r [py "primary_location"; py "source"; py "is_oa"] = JNull.
Proof.
  intros r.
  destruct (@safe_get_composes r [py "primary_location"; py "source"] [])
    as (_ & H & _).
  apply (H (py "is_oa")). intros pairs. vm_compute. discriminate.
Defined.

(** ** What a request carries *)

Lemma subseq_firstn (n : nat) (t : text) : Subseq (firstn n t) t.
Proof.
  revert n. induction t as [|c t IH]; intros [|n]; cbn [firstn].
  - constructor.
  - constructor.
  - apply subseq_nil.
  - apply SubKeep. apply IH.
Qed.

Section PromptBody.
Context {U : Unicode} {M : Host}.
Variable endpoint : history -> request -> outcome.
Variable pdf_pages : text -> text + list (text * text).

(** The prompt of the request for the text of one PDF: the template
    around a body cut from the text. *)
Lemma request_for_bounded (raw : text) :
  let prompt := rq_prompt (request_for raw) in
  exists body,
    prompt = firstn 3016 json_prompt_template ++ body
             ++ skipn 3022 json_prompt_template
    /\ Subseq body raw
    /\ length body <= 30000
    /\ length prompt = 3575 + length body.
Proof.
  intros prompt. unfold prompt, request_for. cbn [rq_prompt].
  destruct build_prompt_shape as [_ Hbuild].
  set (body := slice (strip_citations_and_references raw) 0 30000).
  assert (Hbody : body = firstn 30000 (strip_citations_and_references raw)).
  { unfold body. rewrite slice_from_start by lia. reflexivity. }
  exists body. split; [apply Hbuild|]. split; [|split].
  - rewrite Hbody. eapply subseq_trans; [apply subseq_firstn|].
    apply strip_citations_subseq.
  - rewrite Hbody. apply firstn_le_length.
  - rewrite Hbuild. repeat rewrite length_app.
    replace (length (firstn 3016 json_prompt_template)) with 3016
      by (vm_compute; reflexivity).
    replace (length (skipn 3022 json_prompt_template)) with 559
      by (vm_compute; reflexivity).
    lia.
Qed.



(** X17.  The prompt of every request that a batch run sends is the
    template with, in the place of the placeholder, a text that is the
    text read from one of the PDFs with some characters deleted, and that
    is at most 30,000 characters long.  So a prompt has at most 33,575
    characters: the 3,575 of the template around the placeholder and
    those of the text. *)
Theorem batch_prompt_bounded
        (pdfs : list text) (results : list (option text)) (h : history)
        (rq : request) :
  In (Post rq) (snd (run_batch endpoint pdf_pages pdfs results h)) ->
  In (Post rq) h
  \/ exists pdf raw body,
       In pdf pdfs /\ extract_pdf_text_clean pdf_pages pdf = inr raw
       /\ rq_prompt rq = firstn 3016 json_prompt_template ++ body
                         ++ skipn 3022 json_prompt_template
       /\ Subseq body raw
       /\ length body <= 30000
       /\ length (rq_prompt rq) = 3575 + length body.
Proof.
  intros Hrq.
  destruct (proj1 (run_batch_requests endpoint pdf_pages pdfs results h) rq Hrq)
    as [Hold|(pdf & raw & Hin & Hraw & ->)]; [now left|].
  right. destruct (request_for_bounded raw) as (body & Hbody).
  exists pdf, raw, body. split; [exact Hin|]. split; [exact Hraw|].
  exact Hbody.
Qed.
End PromptBody.


Lemma batch_prompt_bounded_witness :
  let raw := py "See (Smith 2020) here." in
  let pages := fun _ : text => inr [(raw, raw)] : text + list (text * text) in
  let rq := Request (py "qwen3:8b") (build_prompt (py "See  here.")) 32768 in
  let h' := snd (run_batch (fun _ _ => Answer (py "{}")) pages
                           [py "/d/a.pdf"] [] []) in
  In (Post rq) h'
  /\ (In (Post rq) []
      \/ exists pdf raw' body,
           In pdf [py "/d/a.pdf"]
           /\ extract_pdf_text_clean pages pdf = inr raw'
           /\ rq_prompt rq = firstn 3016 json_prompt_template ++ body
                             ++ skipn 3022 json_prompt_template
           /\ Subseq body raw'
           /\ length body <= 30000
           /\ length (rq_prompt rq) = 3575 + length body).
Proof.
  intros raw pages rq h'.
  assert (Hin : In (Post rq) h') by (vm_compute; left; reflexivity).
  split; [exact Hin|].
  exact (@batch_prompt_bounded latin1 quiet_host
           (fun _ _ => Answer (py "{}")) pages [py "/d/a.pdf"] [] [] rq Hin).
Defined.

(** ** The cleaner: the edges of the lines *)

Lemma no_pair_tail (bad : cp -> cp -> bool) (c : cp) (t : text) :
  no_pair bad (c :: t) = true -> no_pair bad t = true.
Proof. cbn [no_pair]. intros H. now apply andb_true_iff in H as [_ H]. Qed.

Lemma no_pair_suffix (bad : cp -> cp -> bool) (a b : text) :
  no_pair bad (a ++ b) = true -> no_pair bad b = true.
Proof.
  induction a as [|c a IH]; cbn [app]; [trivial|].
  intros H. apply IH. now apply no_pair_tail in H.
Qed.

Lemma no_pair_infix (bad : cp -> cp -> bool) (a b : text) (x y : cp) :
  no_pair bad (a ++ x :: y :: b) = true -> bad x y = false.
Proof.
  intros H. apply no_pair_suffix in H. cbn in H.
  apply andb_true_iff in H as [H _]. now apply negb_true_iff in H.
Qed.

Lemma no_pair_never (t : text) : no_pair (fun _ _ => false) t = true.
Proof.
  induction t as [|c t IH]; [reflexivity|].
  cbn [no_pair]. rewrite IH. now destruct (hd_error t).
Qed.

Lemma single_spaced_infix (a b : text) (x y : cp) :
  single_spaced (a ++ x :: y :: b) = true -> hspace x && hspace y = false.
Proof.
  intros H. destruct (hspace x) eqn:Hx; [|reflexivity].
  destruct (hspace y) eqn:Hy; [|reflexivity].
  rewrite single_spaced_no_pair in H by assumption. discriminate.
Qed.

Section EdgePass.
Variable r : regex.
Variable two : bool.
Variables first lastp : charset.
Variables badin badout : cp -> cp -> bool.

Hypothesis Hfirst :
  forall m, Matches r m -> exists x m', m = x :: m' /\ first x = true.
Hypothesis Hlast :
  forall m, Matches r m -> exists m' x, m = m' ++ [x] /\ lastp x = true.
Hypothesis Hcopy :
  forall prev c d rest,
    match_here r prev (c :: d :: rest) = None ->
    badin c d = false -> hspace c && hspace d = false -> badout c d = false.
Hypothesis Hbefore :
  forall c x, first x = true -> badin c x = false ->
              hspace c && hspace x = false -> badout c nl = false.
Hypothesis Hafter :
  forall x d, lastp x = true -> badin x d = false ->
              hspace x && hspace d = false -> badout nl d = false.
Hypothesis Hbreaks : badout nl nl = false.

(** The first character of the result is the first character of the
    text, or the line break put for a match at the start of the text. *)
Lemma sub_head_cases (t : text) :
  forall prev skip,
    let out := sub_from r [Lit (breaks two)] prev skip t in
    hd_error out = None
    \/ hd_error out = hd_error (skipn skip t)
    \/ (hd_error out = Some nl
        /\ exists x, hd_error (skipn skip t) = Some x /\ first x = true).
Proof.
  induction t as [|c t IH]; intros prev skip.
  - left. reflexivity.
  - cbn [sub_from]. destruct skip as [|n]; [|apply IH].
    destruct (match_here r prev (c :: t)) as [st'|] eqn:E.
    + right; right. split.
      * cbn [expand]. unfold breaks. destruct two; reflexivity.
      * apply match_here_sound in E as (m & Et & M & _ & _).
        destruct (Hfirst M) as (x & m' & -> & Hx).
        injection Et as <- _. exists c. split; [reflexivity|exact Hx].
    + right; left. reflexivity.
Qed.

Lemma sub_edges (t : text) :
  single_spaced t = true -> no_pair badin t = true ->
  forall prev skip, no_pair badout (sub_from r [Lit (breaks two)] prev skip t) = true.
Proof.
  induction t as [|c t IH]; intros Hs Hin prev skip; [reflexivity|].
  pose proof (single_spaced_tail _ _ Hs) as Hs'.
  pose proof (no_pair_tail _ _ _ Hin) as Hin'.
  cbn [sub_from]. destruct skip as [|n]; [|apply (IH Hs' Hin')].
  destruct (match_here r prev (c :: t)) as [st'|] eqn:E.
  - apply match_here_sound in E as (m & Et & M & Hne & Hlen).
    rewrite Hlen. destruct (Hlast M) as (m' & x & Hm & Hx).
    destruct m as [|c0 m1]; [congruence|].
    injection Et as <- Et. cbn [length Init.Nat.pred].
    set (X := sub_from r [Lit (breaks two)] (Some c) (length m1) t).
    assert (HX : no_pair badout X = true) by apply (IH Hs' Hin').
    assert (Hnext : holds_opt (badout nl) (hd_error X) = false).
    { destruct (sub_head_cases t (Some c) (length m1))
        as [H0|[H0|(H0 & y & Hy & Hfy)]]; fold X in H0; rewrite H0.
      - reflexivity.
      - rewrite Et, skipn_app_exact.
        destruct (m_rest st') as [|d rest] eqn:Erest; [reflexivity|].
        cbn [hd_error holds_opt].
        assert (Ht : c :: t = m' ++ x :: d :: rest).
        { rewrite Et. change (c :: m1 ++ d :: rest) with ((c :: m1) ++ d :: rest).
          rewrite Hm. rewrite <- app_assoc. reflexivity. }
        rewrite Ht in Hs, Hin.
        eapply Hafter; [exact Hx| |].
        -- apply (@no_pair_infix badin m' rest x d). exact Hin.
        -- apply (@single_spaced_infix m' rest x d). exact Hs.
      - exact Hbreaks. }
    cbn [expand]. rewrite app_nil_r. unfold breaks. destruct two.
    + cbn [app no_pair hd_error holds_opt]. fold X.
      rewrite Hbreaks, Hnext, HX. reflexivity.
    + cbn [app no_pair]. fold X. rewrite Hnext, HX. reflexivity.
  - set (X := sub_from r [Lit (breaks two)] (Some c) 0 t).
    assert (HX : no_pair badout X = true) by apply (IH Hs' Hin').
    cbn [no_pair]. fold X. rewrite HX, andb_true_r. apply negb_true_iff.
    destruct (sub_head_cases t (Some c) 0)
      as [H0|[H0|(H0 & y & Hy & Hfy)]]; fold X in H0; rewrite H0.
    + reflexivity.
    + cbn [skipn]. destruct t as [|d rest]; [reflexivity|].
      cbn [hd_error holds_opt].
      eapply Hcopy; [exact E| |].
      * apply (@no_pair_infix badin [] rest c d). exact Hin.
      * apply (@single_spaced_infix [] rest c d). exact Hs.
    + cbn [skipn] in Hy. destruct t as [|d rest]; [discriminate|].
      injection Hy as Hy. subst y. cbn [holds_opt].
      eapply Hbefore; [exact Hfy| |].
      * apply (@no_pair_infix badin [] rest c d). exact Hin.
      * apply (@single_spaced_infix [] rest c d). exact Hs.
Qed.
End EdgePass.

Lemma lead_space_shape (m : text) :
  Matches re_lead_space m ->
  exists hs, m = nl :: hs /\ hs <> [] /\ forallb hspace hs = true.
Proof.
  unfold re_lead_space. cbn [cat]. intros M.
  apply matches_seq in M as (a & b & -> & Ma & Mb).
  apply matches_chr in Ma as (c & -> & Hc). apply lit_true in Hc as ->.
  apply matches_rep_chr in Mb as (Hall & Hlo & _).
  exists b. split; [reflexivity|]. split; [|exact Hall].
  destruct b; [simpl in Hlo; lia|discriminate].
Qed.

Lemma trail_space_shape (m : text) :
  Matches re_trail_space m ->
  exists hs, m = hs ++ [nl] /\ hs <> [] /\ forallb hspace hs = true.
Proof.
  unfold re_trail_space. cbn [cat]. intros M.
  apply matches_seq in M as (a & b & -> & Ma & Mb).
  apply matches_chr in Mb as (c & -> & Hc). apply lit_true in Hc as ->.
  apply matches_rep_chr in Ma as (Hall & Hlo & _).
  exists a. split; [reflexivity|]. split; [|exact Hall].
  destruct a; [simpl in Hlo; lia|discriminate].
Qed.

Lemma blank_lines_shape (m : text) :
  Matches re_blank_lines m -> m <> [] /\ forallb is_nl m = true.
Proof.
  unfold re_blank_lines, at_least. intros M.
  apply matches_rep_chr in M as (Hall & Hlo & _). split.
  - destruct m; [simpl in Hlo; lia|discriminate].
  - rewrite forallb_forall in *. intros c Hc. specialize (Hall c Hc).
    apply lit_true in Hall as ->. reflexivity.
Qed.

Lemma forallb_last (p : charset) (hs : text) :
  hs <> [] -> forallb p hs = true ->
  exists hs' x, hs = hs' ++ [x] /\ p x = true.
Proof.
  intros Hne Hall. destruct (exists_last Hne) as (hs' & x & ->).
  exists hs', x. split; [reflexivity|].
  rewrite forallb_app in Hall. apply andb_true_iff in Hall as [_ Hx].
  cbn in Hx. now rewrite andb_true_r in Hx.
Qed.

Lemma is_nl_true (c : cp) : is_nl c = true -> c = nl.
Proof. unfold is_nl. apply cp_eqb_eq. Qed.

(** Step 5b: after it no line break is followed by a blank. *)
Lemma lead_space_edges (t : text) :
  single_spaced t = true ->
  no_pair nl_then_blank (re_sub re_lead_space [Lit [nl]] t) = true.
Proof.
  intros Hs. unfold re_sub.
  apply (@sub_edges re_lead_space false is_nl hspace (fun _ _ => false)
                    nl_then_blank).
  - intros m M. apply lead_space_shape in M as (hs & -> & _). eauto.
  - intros m M. apply lead_space_shape in M as (hs & -> & Hne & Hall).
    destruct (forallb_last _ Hne Hall) as (hs' & x & -> & Hx).
    exists (nl :: hs'), x. split; [reflexivity|exact Hx].
  - intros prev c d rest E _ _. unfold nl_then_blank.
    destruct (is_nl c) eqn:Hc; [|reflexivity].
    destruct (hspace d) eqn:Hd; [|reflexivity].
    exfalso. apply is_nl_true in Hc as ->.
    apply (@match_here_complete re_lead_space prev [nl; d] rest eq_refl).
    + intros m' M. apply lead_space_shape in M as (hs & -> & _). discriminate.
    + unfold re_lead_space. cbn [cat].
      change [nl; d] with ([nl] ++ [d]). apply MSeq.
      * apply MChr. unfold lit. apply cp_eqb_refl.
      * now apply matches_hspaces_one.
    + exact E.
  - intros c x _ _ _. unfold nl_then_blank. apply andb_false_r.
  - intros x d Hx _ Hpair. unfold nl_then_blank.
    rewrite Hx in Hpair. cbn [andb] in Hpair. rewrite Hpair. apply andb_false_r.
  - reflexivity.
  - exact Hs.
  - apply no_pair_never.
Qed.

(** Step 5c: after it no blank is followed by a line break either. *)
Lemma trail_space_edges (t : text) :
  single_spaced t = true -> no_pair nl_then_blank t = true ->
  no_pair edge_blank (re_sub re_trail_space [Lit [nl]] t) = true.
Proof.
  intros Hs Hin. unfold re_sub.
  apply (@sub_edges re_trail_space false hspace is_nl nl_then_blank edge_blank).
  - intros m M. apply trail_space_shape in M as (hs & -> & Hne & Hall).
    destruct hs as [|x hs]; [congruence|].
    cbn [forallb] in Hall. apply andb_true_iff in Hall as [Hx _].
    exists x, (hs ++ [nl]). split; [reflexivity|exact Hx].
  - intros m M. apply trail_space_shape in M as (hs & -> & _).
    exists hs, nl. split; reflexivity.
  - intros prev c d rest E Hcd _. unfold edge_blank. rewrite Hcd. cbn [orb].
    unfold blank_then_nl.
    destruct (hspace c) eqn:Hc; [|reflexivity].
    destruct (is_nl d) eqn:Hd; [|reflexivity].
    exfalso. apply is_nl_true in Hd as ->.
    apply (@match_here_complete re_trail_space prev [c; nl] rest eq_refl).
    + intros m' M. apply trail_space_shape in M as (hs & -> & _).
      destruct hs; discriminate.
    + unfold re_trail_space. cbn [cat].
      change [c; nl] with ([c] ++ [nl]). apply MSeq.
      * now apply matches_hspaces_one.
      * apply MChr. unfold lit. apply cp_eqb_refl.
    + exact E.
  - intros c x Hx _ Hpair. unfold edge_blank, nl_then_blank, blank_then_nl.
    rewrite Hx, andb_true_r in Hpair. rewrite Hpair.
    rewrite andb_false_r. reflexivity.
  - intros x d Hx Hxd _. apply is_nl_true in Hx as ->.
    unfold edge_blank. rewrite Hxd. reflexivity.
  - reflexivity.
  - exact Hs.
  - exact Hin.
Qed.

(** Step 5d keeps both. *)
Lemma blank_lines_edges (t : text) :
  single_spaced t = true -> no_pair edge_blank t = true ->
  no_pair edge_blank (re_sub re_blank_lines [Lit [nl; nl]] t) = true.
Proof.
  intros Hs Hin. unfold re_sub.
  apply (@sub_edges re_blank_lines true is_nl is_nl edge_blank edge_blank).
  - intros m M. apply blank_lines_shape in M as (Hne & Hall).
    destruct m as [|x m]; [congruence|].
    cbn [forallb] in Hall. apply andb_true_iff in Hall as [Hx _]. eauto.
  - intros m M. apply blank_lines_shape in M as (Hne & Hall).
    apply (forallb_last _ Hne Hall).
  - intros prev c d rest _ Hcd _. exact Hcd.
  - intros c x Hx Hcx _. apply is_nl_true in Hx as ->. exact Hcx.
  - intros x d Hx Hxd _. apply is_nl_true in Hx as ->. exact Hxd.
  - reflexivity.
  - exact Hs.
  - exact Hin.
Qed.

Lemma normalize_whitespace_edges (j : text) :
  forall a b c d,
    normalize_whitespace j = a ++ c :: d :: b -> edge_blank c d = false.
Proof.
  intros a b c d E. unfold normalize_whitespace in E.
  pose proof (hspaces_collapse j None 0) as [H1 _]. cbv zeta in H1.
  fold (re_sub re_hspaces [Lit [space]] j) in H1.
  set (t1 := re_sub re_hspaces [Lit [space]] j) in *.
  pose proof (@sub_break_single_spaced re_lead_space [nl] ltac:(discriminate)
                eq_refl _ H1 None 0) as [H2 _]. cbv zeta in H2.
  fold (re_sub re_lead_space [Lit [nl]] t1) in H2.
  pose proof (lead_space_edges _ H1) as E2.
  set (t2 := re_sub re_lead_space [Lit [nl]] t1) in *.
  pose proof (@sub_break_single_spaced re_trail_space [nl] ltac:(discriminate)
                eq_refl _ H2 None 0) as [H3 _]. cbv zeta in H3.
  fold (re_sub re_trail_space [Lit [nl]] t2) in H3.
  pose proof (trail_space_edges _ H2 E2) as E3.
  set (t3 := re_sub re_trail_space [Lit [nl]] t2) in *.
  pose proof (@sub_break_single_spaced re_blank_lines [nl; nl]
                ltac:(discriminate) eq_refl _ H3 None 0) as [H4 _].
  cbv zeta in H4.
  fold (re_sub re_blank_lines [Lit [nl; nl]] t3) in H4.
  pose proof (blank_lines_edges _ H3 E3) as E4.
  set (t4 := re_sub re_blank_lines [Lit [nl; nl]] t3) in *.
  rewrite (hspaces2_fixed _ H4) in E.
  destruct (strip_infix t4) as (a0 & b0 & Ht4).
  rewrite E in Ht4. rewrite Ht4 in E4.
  replace (a0 ++ (a ++ c :: d :: b) ++ b0)
    with ((a0 ++ a) ++ c :: d :: (b ++ b0)) in E4
    by (repeat rewrite <- app_assoc; reflexivity).
  apply (@no_pair_infix edge_blank (a0 ++ a) (b ++ b0) c d). exact E4.
Qed.

Section LineEdges.
Context {U : Unicode}.

(** X18.  In the text that [clean_pdf_text] returns no line begins or
    ends with a blank or a tab: a line break is never followed, and never
    preceded, by one, and the text itself neither begins nor ends with
    white space. *)
Theorem clean_pdf_text_line_edges (t : text) :
  let out := clean_pdf_text t in
  (forall a b c d,
     out = a ++ c :: d :: b ->
     ~ (c = nl /\ hspace d = true) /\ ~ (hspace c = true /\ d = nl))
  /\ strip out = out.
Proof.
  intros out. split.
  - intros a b c d E. unfold out, clean_pdf_text in E.
    apply normalize_whitespace_edges in E.
    unfold edge_blank, nl_then_blank, blank_then_nl in E.
    apply orb_false_iff in E as [E1 E2]. split.
    + intros [-> Hd]. rewrite Hd in E1. discriminate.
    + intros [Hc ->]. rewrite Hc in E2. discriminate.
  - unfold out, clean_pdf_text. apply normalize_whitespace_trimmed.
Qed.
End LineEdges.

(** ** Running the cleaner on its own result, once more *)

Lemma join_split_nl (t : text) : join_nl (split_nl t) = t.
Proof.
  induction t as [|c t IH]; [reflexivity|]. cbn [split_nl].
  destruct (cp_eqb c nl) eqn:E.
  - apply cp_eqb_eq in E. subst c.
    destruct (split_nl t) as [|l ls] eqn:S.
    + destruct t; simpl in S; [discriminate|].
      destruct (cp_eqb c nl); [discriminate|].
      destruct (split_nl t); discriminate.
    + change (join_nl ([] :: l :: ls)) with ([] ++ nl :: join_nl (l :: ls)).
      rewrite IH. reflexivity.
  - destruct (split_nl t) as [|l ls] eqn:S.
    + destruct t; simpl in S; [discriminate|].
      destruct (cp_eqb c0 nl); [discriminate|].
      destruct (split_nl t); discriminate.
    + destruct ls as [|l' ls].
      * cbn [join_nl] in *. now f_equal.
      * change (join_nl ((c :: l) :: l' :: ls))
          with (c :: (l ++ nl :: join_nl (l' :: ls))).
        f_equal. exact IH.
Qed.

(** Step 5 leaves alone a text that is single-spaced, has no blank or tab
    next to a line break, no blank line, and is trimmed. *)
Lemma normalize_whitespace_settled (y : text) :
  single_spaced y = true ->
  (forall a b c d, y = a ++ c :: d :: b -> edge_blank c d = false) ->
  y = [] \/ lines_ok false y = true ->
  strip y = y ->
  normalize_whitespace y = y.
Proof.
  intros Hs Hedge Hlines Hstrip. unfold normalize_whitespace.
  unfold re_sub at 5. rewrite (@hspaces_fixed _ Hs).
  assert (Hlead : re_sub re_lead_space [Lit [nl]] y = y).
  { apply sub_from_no_match. intros a m b Ey M. exfalso.
    apply lead_space_shape in M as (hs & -> & Hne & Hall).
    destruct hs as [|x hs]; [congruence|].
    cbn [forallb] in Hall. apply andb_true_iff in Hall as [Hx _].
    assert (E : edge_blank nl x = false).
    { apply (Hedge a (hs ++ b)). rewrite Ey. cbn [app]. reflexivity. }
    unfold edge_blank, nl_then_blank in E. rewrite Hx in E.
    discriminate E. }
  rewrite Hlead.
  assert (Htrail : re_sub re_trail_space [Lit [nl]] y = y).
  { apply sub_from_no_match. intros a m b Ey M. exfalso.
    apply trail_space_shape in M as (hs & -> & Hne & Hall).
    apply forallb_last in Hall as (hs' & x & -> & Hx); [|exact Hne].
    assert (E : edge_blank x nl = false).
    { apply (Hedge (a ++ hs') b). rewrite Ey.
      repeat rewrite <- app_assoc. reflexivity. }
    unfold edge_blank, blank_then_nl in E. rewrite Hx in E.
    rewrite orb_comm in E. discriminate E. }
  rewrite Htrail.
  assert (Hblank : re_sub re_blank_lines [Lit [nl; nl]] y = y).
  { destruct Hlines as [->|Hok]; [reflexivity|].
    now apply blank_lines_absent. }
  rewrite Hblank. rewrite (@hspaces2_fixed _ Hs). exact Hstrip.
Qed.

Section Settled.
Context {U : Unicode}.

Lemma clean_pdf_text_lines_ok (t : text) :
  clean_pdf_text t = [] \/ lines_ok false (clean_pdf_text t) = true.
Proof.
  unfold clean_pdf_text.
  destruct (dedup_from_spec (split_nl (unwrap_and_scrub t)) [])
    as (_ & Hin & _).
  fold (dedup (split_nl (unwrap_and_scrub t))) in Hin.
  destruct (dedup (split_nl (unwrap_and_scrub t))) as [|l ls] eqn:E.
  - left. reflexivity.
  - right. apply normalize_whitespace_lines. apply lines_ok_join.
    + discriminate.
    + apply Forall_forall. intros x Hx.
      destruct (Hin x Hx) as (_ & Hb & Hl). split; [exact Hb|].
      exact (split_nl_no_break _ _ Hl).
Qed.

(** C2, amended.  Step 5 of the cleaner changes nothing in a result of
    the cleaner.  So the cleaner returns its own result [y] unchanged
    whenever steps 1 to 3 leave [y] as it is and no two lines of [y] have
    the same key: what a second run can still change is a line break that
    step 2 turns into a blank, a span that step 3 removes, or a line that
    repeats another one. *)
Theorem clean_pdf_text_fixes_settled_results (x : text) :
  let y := clean_pdf_text x in
  normalize_whitespace y = y
  /\ (unwrap_and_scrub y = y ->
      NoDup (map line_key (split_nl y)) ->
      clean_pdf_text y = y).
Proof.
  intros y.
  assert (Hnorm : normalize_whitespace y = y).
  { apply normalize_whitespace_settled.
    - apply normalize_whitespace_single_spaced.
    - apply normalize_whitespace_edges.
    - apply clean_pdf_text_lines_ok.
    - apply normalize_whitespace_trimmed. }
  split; [exact Hnorm|].
  intros Hscrub Hnd. unfold clean_pdf_text at 1. rewrite Hscrub.
  destruct (clean_pdf_text_lines_ok x) as [Hnil|Hok]; fold y in Hnil || fold y in Hok.
  - rewrite Hnil. reflexivity.
  - assert (Hded : dedup (split_nl y) = split_nl y).
    { unfold dedup. apply dedup_from_fixed; [|exact Hnd].
      intros l Hl. split; [|intros []].
      rewrite lines_ok_split in Hok.
      destruct (split_nl y) as [|l0 ls]; [discriminate|].
      cbn [orb] in Hok. apply andb_true_iff in Hok as [H0 Hls].
      destruct Hl as [<-|Hl]; [exact H0|].
      rewrite forallb_forall in Hls. exact (Hls l Hl). }
    rewrite Hded, join_split_nl. exact Hnorm.
Qed.
End Settled.

Lemma clean_pdf_text_fixes_settled_results_witness :
  let y := clean_pdf_text
             (py "Alpha/Beta\nIn 2020 we  found 3 effects \nEither/or | maybe") in
  y = py "Alpha/Beta\nIn 2020 we found 3 effects\nEither/or | maybe"
  /\ clean_pdf_text y = y.
Proof.
  intros y. split; [vm_compute; reflexivity|]. unfold y.
  apply (proj2 (@clean_pdf_text_fixes_settled_results latin1
     (py "Alpha/Beta\nIn 2020 we  found 3 effects \nEither/or | maybe"))).
  - vm_compute. reflexivity.
  - vm_compute.
    repeat (apply NoDup_cons; [cbn [In]; intros H;
                               repeat (destruct H as [H|H]; [discriminate H|]);
                               exact H|]).
    apply NoDup_nil.
Defined.
